(** * protomanager: schema model, example generator and validator

    A shallow embedding of [proto_manager.py], [proto_json.py] and
    [proto_validator.py], followed by the properties of the specification
    that were checked against it.

    Conventions of the embedding.
    - A Python [dict] / [OrderedDict] is an association list in insertion
      order; Python keeps keys unique, which a statement assumes with
      [NoDup (keys d)] or [distinct (keys d)] where it needs it.
    - An exception is a [Raise e] result; every function that can raise
      returns a [result].
    - Python's bounded call stack is the [fuel] argument of the recursive
      walkers: running out of it is [Raise RecursionError].
    - Documents are trees (as produced by a JSON loader or by the
      generator): the in-place deletions of the validator are therefore
      returned as the new document.
    - The text of a schema file is ASCII: on ASCII characters the
      character classes of the patterns and the blanks of [strip] are
      Python's.  A statement about a whole line says so with
      [ascii_text]. *)

From Stdlib Require Import List String Ascii ZArith Bool Lia.
From Stdlib Require QArith.
Import ListNotations.
Local Open Scope string_scope.
Local Open Scope list_scope.

Set Implicit Arguments.
#[local] Set Warnings "-register-all".

(** ** Python values, exceptions and dictionaries *)

Module Py.

Inductive exn : Type :=
| KeyError | TypeError | AttributeError | ValueError | IndexError
| RecursionError | OSError.

Inductive result (A : Type) : Type :=
| Ok (a : A)
| Raise (e : exn).
Arguments Ok {A} a.
Arguments Raise {A} e.

Definition bind {A B} (r : result A) (k : A -> result B) : result B :=
  match r with
  | Ok a => k a
  | Raise e => Raise e
  end.

(** JSON-like values.  [PDict] is a plain [dict], [POrderedDict] a
    [collections.OrderedDict]: [type(x) != dict] tells them apart. *)
Inductive pyval : Type :=
| PNone
| PBool (b : bool)
| PInt (z : Z)
| PFloat (q : QArith_base.Q)
| PStr (s : string)
| PList (l : list pyval)
| PDict (d : list (string * pyval))
| POrderedDict (d : list (string * pyval)).

(** [type(v).__name__] *)
Definition typename (v : pyval) : string :=
  match v with
  | PNone => "NoneType"
  | PBool _ => "bool"
  | PInt _ => "int"
  | PFloat _ => "float"
  | PStr _ => "str"
  | PList _ => "list"
  | PDict _ => "dict"
  | POrderedDict _ => "OrderedDict"
  end.

(** [x in l] for a list of strings *)
Definition str_in (x : string) (l : list string) : bool :=
  existsb (String.eqb x) l.

Section Dict.
Variables (K V : Type) (eqb : K -> K -> bool).

Definition dict := list (K * V).

Definition keys (d : dict) : list K := map fst d.

(** [k in d] *)
Definition dict_mem (k : K) (d : dict) : bool :=
  existsb (fun kv => eqb k (fst kv)) d.

(** [d.get(k)] *)
Fixpoint dict_get (k : K) (d : dict) : option V :=
  match d with
  | [] => None
  | (k', v) :: t => if eqb k k' then Some v else dict_get k t
  end.

(** [d[k]] *)
Definition getitem (k : K) (d : dict) : result V :=
  match dict_get k d with
  | Some v => Ok v
  | None => Raise KeyError
  end.

(** [d[k] = v]: an existing key keeps its position, a new one goes last *)
Fixpoint dict_set (k : K) (v : V) (d : dict) : dict :=
  match d with
  | [] => [(k, v)]
  | (k', v') :: t =>
      if eqb k k' then (k, v) :: t else (k', v') :: dict_set k v t
  end.

(** [del d[k]] *)
Definition dict_del (k : K) (d : dict) : dict :=
  filter (fun kv => negb (eqb k (fst kv))) d.

(** [d.update(d')] *)
Definition dict_update (d d' : dict) : dict :=
  fold_left (fun acc kv => dict_set (fst kv) (snd kv) acc) d' d.
End Dict.

Definition opt_eqb (a b : option string) : bool :=
  match a, b with
  | Some x, Some y => String.eqb x y
  | None, None => true
  | _, _ => false
  end.

End Py.
Import Py.

Notation "x <- e ;; k" := (bind e (fun x => k))
  (at level 100, e at next level, right associativity).
Notation "' p <- e ;; k" := (bind e (fun p => k))
  (at level 100, p pattern, e at next level, right associativity).

(** ** proto_manager.py: type tables and descriptors *)

Definition STRING_TYPES : list string :=
  ["string"; "google.protobuf.StringValue"].

Definition INT_TYPES : list string :=
  ["int32"; "int64"; "uint32"; "uint64"; "sint32"; "sint64";
   "fixed32"; "fixed64"; "sfixed32"; "sfixed64";
   "google.protobuf.Int32Value"; "google.protobuf.Int64Value"].

Definition FLOAT_TYPES : list string := ["float"; "double"].

Definition BOOL_TYPES : list string := ["bool"; "google.protobuf.BoolValue"].

Definition BYTES_TYPES : list string := ["bytes"].

Definition is_base_type (field_type : string) : bool :=
  str_in field_type
    (STRING_TYPES ++ FLOAT_TYPES ++ INT_TYPES ++ BOOL_TYPES ++ BYTES_TYPES).

(** [s.startswith(p)] *)
Fixpoint startswith (p s : string) : bool :=
  match p, s with
  | EmptyString, _ => true
  | String a p', String b s' => Ascii.eqb a b && startswith p' s'
  | String _ _, EmptyString => false
  end.

(** [MessageField]; [is_base_type] and [is_map] are computed from the type
    by the constructor and never reassigned, [value] is never set. *)
Record MessageField : Type := mkMessageField {
  type : string;
  is_repeated : bool;
  is_required : bool
}.

Definition field_is_base_type (f : MessageField) : bool := is_base_type (type f).
Definition field_is_map (f : MessageField) : bool := startswith "map<" (type f).

Record EnumField : Type := mkEnumField {
  name : string;
  values : list string
}.

(** What a schema mapping can hold: a field descriptor, an enum descriptor,
    or a nested mapping (a message scope, or the mapping stored under
    [FIELDS_KEY]). *)
Inductive node : Type :=
| NField (f : MessageField)
| NEnum (e : EnumField)
| NDict (d : list (string * node)).

Definition FIELDS_KEY : string := "__fields__".

Inductive ProtoFile : Type :=
  mkProtoFile (go_package package : option string)
              (imports : list (option string * ProtoFile))
              (structure : list (string * node)).

Definition go_package (p : ProtoFile) := let (g, _, _, _) := p in g.
Definition package (p : ProtoFile) := let (_, k, _, _) := p in k.
Definition imports (p : ProtoFile) := let (_, _, i, _) := p in i.
Definition structure (p : ProtoFile) := let (_, _, _, s) := p in s.

(** Access to a schema object the way Python does it. *)

(** [x[key]] *)
Definition node_getitem (x : node) (key : string) : result node :=
  match x with
  | NDict d => getitem String.eqb key d
  | _ => Raise TypeError
  end.

(** [x.items()] / [x.keys()] *)
Definition node_items (x : node) : result (list (string * node)) :=
  match x with
  | NDict d => Ok d
  | _ => Raise AttributeError
  end.

(** [key in x] *)
Definition node_contains (x : node) (key : string) : result bool :=
  match x with
  | NDict d => Ok (dict_mem String.eqb key d)
  | _ => Raise TypeError
  end.

(** [bool(x)]: only an empty mapping is false *)
Definition truthy (x : node) : bool :=
  match x with
  | NDict [] => false
  | _ => true
  end.

(** an attribute of [MessageField] read from [x] *)
Definition as_field (x : node) : result MessageField :=
  match x with
  | NField f => Ok f
  | _ => Raise AttributeError
  end.

(** [s.split('.', 1)]: [None] when there is no dot *)
Fixpoint split_dot (s : string) : option (string * string) :=
  match s with
  | EmptyString => None
  | String c t =>
      if Ascii.eqb c "."%char then Some (EmptyString, t)
      else match split_dot t with
           | Some (a, b) => Some (String c a, b)
           | None => None
           end
  end.

Definition has_in_imports (pf : ProtoFile) (field_type : string) : bool :=
  match split_dot field_type with
  | None => false
  | Some (pkg, msg) =>
      match dict_get opt_eqb (Some pkg) (imports pf) with
      | Some p => dict_mem String.eqb msg (structure p)
      | None => false
      end
  end.

(** [package, unused = field_type.split('.', 1)] cannot unpack a
    one-element list. *)
Definition get_import_package (pf : ProtoFile) (field_type : string)
  : result ProtoFile :=
  match split_dot field_type with
  | None => Raise ValueError
  | Some (pkg, _) => getitem opt_eqb (Some pkg) (imports pf)
  end.

Definition get_import_package_as_structure (pf : ProtoFile) (field_type : string)
  : result node :=
  match split_dot field_type with
  | None => Raise ValueError
  | Some (pkg, msg) =>
      p <- getitem opt_eqb (Some pkg) (imports pf) ;;
      getitem String.eqb msg (structure p)
  end.

(** ** The regular expressions of the source

    A small backtracking matcher with Python's [re.match] semantics
    (anchored at the start, greedy repetition, leftmost alternative first)
    for the token shapes the source's patterns use.

    The character classes are Python's on ASCII characters, where [\w] is
    [[A-Za-z0-9_]], [\d] is [[0-9]] and [.] is any character but the
    newline.  Outside ASCII Python's [\w] and [\d] also hold the letters
    and digits of other scripts, which the classes below do not: a
    statement that depends on how a whole line is matched is made for
    ASCII text ([ascii_text]), or names the matched parts. *)

Module Regex.

Inductive cls : Type :=
| Any        (* .      : anything but a newline *)
| Word       (* \w     *)
| Digit      (* \d     *)
| WordDot.   (* [\w.]  *)

Inductive tok : Type :=
| Lit (s : string)        (* literal text *)
| OptLit (s : string)     (* (text)? *)
| One (c : cls)           (* a single character of the class *)
| Plus (c : cls)          (* one or more, greedy *)
| Open (n : string)       (* (?P<n> *)
| Close (n : string).     (* ) closing group n *)

(** [\d] on ASCII characters *)
Definition is_digit (c : ascii) : bool :=
  let n := nat_of_ascii c in ((48 <=? n) && (n <=? 57))%nat.

(** [\w] on ASCII characters *)
Definition is_word (c : ascii) : bool :=
  let n := nat_of_ascii c in
  (((48 <=? n) && (n <=? 57)) || ((65 <=? n) && (n <=? 90))
   || ((97 <=? n) && (n <=? 122)) || (n =? 95))%nat.

Definition in_cls (k : cls) (c : ascii) : bool :=
  match k with
  | Any => negb (nat_of_ascii c =? 10)%nat
  | Word => is_word c
  | Digit => is_digit c
  | WordDot => is_word c || Ascii.eqb c "."%char
  end.

Fixpoint str_drop (n : nat) (s : string) : string :=
  match n, s with
  | S n', String _ t => str_drop n' t
  | _, _ => s
  end.

Fixpoint str_take (n : nat) (s : string) : string :=
  match n, s with
  | S n', String c t => String c (str_take n' t)
  | _, _ => EmptyString
  end.

(** length of the longest prefix of [s] inside the class *)
Fixpoint run (k : cls) (s : string) : nat :=
  match s with
  | String c t => if in_cls k c then S (run k t) else 0
  | EmptyString => 0
  end.

(** [opened] holds, for each open group, the text that remained when it
    was opened; [caps] the groups already closed. *)
Fixpoint go (p : list tok) (s : string)
         (opened caps : list (string * string))
  : option (list (string * string)) :=
  match p with
  | [] => Some caps
  | Lit l :: p' =>
      if startswith l s then go p' (str_drop (String.length l) s) opened caps
      else None
  | OptLit l :: p' =>
      match (if startswith l s
             then go p' (str_drop (String.length l) s) opened caps
             else None) with
      | Some r => Some r
      | None => go p' s opened caps
      end
  | One k :: p' =>
      match s with
      | String c t => if in_cls k c then go p' t opened caps else None
      | EmptyString => None
      end
  | Plus k :: p' =>
      (fix try (n : nat) : option (list (string * string)) :=
         match n with
         | 0 => None
         | S n' =>
             match go p' (str_drop n s) opened caps with
             | Some r => Some r
             | None => try n'
             end
         end) (run k s)
  | Open g :: p' => go p' s ((g, s) :: opened) caps
  | Close g :: p' =>
      match dict_get String.eqb g opened with
      | Some s0 =>
          go p' s opened
             (dict_set String.eqb g
                (str_take (String.length s0 - String.length s) s0) caps)
      | None => None
      end
  end.

(** [re.match(p, s)], as the [groupdict()] of the match *)
Definition re_match (p : list tok) (s : string)
  : option (list (string * string)) :=
  go p s [] [].

(** [re.match(p, s).groupdict()[g]]: a failed match is [None], whose
    [groupdict] attribute does not exist. *)
Definition match_group (p : list tok) (g s : string) : result string :=
  match re_match p s with
  | None => Raise AttributeError
  | Some caps => getitem String.eqb g caps
  end.

End Regex.
Import Regex.

(** ** proto_validator.py *)

Module ProtoValidator.

(** A diagnostic is the format string that built it together with its
    arguments; [%r] and [%s] of a value keep the value itself. *)
Inductive message : Type :=
| ExpectedStructure (scope_name got : string) (v : pyval)
    (* expected structure [%s], got [%s] (as %r) instead. *)
| FieldExcess (key : string)
    (* field '%s' is excess. *)
| FieldRequired (field_name field_type : string)
    (* field '%s [%s]' is required. *)
| ExpectedArray (field_type got : string)
    (* expected array of [%s], got [%s] *)
| WrongType (proto_type got : string) (v : pyval)
    (* wrong type. Expected type [%s], got [%s] (as %r) instead. *)
| NotAValidMap (proto_type got : string) (v : pyval)
    (* not a valid map. Expected type [%s], got [%s] (as %r) instead. *)
| WrongMapValue (key map_value_type proto_type got : string) (v : pyval)
    (* wrong value's type for key '%s'. Expected type [%s] (from [%s]),
       got [%s] (as %r) instead. *)
| UnknownEnumValue (v : pyval) (enum_name : string).
    (* unknown value '%s' for [enum %s]. *)

(** ["%s: %s" % (test_path, error)] *)
Definition error : Type := (string * message)%type.

(** [self.__errors] and what was printed to the console *)
Record vstate : Type := mkState {
  errors : list error;
  printed : list string
}.

(** [__add_errors] with a string or [None] *)
Definition add_error (test_path : string) (e : option message) (st : vstate)
  : vstate :=
  match e with
  | None => st
  | Some m => mkState (errors st ++ [(test_path, m)]) (printed st)
  end.

(** [__add_errors] with a list *)
Definition add_errors (test_path : string) (es : list (option message))
           (st : vstate) : vstate :=
  fold_left (fun s e => add_error test_path e s) es st.

Definition type_associations : list (list string * list string) :=
  [ (STRING_TYPES, ["str"; "unicode"]);
    (FLOAT_TYPES, ["float"]);
    (INT_TYPES, ["int"; "long"]);
    (BOOL_TYPES, ["bool"]) ].

Definition validate_base_type (proto_type : string) (test_value : pyval)
  : option message :=
  match
    find (fun a => str_in proto_type (fst a)
                   && negb (str_in (typename test_value) (snd a)))
         type_associations
  with
  | Some _ => Some (WrongType proto_type (typename test_value) test_value)
  | None => None
  end.

Definition validate_multiply_base_types (proto_type : string)
           (test_value : list pyval) : list (option message) :=
  map (validate_base_type proto_type) test_value.

(** [test_value not in enum_field.values]: the values are strings *)
Definition validate_enum_type (enum_field : EnumField) (test_value : pyval)
  : option message :=
  let known := match test_value with
               | PStr s => str_in s (values enum_field)
               | _ => false
               end in
  if known then None
  else Some (UnknownEnumValue test_value (name enum_field)).

Definition validate_multiply_enum_types (enum_field : EnumField)
           (test_value : list pyval) : list (option message) :=
  map (validate_enum_type enum_field) test_value.

(** [del test_data[key]] *)
Definition delitem (key : string) (d : list (string * pyval))
  : result (list (string * pyval)) :=
  if dict_mem String.eqb key d then Ok (dict_del String.eqb key d)
  else Raise KeyError.

(** first loop of [__validate_and_del_excess]: the keys to delete *)
Fixpoint excess_keys (proto_fields : node) (ks : list string)
  : result (list string) :=
  match ks with
  | [] => Ok []
  | test_key :: rest =>
      fs <- node_items proto_fields ;;
      more <- excess_keys proto_fields rest ;;
      Ok (if dict_mem String.eqb test_key fs then more else test_key :: more)
  end.

(** second loop: delete them *)
Fixpoint del_keys (ks : list string) (d : list (string * pyval))
  : result (list (string * pyval)) :=
  match ks with
  | [] => Ok d
  | key :: rest => d' <- delitem key d ;; del_keys rest d'
  end.

Definition validate_and_del_excess (proto_fields : node)
           (test_data : list (string * pyval))
  : result (list message * list (string * pyval)) :=
  keys_to_del <- excess_keys proto_fields (keys test_data) ;;
  test_data' <- del_keys keys_to_del test_data ;;
  Ok (map FieldExcess keys_to_del, test_data').

Fixpoint required_loop (fs : list (string * node))
         (test_data : list (string * pyval)) : result (list message) :=
  match fs with
  | [] => Ok []
  | (field_name, message_data) :: rest =>
      f <- as_field message_data ;;
      more <- required_loop rest test_data ;;
      Ok (if is_required f && negb (dict_mem String.eqb field_name test_data)
          then FieldRequired field_name (type f) :: more
          else more)
  end.

Definition validate_required (proto_fields : node)
           (test_data : list (string * pyval)) : result (list message) :=
  fs <- node_items proto_fields ;;
  required_loop fs test_data.

(** [map<\w+, ?(?P<value>[\w.]+)>] *)
Definition map_re : list tok :=
  [Lit "map<"; Plus Word; Lit ","; OptLit " ";
   Open "value"; Plus WordDot; Close "value"; Lit ">"].

Definition is_list (v : pyval) : bool :=
  match v with PList _ => true | _ => false end.

(** the elements of a value already known to be a list *)
Definition elements (v : pyval) : list pyval :=
  match v with PList l => l | _ => [] end.

Section Walk.
(** the recursive call [self.__validate_structure] *)
Variable rec : ProtoFile -> node -> pyval -> string -> string ->
               vstate -> result (pyval * vstate).

Fixpoint validate_multiply_structures (proto_file : ProtoFile)
         (proto_scope : node) (test_data : list pyval)
         (test_path scope_name : string) (st : vstate)
  : result (list pyval * vstate) :=
  match test_data with
  | [] => Ok ([], st)
  | value :: rest =>
      '(value', st1) <- rec proto_file proto_scope value test_path scope_name st ;;
      '(rest', st2) <- validate_multiply_structures proto_file proto_scope
                         rest test_path scope_name st1 ;;
      Ok (value' :: rest', st2)
  end.

(** the loop of [__validate_map_type] over the items of the map *)
Fixpoint map_loop (proto_file : ProtoFile) (proto_type : string)
         (items : list (string * pyval)) (test_path : string) (st : vstate)
  : result (list (string * pyval) * list (option message) * vstate) :=
  match items with
  | [] => Ok ([], [], st)
  | (key, value) :: rest =>
      map_value_type <- match_group map_re "value" proto_type ;;
      '(value', err, st1) <-
        (if is_base_type map_value_type
         then Ok (value, validate_base_type map_value_type value, st)
         else
           new_proto_file <- get_import_package proto_file map_value_type ;;
           new_proto_scope <-
             get_import_package_as_structure proto_file map_value_type ;;
           '(v', s') <- rec new_proto_file new_proto_scope value
                          (test_path ++ " > " ++ key)%string map_value_type st ;;
           Ok (v', None, s')) ;;
      let here :=
        match err with
        | Some _ => [Some (WrongMapValue key map_value_type proto_type
                                        (typename value) value)]
        | None => []
        end in
      '(rest', errs, st2) <- map_loop proto_file proto_type rest test_path st1 ;;
      Ok ((key, value') :: rest', here ++ errs, st2)
  end.

Definition validate_map_type (proto_file : ProtoFile) (proto_type : string)
           (test_value : pyval) (test_path : string) (st : vstate)
  : result (pyval * list (option message) * vstate) :=
  match test_value with
  | PDict d =>
      '(d', errs, st') <- map_loop proto_file proto_type d test_path st ;;
      Ok (PDict d', errs, st')
  | _ =>
      Ok (test_value,
          [Some (NotAValidMap proto_type (typename test_value) test_value)],
          st)
  end.

(** a message-typed field: one recursive call, or one per element of a
    repeated field *)
Definition walk (test_message : MessageField) (test_value : pyval)
           (new_path : string) (st : vstate)
           (proto_file : ProtoFile) (proto_scope : node)
  : result (pyval * vstate) :=
  if is_repeated test_message then
    '(l', st') <- validate_multiply_structures proto_file proto_scope
                    (elements test_value) new_path (type test_message) st ;;
    Ok (PList l', st')
  else rec proto_file proto_scope test_value new_path (type test_message) st.

(** [scoped_proto_type] after its two assignments: the entry of the
    current scope, overwritten by the top-level entry when there is one *)
Definition scoped_proto_type (proto_file : ProtoFile) (proto_scope : node)
           (field_type : string) : result (option node) :=
  in_scope <- node_contains proto_scope field_type ;;
  local <- (if in_scope : bool
            then x <- node_getitem proto_scope field_type ;; Ok (Some x)
            else Ok None) ;;
  Ok (match dict_get String.eqb field_type (structure proto_file) with
      | Some top => Some top
      | None => local
      end).

(** the import branch, and below it the two [print] calls *)
Definition via_imports (proto_file : ProtoFile) (test_message : MessageField)
           (test_path test_key : string) (test_value : pyval)
           (new_path : string) (st : vstate) : result (pyval * vstate) :=
  if has_in_imports proto_file (type test_message) then
    new_proto_file <- get_import_package proto_file (type test_message) ;;
    new_proto_scope <-
      get_import_package_as_structure proto_file (type test_message) ;;
    walk test_message test_value new_path st new_proto_file new_proto_scope
  else
    Ok (test_value,
        mkState (errors st)
          (printed st ++
           ["[Something goes wrong] Sorry, but here's a bug. Can you fix it?";
            ("Path: " ++ test_path ++ " . Field:  " ++ test_key)%string])).

(** one round of the loop over [test_data.items()] *)
Definition validate_field (proto_file : ProtoFile)
           (proto_scope proto_fields : node) (test_path : string)
           (test_key : string) (test_value : pyval) (st : vstate)
  : result (pyval * vstate) :=
  x <- node_getitem proto_fields test_key ;;
  test_message <- as_field x ;;
  let new_path := (test_path ++ " > " ++ test_key)%string in
  if is_repeated test_message && negb (is_list test_value) then
    Ok (test_value,
        add_error new_path
          (Some (ExpectedArray (type test_message) (typename test_value))) st)
  else if field_is_base_type test_message then
    let errs :=
      if is_repeated test_message
      then validate_multiply_base_types (type test_message) (elements test_value)
      else [validate_base_type (type test_message) test_value] in
    Ok (test_value, add_errors new_path errs st)
  else if field_is_map test_message then
    '(v', errs, st') <- validate_map_type proto_file (type test_message)
                          test_value new_path st ;;
    Ok (v', add_errors new_path errs st')
  else
    scoped <- scoped_proto_type proto_file proto_scope (type test_message) ;;
    match scoped with
    | Some (NEnum e) =>
        let errs :=
          if is_repeated test_message
          then validate_multiply_enum_types e (elements test_value)
          else [validate_enum_type e test_value] in
        Ok (test_value, add_errors new_path errs st)
    | Some scope =>
        if truthy scope
        then walk test_message test_value new_path st proto_file scope
        else via_imports proto_file test_message test_path test_key
                         test_value new_path st
    | None =>
        via_imports proto_file test_message test_path test_key
                    test_value new_path st
    end.

Fixpoint fields_loop (proto_file : ProtoFile) (proto_scope proto_fields : node)
         (test_path : string) (items : list (string * pyval)) (st : vstate)
  : result (list (string * pyval) * vstate) :=
  match items with
  | [] => Ok ([], st)
  | (test_key, test_value) :: rest =>
      '(v', st1) <- validate_field proto_file proto_scope proto_fields
                      test_path test_key test_value st ;;
      '(rest', st2) <- fields_loop proto_file proto_scope proto_fields
                         test_path rest st1 ;;
      Ok ((test_key, v') :: rest', st2)
  end.

Definition validate_structure_body (proto_file : ProtoFile)
           (proto_scope : node) (test_data : pyval)
           (test_path scope_name : string) (st : vstate)
  : result (pyval * vstate) :=
  match test_data with
  | PDict d =>
      proto_fields <- node_getitem proto_scope FIELDS_KEY ;;
      '(errs, d1) <- validate_and_del_excess proto_fields d ;;
      let st1 := add_errors test_path (map Some errs) st in
      errs' <- validate_required proto_fields d1 ;;
      let st2 := add_errors test_path (map Some errs') st1 in
      '(d2, st3) <- fields_loop proto_file proto_scope proto_fields
                      test_path d1 st2 ;;
      Ok (PDict d2, st3)
  | _ =>
      Ok (test_data,
          add_error test_path
            (Some (ExpectedStructure scope_name (typename test_data) test_data))
            st)
  end.
End Walk.

Fixpoint validate_structure (fuel : nat) (proto_file : ProtoFile)
         (proto_scope : node) (test_data : pyval)
         (test_path scope_name : string) (st : vstate)
  : result (pyval * vstate) :=
  match fuel with
  | 0 => Raise RecursionError
  | S fuel' =>
      validate_structure_body (validate_structure fuel') proto_file
        proto_scope test_data test_path scope_name st
  end.

(** [validate_json]: the returned pair, the document as the call leaves
    it, and the console output *)
Definition validate_json (fuel : nat) (proto_file : ProtoFile)
           (root_field_name : string) (test_data : pyval)
  : result (bool * list error * pyval * list string) :=
  proto_scope <- getitem String.eqb root_field_name (structure proto_file) ;;
  '(test_data', st) <- validate_structure fuel proto_file proto_scope test_data
                         root_field_name root_field_name (mkState [] []) ;;
  Ok (negb (match errors st with [] => true | _ => false end),
      errors st, test_data', printed st).

End ProtoValidator.
Import ProtoValidator.

(** ** proto_json.py *)

Module ProtoJson.

Definition get_default_value_for_field (field : MessageField) : option pyval :=
  if str_in (type field) STRING_TYPES then
    Some (PStr (if is_required field then "String" else "Optional string"))
  else if str_in (type field) INT_TYPES then
    Some (PInt (if is_required field then 100 else 50))
  else if str_in (type field) FLOAT_TYPES then
    Some (PFloat (if is_required field
                  then QArith_base.Qmake 201 2     (* 100.5 *)
                  else QArith_base.Qmake 201 4))   (* 50.25 *)
  else if str_in (type field) BOOL_TYPES then
    Some (PBool (is_required field))
  else None.

Definition get_default_value_for_enum (enum_field : EnumField)
           (field : MessageField) : pyval :=
  match values enum_field with
  | first :: _ => PStr first
  | [] => PStr (if is_required field then "Enum" else "Optional enum")
  end.

Section Walk.
(** the recursive call [self.__get_object] *)
Variable rec : ProtoFile -> node -> result pyval.

Definition as_object_with (proto_file : ProtoFile) (root_field_name : string)
  : result pyval :=
  scope <- getitem String.eqb root_field_name (structure proto_file) ;;
  rec proto_file scope.

Definition get_import_package_as_object (proto_file : ProtoFile)
           (field_type : string) : result pyval :=
  match split_dot field_type with
  | None => Raise ValueError
  | Some (package, message) =>
      pkg <- getitem opt_eqb (Some package) (imports proto_file) ;;
      as_object_with pkg message
  end.

(** one round of the loop over the fields; [acc] is [result] *)
Definition get_field (proto_file : ProtoFile) (structure_field : node)
           (acc : list (string * pyval)) (field_name : string) (x : node)
  : result (list (string * pyval)) :=
  field <- as_field x ;;
  value <-
    match get_default_value_for_field field with
    | Some default_value => Ok default_value
    | None =>
        if has_in_imports proto_file (type field) then
          get_import_package_as_object proto_file (type field)
        else
          in_scope <- node_contains structure_field (type field) ;;
          next_field <-
            (if in_scope : bool
             then y <- node_getitem structure_field (type field) ;; Ok (Some y)
             else Ok (dict_get String.eqb (type field) (structure proto_file))) ;;
          match next_field with
          | Some (NDict d) => rec proto_file (NDict d)
          | Some (NEnum e) => Ok (get_default_value_for_enum e field)
          | Some (NField _) | None => Ok (PDict [])
          end
    end ;;
  let acc1 := dict_set String.eqb field_name value acc in
  if is_repeated field then
    let got := match dict_get String.eqb field_name acc1 with
               | Some v => v
               | None => PNone
               end in
    Ok (dict_set String.eqb field_name (PList [got]) acc1)
  else Ok acc1.

Fixpoint get_fields (proto_file : ProtoFile) (structure_field : node)
         (items : list (string * node)) (acc : list (string * pyval))
  : result (list (string * pyval)) :=
  match items with
  | [] => Ok acc
  | (field_name, x) :: rest =>
      acc' <- get_field proto_file structure_field acc field_name x ;;
      get_fields proto_file structure_field rest acc'
  end.

Definition get_object_body (proto_file : ProtoFile) (structure_field : node)
  : result pyval :=
  fields <- node_getitem structure_field FIELDS_KEY ;;
  items <- node_items fields ;;
  r <- get_fields proto_file structure_field items [] ;;
  Ok (POrderedDict r).
End Walk.

Fixpoint get_object (fuel : nat) (proto_file : ProtoFile)
         (structure_field : node) : result pyval :=
  match fuel with
  | 0 => Raise RecursionError
  | S fuel' => get_object_body (get_object fuel') proto_file structure_field
  end.

Definition as_object (fuel : nat) (proto_file : ProtoFile)
           (root_field_name : string) : result pyval :=
  as_object_with (get_object fuel) proto_file root_field_name.

End ProtoJson.
Import ProtoJson.

(** ** proto_manager.py: the parser *)

Module Parser.

Definition dquote : string := String (ascii_of_nat 34) EmptyString.

(** [option go_package = \"(?P<package>.+)\";] *)
Definition go_package_re : list tok :=
  [Lit ("option go_package = " ++ dquote);
   Open "package"; Plus Any; Close "package"; Lit (dquote ++ ";")].

(** [package (?P<name>\w+);] *)
Definition package_re : list tok :=
  [Lit "package "; Open "name"; Plus Word; Close "name"; Lit ";"].

(** [import \"(?P<field>.+.proto)\";] *)
Definition import_re : list tok :=
  [Lit ("import " ++ dquote);
   Open "field"; Plus Any; One Any; Lit "proto"; Close "field";
   Lit (dquote ++ ";")].

(** [message (?P<name>\w+) {] *)
Definition message_re : list tok :=
  [Lit "message "; Open "name"; Plus Word; Close "name"; Lit " {"].

(** [enum (?P<name>\w+) {] *)
Definition enum_re : list tok :=
  [Lit "enum "; Open "name"; Plus Word; Close "name"; Lit " {"].

(** [(?P<key>\w+) = \d+;] *)
Definition enum_value_re : list tok :=
  [Open "key"; Plus Word; Close "key"; Lit " = "; Plus Digit; Lit ";"].

(** [(repeated )?(?P<field_type>.+) (?P<name>\w+) = (?P<index>\d+);(// required)?] *)
Definition field_re : list tok :=
  [OptLit "repeated ";
   Open "field_type"; Plus Any; Close "field_type"; Lit " ";
   Open "name"; Plus Word; Close "name"; Lit " = ";
   Open "index"; Plus Digit; Close "index"; Lit ";";
   OptLit "// required"].

(** [str.isspace] on ASCII characters: the blanks [strip] removes from
    ASCII text.  Python's [strip] also removes the blanks of Unicode
    outside ASCII (the no-break space, for one), which this does not. *)
Definition is_space (c : ascii) : bool :=
  let n := nat_of_ascii c in
  (((9 <=? n) && (n <=? 13)) || ((28 <=? n) && (n <=? 32)))%nat.

Fixpoint lstrip (s : string) : string :=
  match s with
  | String c t => if is_space c then lstrip t else s
  | EmptyString => EmptyString
  end.

Fixpoint str_rev_onto (s acc : string) : string :=
  match s with
  | String c t => str_rev_onto t (String c acc)
  | EmptyString => acc
  end.

Definition str_rev (s : string) : string := str_rev_onto s EmptyString.

(** [s.strip()] *)
Definition strip (s : string) : string :=
  str_rev (lstrip (str_rev (lstrip s))).

(** [s.endswith(p)] *)
Definition endswith (p s : string) : bool :=
  startswith (str_rev p) (str_rev s).

(** The parser's instance attributes. *)
Record pstate : Type := mkPstate {
  p_go_package : option string;
  p_package : option string;
  p_imported_packages : list (option string * ProtoFile);
  p_structure : list (string * node);
  is_oneof_block : bool;
  is_enum_block : bool;
  enum_name : option string;
  message_block : option node;
  message_names_path : list string
}.

Definition initial : pstate :=
  mkPstate None None [] [] false false None None [].

Definition to_file (s : pstate) : ProtoFile :=
  mkProtoFile (p_go_package s) (p_package s)
              (p_imported_packages s) (p_structure s).

(** [x[key] = v] *)
Definition node_setitem (x : node) (key : string) (v : node) : result node :=
  match x with
  | NDict d => Ok (NDict (dict_set String.eqb key v d))
  | _ => Raise TypeError
  end.

(** [__get_current_message_block] on an open block *)
Fixpoint node_at (path : list string) (target : node) : result node :=
  match path with
  | [] => Ok target
  | n :: rest => x <- node_getitem target n ;; node_at rest x
  end.

(** the object [node_at] reaches, replaced by what [f] makes of it *)
Fixpoint node_update (path : list string) (f : node -> result node)
         (target : node) : result node :=
  match path with
  | [] => f target
  | n :: rest =>
      x <- node_getitem target n ;;
      x' <- node_update rest f x ;;
      node_setitem target n x'
  end.

Definition empty_scope : node := NDict [(FIELDS_KEY, NDict [])].

Definition set_message_block (s : pstate) (b : option node)
           (path : list string) : pstate :=
  mkPstate (p_go_package s) (p_package s) (p_imported_packages s)
           (p_structure s) (is_oneof_block s) (is_enum_block s)
           (enum_name s) b path.

Definition set_structure (s : pstate) (d : list (string * node)) : pstate :=
  mkPstate (p_go_package s) (p_package s) (p_imported_packages s)
           d (is_oneof_block s) (is_enum_block s)
           (enum_name s) (message_block s) (message_names_path s).

Definition set_enum (s : pstate) (flag : bool) (n : option string) : pstate :=
  mkPstate (p_go_package s) (p_package s) (p_imported_packages s)
           (p_structure s) (is_oneof_block s) flag n
           (message_block s) (message_names_path s).

Definition set_oneof (s : pstate) (flag : bool) : pstate :=
  mkPstate (p_go_package s) (p_package s) (p_imported_packages s)
           (p_structure s) flag (is_enum_block s) (enum_name s)
           (message_block s) (message_names_path s).

Definition add_message (nm : string) (s : pstate) : result pstate :=
  match message_block s with
  | None =>
      Ok (set_message_block s (Some (NDict [(nm, empty_scope)]))
            (message_names_path s ++ [nm]))
  | Some b =>
      b' <- node_update (message_names_path s)
              (fun target => node_setitem target nm empty_scope) b ;;
      Ok (set_message_block s (Some b') (message_names_path s ++ [nm]))
  end.

Definition add_enum (nm : string) (s : pstate) : result pstate :=
  let s := set_enum s true (Some nm) in
  match message_block s with
  | None =>
      Ok (set_structure s
            (dict_set String.eqb nm (NEnum (mkEnumField nm [])) (p_structure s)))
  | Some b =>
      b' <- node_update (message_names_path s)
              (fun block => node_setitem block nm (NEnum (mkEnumField nm []))) b ;;
      Ok (set_message_block s (Some b') (message_names_path s))
  end.

(** [field.values.append(value)] *)
Definition append_value (value : string) (field : node) : result node :=
  match field with
  | NEnum e => Ok (NEnum (mkEnumField (name e) (values e ++ [value])))
  | _ => Raise AttributeError
  end.

(** [d[key]] with a key that may be [None] *)
Definition getitem_opt (key : option string) (d : list (string * node))
  : result node :=
  match key with
  | Some k => getitem String.eqb k d
  | None => Raise KeyError
  end.

Definition set_enum_value (value : string) (s : pstate) : result pstate :=
  match message_block s with
  | None =>
      field <- getitem_opt (enum_name s) (p_structure s) ;;
      field' <- append_value value field ;;
      match enum_name s with
      | Some k => Ok (set_structure s (dict_set String.eqb k field' (p_structure s)))
      | None => Raise KeyError
      end
  | Some b =>
      b' <- node_update (message_names_path s)
              (fun block =>
                 match enum_name s with
                 | Some k =>
                     field <- node_getitem block k ;;
                     field' <- append_value value field ;;
                     node_setitem block k field'
                 | None =>
                     match block with
                     | NDict _ => Raise KeyError
                     | _ => Raise TypeError
                     end
                 end) b ;;
      Ok (set_message_block s (Some b') (message_names_path s))
  end.

(** [l.pop()] as the remaining list *)
Definition pop (l : list string) : list string := removelast l.

Definition close_block (s : pstate) : result pstate :=
  if is_enum_block s then Ok (set_enum s false None)
  else if is_oneof_block s then Ok (set_oneof s false)
  else if (1 <? List.length (message_names_path s))%nat then
    Ok (set_message_block s (message_block s) (pop (message_names_path s)))
  else
    match message_names_path s, message_block s with
    | [], _ => Raise IndexError
    | _ :: _, None => Raise TypeError
    | first :: _, Some b =>
        x <- node_getitem b first ;;
        Ok (set_message_block
              (set_structure s (dict_set String.eqb first x (p_structure s)))
              None [])
    end.

Definition add_field (nm : string) (field : MessageField) (s : pstate)
  : result pstate :=
  match message_block s with
  | None => Ok s
  | Some b =>
      b' <- node_update (message_names_path s)
              (fun block =>
                 fields <- node_getitem block FIELDS_KEY ;;
                 fields' <- node_setitem fields nm (NField field) ;;
                 node_setitem block FIELDS_KEY fields') b ;;
      Ok (set_message_block s (Some b') (message_names_path s))
  end.

(** [merge_proto_file] *)
Definition merge_proto_file (self other : ProtoFile) : ProtoFile :=
  mkProtoFile (go_package self) (package self)
    (dict_update opt_eqb (imports self) (imports other))
    (dict_update String.eqb (structure self) (structure other)).

Section Files.
(** [ProtoFile(filename)], the recursive call *)
Variable rec : string -> result ProtoFile.

Definition add_import_field (field : string) (s : pstate) : result pstate :=
  if negb (startswith "proto" field) then Ok s
  else
    proto_module <- rec field ;;
    let pkgs := p_imported_packages s in
    let pkgs' :=
      match dict_get opt_eqb (package proto_module) pkgs with
      | None => dict_set opt_eqb (package proto_module) proto_module pkgs
      | Some old =>
          dict_set opt_eqb (package proto_module)
                   (merge_proto_file old proto_module) pkgs
      end in
    Ok (mkPstate (p_go_package s) (p_package s) pkgs' (p_structure s)
                 (is_oneof_block s) (is_enum_block s) (enum_name s)
                 (message_block s) (message_names_path s)).

(** the [else] branch of [__parse_line]: an enum value or a field *)
Definition parse_member (line : string) (s : pstate) : result pstate :=
  if is_enum_block s then
    if startswith "reserved" line then Ok s
    else
      value <- match_group enum_value_re "key" line ;;
      set_enum_value value s
  else
    match message_block s with
    | Some _ =>
        match re_match field_re line with
        | None => Raise AttributeError
        | Some info_dict =>
            let is_repeated := startswith "repeated " line in
            let is_required := endswith "// required" line in
            field_type <- getitem String.eqb "field_type" info_dict ;;
            nm <- getitem String.eqb "name" info_dict ;;
            add_field nm (mkMessageField field_type is_repeated is_required) s
        end
    | None => Ok s
    end.

Definition parse_line (raw : string) (s : pstate) : result pstate :=
  let line := strip raw in
  if startswith "option go_package " line then
    pkg <- match_group go_package_re "package" line ;;
    Ok (mkPstate (Some pkg) (p_package s) (p_imported_packages s)
                 (p_structure s) (is_oneof_block s) (is_enum_block s)
                 (enum_name s) (message_block s) (message_names_path s))
  else if startswith "package" line then
    pkg <- match_group package_re "name" line ;;
    Ok (mkPstate (p_go_package s) (Some pkg) (p_imported_packages s)
                 (p_structure s) (is_oneof_block s) (is_enum_block s)
                 (enum_name s) (message_block s) (message_names_path s))
  else if startswith "import " line then
    field <- match_group import_re "field" line ;;
    add_import_field field s
  else if startswith "message " line then
    message_name <- match_group message_re "name" line ;;
    add_message message_name s
  else if startswith "enum " line then
    nm <- match_group enum_re "name" line ;;
    add_enum nm s
  else if startswith "oneof " line then Ok (set_oneof s true)
  else if startswith "}" line then close_block s
  else if startswith "//" line then Ok s
  else match line with
       | EmptyString => Ok s
       | _ => parse_member line s
       end.

Fixpoint parse_lines (lines : list string) (s : pstate) : result pstate :=
  match lines with
  | [] => Ok s
  | line :: rest => s' <- parse_line line s ;; parse_lines rest s'
  end.
End Files.

Section Disk.
(** the lines of a named file, if it can be opened *)
Variable read_file : string -> option (list string).

(** [ProtoFile(filename)]; [fuel] bounds the nesting of imports *)
Fixpoint parse_file (fuel : nat) (filename : string) : result ProtoFile :=
  match fuel with
  | 0 => Raise RecursionError
  | S fuel' =>
      match read_file filename with
      | None => Raise OSError
      | Some lines =>
          s <- parse_lines (parse_file fuel') lines initial ;;
          Ok (to_file s)
      end
  end.
End Disk.

End Parser.
Import Parser.

(** ** Schemas and documents used as concrete inputs *)

Module Examples.

Definition on_disk (fname : string) (lines : list string) (f : string)
  : option (list string) :=
  if String.eqb f fname then Some lines else None.

Definition load (fname : string) (lines : list string) : ProtoFile :=
  match parse_file (on_disk fname lines) 1 fname with
  | Ok pf => pf
  | Raise _ => mkProtoFile None None [] []
  end.

(** the scenario of the specification, one statement per line *)
Definition scenario_lines : list string :=
  [ "message M {";
    "  string name = 1; // required";
    "  repeated int32 tags = 2;";
    "}" ].

Definition scenario : ProtoFile := load "m.proto" scenario_lines.

(** the same text cut where the specification cuts it *)
Definition scenario_inline : list string :=
  [ "message M { string name = 1; // required";
    " repeated int32 tags = 2; }" ].

(** a map whose values are a message of the same file *)
Definition local_map_lines : list string :=
  [ "message Foo {";
    "  string x = 1;";
    "}";
    "message M {";
    "  map<string, Foo> m = 1;";
    "}" ].

Definition local_map : ProtoFile := load "map.proto" local_map_lines.

Definition local_map_doc : pyval :=
  PDict [("m", PDict [("k", PDict [("x", PStr "a")])])].

(** a nested message that shares its name with a top-level one *)
Definition shadow_lines : list string :=
  [ "message A {";
    "  message B {";
    "    string x = 1;";
    "  }";
    "  B b = 1;";
    "}";
    "message B {";
    "  int32 y = 1;";
    "}" ].

Definition shadow : ProtoFile := load "shadow.proto" shadow_lines.

(** an enum with a reserved range *)
Definition reserved_lines : list string :=
  [ "enum Color {";
    "  RED = 0;";
    "  reserved 2, 3;";
    "}" ].

(** an enum without values *)
Definition empty_enum_lines : list string :=
  [ "enum E {";
    "}";
    "message M {";
    "  E e = 1;";
    "}" ].

Definition empty_enum : ProtoFile := load "e.proto" empty_enum_lines.

(** a file importing another one, with a nested message and an enum *)
Definition core_lines : list string :=
  [ "package core;";
    "message Icon {";
    "  string url = 1; // required";
    "  int64 size = 2;";
    "}" ].

Definition button_lines : list string :=
  [ "package interface;";
    ("import " ++ dquote ++ "proto/core.proto" ++ dquote ++ ";")%string;
    "message Button {";
    "  message Theme {";
    "    double scale = 1;";
    "  }";
    "  enum Kind {";
    "    FLAT = 0;";
    "    RAISED = 1;";
    "  }";
    "  string label = 1; // required";
    "  repeated Theme themes = 2;";
    "  Kind kind = 3;";
    "  core.Icon icon = 4;";
    "  bool enabled = 5;";
    "}" ].

Definition button_disk (f : string) : option (list string) :=
  if String.eqb f "proto/interface.proto" then Some button_lines
  else if String.eqb f "proto/core.proto" then Some core_lines
  else None.

Definition button : ProtoFile :=
  match parse_file button_disk 2 "proto/interface.proto" with
  | Ok pf => pf
  | Raise _ => mkProtoFile None None [] []
  end.

Definition button_doc : pyval :=
  POrderedDict
    [ ("label", PStr "String");
      ("themes", PList [POrderedDict [("scale", PFloat (QArith_base.Qmake 201 4))]]);
      ("kind", PStr "FLAT");
      ("icon", POrderedDict [("url", PStr "String"); ("size", PInt 50)]);
      ("enabled", PBool false) ].

(** a document with fields the schema does not declare, at three levels *)
Definition button_cluttered : pyval :=
  PDict
    [ ("label", PStr "OK");
      ("colour", PStr "red");
      ("themes", PList [PDict [("scale", PFloat (QArith_base.Qmake 3 2));
                               ("zoom", PInt 2)]]);
      ("icon", PDict [("url", PStr "a.png"); ("alt", PStr "a");
                      ("size", PInt 16)]) ].

Definition button_stripped : pyval :=
  PDict
    [ ("label", PStr "OK");
      ("themes", PList [PDict [("scale", PFloat (QArith_base.Qmake 3 2))]]);
      ("icon", PDict [("url", PStr "a.png"); ("size", PInt 16)]) ].

End Examples.
Import Examples.

(** ** Vocabulary of the statements *)

Unset Implicit Arguments.

(** the stripped line is dispatched to the last branch of [__parse_line] *)
Definition reaches_member (line : string) : bool :=
  negb (startswith "option go_package " line)
  && negb (startswith "package" line)
  && negb (startswith "import " line)
  && negb (startswith "message " line)
  && negb (startswith "enum " line)
  && negb (startswith "oneof " line)
  && negb (startswith "}" line)
  && negb (startswith "//" line)
  && negb (match line with EmptyString => true | _ => false end).

(** [pruned v v']: [v'] is [v] with entries of some of its dictionaries
    deleted, at any depth; nothing is added, reordered or rewritten. *)
Inductive pruned : pyval -> pyval -> Prop :=
| pruned_same v : pruned v v
| pruned_list l l' : pruned_each l l' -> pruned (PList l) (PList l')
| pruned_dict d d' : pruned_items d d' -> pruned (PDict d) (PDict d')
with pruned_each : list pyval -> list pyval -> Prop :=
| pruned_each_nil : pruned_each [] []
| pruned_each_cons v v' l l' :
    pruned v v' -> pruned_each l l' -> pruned_each (v :: l) (v' :: l')
with pruned_items : list (string * pyval) -> list (string * pyval) -> Prop :=
| pruned_items_nil : pruned_items [] []
| pruned_items_del k v d d' :
    pruned_items d d' -> pruned_items ((k, v) :: d) d'
| pruned_items_keep k v v' d d' :
    pruned v v' -> pruned_items d d' ->
    pruned_items ((k, v) :: d) ((k, v') :: d').

Create HintDb pruned.
#[local] Hint Constructors pruned pruned_each pruned_items : pruned.

(** what one call of [__validate_structure] leaves of a dictionary: the
    entries whose key the scope declares, in their order *)
Definition restricted (proto_scope : node) (before after : pyval) : Prop :=
  match before with
  | PDict d =>
      exists fields d',
        node_getitem proto_scope FIELDS_KEY = Ok (NDict fields)
        /\ after = PDict d'
        /\ keys d' = filter (fun k => dict_mem String.eqb k fields) (keys d)
  | _ => after = before
  end.

Definition is_excess (m : message) : bool :=
  match m with FieldExcess _ => true | _ => false end.

(** no diagnostic of the list is an excess-field one *)
Definition excess_free (es : list error) : bool :=
  forallb (fun e => negb (is_excess (snd e))) es.

Definition quiet (l : list (option message)) : bool :=
  forallb (fun o => match o with
                    | Some m => negb (is_excess m)
                    | None => true
                    end) l.

(** [st'] is [st] after more diagnostics, none of them about excess fields *)
Definition extends (st st' : vstate) : Prop :=
  exists es out,
    st' = mkState (errors st ++ es) (printed st ++ out)
    /\ excess_free es = true.

(** the document with every [OrderedDict] turned into a plain [dict], as
    dumping it to JSON and loading it back does *)
Fixpoint plain (v : pyval) : pyval :=
  match v with
  | PList l => PList (map plain l)
  | PDict d => PDict (map (fun kv => (fst kv, plain (snd kv))) d)
  | POrderedDict d => PDict (map (fun kv => (fst kv, plain (snd kv))) d)
  | _ => v
  end.

(** [keys] without repetition *)
Fixpoint distinct (ks : list string) : bool :=
  match ks with
  | [] => true
  | k :: rest => negb (str_in k rest) && distinct rest
  end.

Section Regular.
(** the same condition on the scope a field leads to *)
Variable reg : ProtoFile -> node -> bool.

(** A field the two consumers treat alike: a scalar; or a type that is
    not a map and names exactly one thing -- an imported message, or an
    entry of the scope or of the file that is a message or an enum with at
    least one value. *)
Definition regular_field (proto_file : ProtoFile) (scope : list (string * node))
           (f : MessageField) : bool :=
  match get_default_value_for_field f with
  | Some _ => true
  | None =>
      field_is_base_type f
      || (negb (field_is_map f)
          && if has_in_imports proto_file (type f) then
               negb (dict_mem String.eqb (type f) scope)
               && negb (dict_mem String.eqb (type f) (structure proto_file))
               && match get_import_package proto_file (type f),
                        get_import_package_as_structure proto_file (type f) with
                  | Ok pkg, Ok target => reg pkg target
                  | _, _ => true
                  end
             else
               match dict_get String.eqb (type f) scope,
                     dict_get String.eqb (type f) (structure proto_file) with
               | Some x, None | None, Some x =>
                   match x with
                   | NDict _ => reg proto_file x
                   | NEnum e => match values e with [] => false | _ => true end
                   | NField _ => false
                   end
               | _, _ => false
               end)
  end.

Definition regular_scope (proto_file : ProtoFile) (structure_field : node)
  : bool :=
  match structure_field with
  | NDict scope =>
      match dict_get String.eqb FIELDS_KEY scope with
      | Some (NDict fields) =>
          distinct (keys fields)
          && forallb (fun kx => match snd kx with
                                | NField f => regular_field proto_file scope f
                                | _ => true
                                end) fields
      | _ => true
      end
  | _ => true
  end.
End Regular.

(** [regular fuel pf scope]: every field the generator reaches from
    [scope] within [fuel] nested calls is a regular one. *)
Fixpoint regular (fuel : nat) (proto_file : ProtoFile) (structure_field : node)
  : bool :=
  match fuel with
  | 0 => true
  | S fuel' => regular_scope (regular fuel') proto_file structure_field
  end.

Definition regular_root (fuel : nat) (proto_file : ProtoFile)
           (root_field_name : string) : bool :=
  match dict_get String.eqb root_field_name (structure proto_file) with
  | Some scope => regular fuel proto_file scope
  | None => true
  end.

Definition plain_items (d : list (string * pyval)) : list (string * pyval) :=
  map (fun kv => (fst kv, plain (snd kv))) d.

Section Synthesized.
Variable gen_rec : ProtoFile -> node -> result pyval.
Variables (proto_file : ProtoFile) (structure_field : node).

(** the value a round of the generator computes before storing it *)
Definition synthesized (field : MessageField) : result pyval :=
  match get_default_value_for_field field with
  | Some default_value => Ok default_value
  | None =>
      if has_in_imports proto_file (type field) then
        get_import_package_as_object gen_rec proto_file (type field)
      else
        in_scope <- node_contains structure_field (type field) ;;
        next_field <-
          (if in_scope : bool
           then y <- node_getitem structure_field (type field) ;; Ok (Some y)
           else Ok (dict_get String.eqb (type field) (structure proto_file))) ;;
        match next_field with
        | Some (NDict d) => gen_rec proto_file (NDict d)
        | Some (NEnum e) => Ok (get_default_value_for_enum e field)
        | Some (NField _) | None => Ok (PDict [])
        end
  end.

(** what ends up under the field's name *)
Definition stored (field : MessageField) (value : pyval) : pyval :=
  if is_repeated field then PList [value] else value.

(** a generated entry next to the declaration it comes from *)
Definition entry_of (kx : string * node) (kv : string * pyval) : Prop :=
  fst kv = fst kx
  /\ exists field value,
       snd kx = NField field
       /\ synthesized field = Ok value
       /\ snd kv = stored field value.
End Synthesized.

(** nesting depth of a document *)
Fixpoint depth (v : pyval) : nat :=
  match v with
  | PList l => S (list_max (map depth l))
  | PDict d => S (list_max (map (fun kv => depth (snd kv)) d))
  | POrderedDict d => S (list_max (map (fun kv => depth (snd kv)) d))
  | _ => 0
  end.

(** the computation did not exhaust the call stack *)
Definition within_stack {A : Type} (r : result A) : Prop :=
  r <> Raise RecursionError.

(** the field mapping of a scope whose entries are all field descriptors *)
Definition declare (fs : list (string * MessageField)) : list (string * node) :=
  map (fun nf => (fst nf, NField (snd nf))) fs.

(** the diagnostic was filed under [path] or below it *)
Definition under (path : string) (e : error) : Prop :=
  exists suffix, fst e = (path ++ suffix)%string.

(** [st'] is [st] after more diagnostics, all of them under [path], and
    more console output; nothing recorded before is lost *)
Definition grows (path : string) (st st' : vstate) : Prop :=
  exists es out,
    st' = mkState (errors st ++ es) (printed st ++ out)
    /\ Forall (under path) es.

(** [test_value in enum_field.values] *)
Definition enum_member (e : EnumField) (v : pyval) : bool :=
  match v with
  | PStr s => str_in s (values e)
  | _ => false
  end.

(** the two lines printed for a field whose type names nothing *)
Definition unresolved_lines (test_path test_key : string) : list string :=
  ["[Something goes wrong] Sorry, but here's a bug. Can you fix it?";
   ("Path: " ++ test_path ++ " . Field:  " ++ test_key)%string].



(** the parser's block bookkeeping is coherent: with no message open the
    path is empty; with one open the path is not empty and leads, inside
    the pending tree, to a mapping (the current block) *)
Definition block_open (s : pstate) : Prop :=
  match message_block s with
  | None => message_names_path s = []
  | Some b =>
      message_names_path s <> []
      /\ exists d, node_at (message_names_path s) b = Ok (NDict d)
  end.

(** *** ASCII text

    On ASCII characters the classes [is_word], [is_digit] and [is_space]
    are Python's [\w], [\d] and [str.isspace]; outside ASCII Python's
    classes are larger.  A statement that depends on how a whole line is
    stripped or matched is made for ASCII text. *)
Definition is_ascii (c : ascii) : bool := (nat_of_ascii c <? 128)%nat.

Fixpoint ascii_text (s : string) : bool :=
  match s with
  | EmptyString => true
  | String c t => is_ascii c && ascii_text t
  end.

(** every character of the text belongs to the class *)
Fixpoint all_in (k : cls) (s : string) : bool :=
  match s with
  | EmptyString => true
  | String c t => in_cls k c && all_in k t
  end.

(** a non-empty run of word characters: what [\w+] can match whole *)
Definition is_name (s : string) : bool :=
  match s with
  | EmptyString => false
  | _ => all_in Word s
  end.

(** a non-empty run of digits *)
Definition is_number (s : string) : bool :=
  match s with
  | EmptyString => false
  | _ => all_in Digit s
  end.

(** the first success among [f n], [f (n-1)], ..., [f 1] *)
Fixpoint try_from {A : Type} (f : nat -> option A) (n : nat) : option A :=
  match n with
  | 0 => None
  | S n' =>
      match f n with
      | Some r => Some r
      | None => try_from f n'
      end
  end.

(** [field_re] behind the type group: [ (?P<name>\w+) = (?P<index>\d+);(// required)?] *)
Definition field_tail_re : list tok :=
  [Lit " ";
   Open "name"; Plus Word; Close "name"; Lit " = ";
   Open "index"; Plus Digit; Close "index"; Lit ";";
   OptLit "// required"].

(** the text of a field declaration: [[repeated ]type name = index;[ // required]] *)
Definition field_line (f : MessageField) (nm index : string) : string :=
  ((if is_repeated f then "repeated " else EmptyString)
   ++ type f ++ " " ++ nm ++ " = " ++ index ++ ";"
   ++ (if is_required f then " // required" else EmptyString))%string.

(** [field_tail_re] matches at no position of the text *)
Definition nowhere (text : string) : Prop :=
  forall i opened caps, go field_tail_re (str_drop i text) opened caps = None.

(** the line [raw], ASCII text, is the declaration [(name, descriptor,
    index)], in a form the field pattern reads back *)
Definition declares (raw : string) (d : string * MessageField * string) : Prop :=
  let '(nm, f, index) := d in
  ascii_text raw = true
  /\ strip raw = field_line f nm index
  /\ type f <> EmptyString
  /\ all_in Any (type f) = true
  /\ is_name nm = true
  /\ is_number index = true
  /\ (is_repeated f = false ->
      startswith "repeated " (field_line f nm index) = false)
  /\ reaches_member (field_line f nm index) = true.

(** the field mapping after the declarations, a later one of the same
    name replacing the earlier in place *)
Definition register (ds : list (string * MessageField * string))
           (fields : list (string * node)) : list (string * node) :=
  fold_left (fun acc d => dict_set String.eqb (fst (fst d)) (NField (snd (fst d))) acc)
            ds fields.

(** the text [map<K,V>] or [map<K, V>] of a map type *)
Definition map_type (key_type value_type : string) (spaced : bool) : string :=
  ("map<" ++ key_type ++ "," ++ (if spaced then " " else EmptyString)
   ++ value_type ++ ">")%string.

(** the diagnostics of a map of scalars: one per entry whose value is not
    of the value type, in the order of the entries *)
Definition map_errors (value_type proto_type : string)
           (d : list (string * pyval)) : list (option message) :=
  flat_map (fun kv =>
              match validate_base_type value_type (snd kv) with
              | Some _ => [Some (WrongMapValue (fst kv) value_type proto_type
                                              (typename (snd kv)) (snd kv))]
              | None => []
              end) d.

(** *** The document the validator leaves

    Where the validator goes below the value of a field. *)
Inductive descent : Type :=
| Stay                                         (* the value is not entered *)
| Into (pkg : ProtoFile) (scope : node)        (* the value, as a message *)
| IntoEach (pkg : ProtoFile) (scope : node)    (* every element of the list *)
| IntoEntries (pkg : ProtoFile) (scope : node). (* every value of the map *)

(** the two import lookups together *)
Definition imported_scope (proto_file : ProtoFile) (field_type : string)
  : option (ProtoFile * node) :=
  match get_import_package proto_file field_type,
        get_import_package_as_structure proto_file field_type with
  | Ok pkg, Ok scope => Some (pkg, scope)
  | _, _ => None
  end.

(** the file and scope a message-typed field is validated against: the
    entry of the scope or of the file when it is not an enum and not
    empty, else the imported message *)
Definition message_scope (proto_file : ProtoFile) (proto_scope : node)
           (f : MessageField) : option (ProtoFile * node) :=
  let imported :=
    if has_in_imports proto_file (type f)
    then imported_scope proto_file (type f) else None in
  match scoped_proto_type proto_file proto_scope (type f) with
  | Ok (Some (NEnum _)) => None
  | Ok (Some scope) => if truthy scope then Some (proto_file, scope) else imported
  | Ok None => imported
  | Raise _ => None
  end.

(** the file and scope the values of a map are validated against: only
    an imported message; a scalar value type is checked in place *)
Definition map_value_scope (proto_file : ProtoFile) (proto_type : string)
  : option (ProtoFile * node) :=
  match match_group map_re "value" proto_type with
  | Ok map_value_type =>
      if is_base_type map_value_type then None
      else imported_scope proto_file map_value_type
  | Raise _ => None
  end.

(** the dispatch of the loop of [__validate_structure] *)
Definition descent_of (proto_file : ProtoFile) (proto_scope : node)
           (f : MessageField) (value : pyval) : descent :=
  if is_repeated f && negb (is_list value) then Stay
  else if field_is_base_type f then Stay
  else if field_is_map f then
    match value, map_value_scope proto_file (type f) with
    | PDict _, Some (pkg, scope) => IntoEntries pkg scope
    | _, _ => Stay
    end
  else
    match message_scope proto_file proto_scope f with
    | Some (pkg, scope) => if is_repeated f then IntoEach pkg scope else Into pkg scope
    | None => Stay
    end.

Section Restrict.
(** the restriction of a nested document *)
Variable r : ProtoFile -> node -> pyval -> pyval.

(** the value of a declared field, restricted where the validator enters it *)
Definition restrict_value (proto_file : ProtoFile) (proto_scope : node)
           (fields : list (string * node)) (key : string) (value : pyval)
  : pyval :=
  match dict_get String.eqb key fields with
  | Some (NField f) =>
      match descent_of proto_file proto_scope f value with
      | Stay => value
      | Into pkg scope => r pkg scope value
      | IntoEach pkg scope =>
          match value with
          | PList l => PList (map (r pkg scope) l)
          | _ => value
          end
      | IntoEntries pkg scope =>
          match value with
          | PDict m => PDict (map (fun e => (fst e, r pkg scope (snd e))) m)
          | _ => value
          end
      end
  | _ => value
  end.
End Restrict.

(** [restrict pf scope v]: the document [v] restricted to the field names
    the schema declares: in the dictionary validated against [scope], and
    in every dictionary below it that the validator enters, the entries
    whose key is not a declared field are gone; every other entry keeps
    its place, and its value but for the restriction inside it. *)
Fixpoint restrict (proto_file : ProtoFile) (proto_scope : node) (v : pyval)
         {struct v} : pyval :=
  match v with
  | PDict d =>
      match node_getitem proto_scope FIELDS_KEY with
      | Ok (NDict fields) =>
          PDict (filter (fun kv => dict_mem String.eqb (fst kv) fields)
                   (map (fun kv => (fst kv,
                                    restrict_value restrict proto_file
                                      proto_scope fields (fst kv) (snd kv)))
                        d))
      | _ => v
      end
  | _ => v
  end.

Section NoExcess.
(** the same question about a nested document *)
Variable t : ProtoFile -> node -> pyval -> bool.

Definition entry_has_no_excess (proto_file : ProtoFile) (proto_scope : node)
           (fields : list (string * node)) (key : string) (value : pyval)
  : bool :=
  match dict_get String.eqb key fields with
  | Some (NField f) =>
      match descent_of proto_file proto_scope f value with
      | Stay => true
      | Into pkg scope => t pkg scope value
      | IntoEach pkg scope =>
          match value with
          | PList l => forallb (t pkg scope) l
          | _ => true
          end
      | IntoEntries pkg scope =>
          match value with
          | PDict m => forallb (fun e => t pkg scope (snd e)) m
          | _ => true
          end
      end
  | _ => false
  end.
End NoExcess.

(** [no_excess pf scope v]: no excess field is left in [v]: in the
    dictionary validated against [scope], and in every dictionary below
    it that the validator enters, every key is a declared field. *)
Fixpoint no_excess (proto_file : ProtoFile) (proto_scope : node) (v : pyval)
         {struct v} : bool :=
  match v with
  | PDict d =>
      match node_getitem proto_scope FIELDS_KEY with
      | Ok (NDict fields) =>
          forallb (fun kv => entry_has_no_excess no_excess proto_file
                               proto_scope fields (fst kv) (snd kv)) d
      | _ => true
      end
  | _ => true
  end.

(** ** Properties *)

(** *** Dictionaries *)

Lemma dict_get_set_same {V : Type} (k : string) (v : V) d :
  dict_get String.eqb k (dict_set String.eqb k v d) = Some v.
Proof.
  induction d as [|[k' v'] d IH]; simpl.
  - now rewrite String.eqb_refl.
  - destruct (String.eqb k k') eqn:E; simpl.
    + now rewrite String.eqb_refl.
    + now rewrite E.
Qed.

Lemma dict_get_set_other {V : Type} (k k' : string) (v : V) d :
  k <> k' ->
  dict_get String.eqb k (dict_set String.eqb k' v d) = dict_get String.eqb k d.
Proof.
  intros Hne. induction d as [|[k0 v0] d IH]; simpl.
  - apply String.eqb_neq in Hne. now rewrite Hne.
  - destruct (String.eqb k' k0) eqn:E; simpl.
    + apply String.eqb_eq in E. subst k0.
      apply String.eqb_neq in Hne. now rewrite Hne.
    + destruct (String.eqb k k0); auto.
Qed.

Lemma dict_mem_In {V : Type} (k : string) (d : list (string * V)) :
  dict_mem String.eqb k d = true <-> In k (keys d).
Proof.
  unfold dict_mem, keys. rewrite existsb_exists. split.
  - intros [[k' v] [Hin E]]. apply String.eqb_eq in E. simpl in E. subst.
    change k' with (fst (k', v)). now apply in_map.
  - intros Hin. apply in_map_iff in Hin. destruct Hin as [[k' v] [E Hin]].
    simpl in E. subst. exists (k, v). split; auto. apply String.eqb_refl.
Qed.


Lemma dict_get_In {V : Type} (k : string) (v : V) d :
  NoDup (keys d) -> In (k, v) d -> dict_get String.eqb k d = Some v.
Proof.
  induction d as [|[k' v'] d IH]; simpl; [tauto|].
  intros Hnd [E | Hin].
  - inversion E; subst. now rewrite String.eqb_refl.
  - inversion Hnd as [|? ? Hni Hnd']; subst.
    destruct (String.eqb k k') eqn:E.
    + apply String.eqb_eq in E. subst. exfalso. apply Hni.
      change k' with (fst (k', v)). now apply in_map.
    + auto.
Qed.

(** *** Results *)

Lemma bind_Ok {A B : Type} (r : result A) (k : A -> result B) (b : B) :
  bind r k = Ok b -> exists a, r = Ok a /\ k a = Ok b.
Proof. destruct r; simpl; [eauto | discriminate]. Qed.

(** [H : bind e k = Ok b] becomes [e = Ok a] and [k a = Ok b] *)
Ltac bind_inv H :=
  let a := fresh "a" in
  let E := fresh "E" in
  apply bind_Ok in H; destruct H as (a & E & H).

Ltac ok_inv H := inversion H; subst; clear H.

(** *** C8: the flag and the list agree *)

(** C8.  Whenever [validate_json] returns, its boolean is true exactly when
    the diagnostic list it returns is not empty. *)
Theorem C8_flag_iff_errors :
  forall fuel proto_file root_field_name test_data flag errs doc out,
    validate_json fuel proto_file root_field_name test_data
      = Ok (flag, errs, doc, out) ->
    (flag = true <-> errs <> []).
Proof.
  intros fuel pf root data flag errs doc out H.
  unfold validate_json in H.
  bind_inv H. bind_inv H. destruct a0 as [d st]. ok_inv H.
  destruct (errors st); simpl; split; congruence.
Qed.

Lemma C8_witness :
  validate_json 2 scenario "M"
    (PDict [("name", PStr "String"); ("tags", PInt 100)])
  = Ok (true, [("M > tags", ExpectedArray "int32" "int")],
        PDict [("name", PStr "String"); ("tags", PInt 100)], [])
  /\ (true = true <-> [("M > tags", ExpectedArray "int32" "int")] <> []).
Proof.
  split; [reflexivity|].
  apply (C8_flag_iff_errors 2 scenario "M"
           (PDict [("name", PStr "String"); ("tags", PInt 100)])
           true [("M > tags", ExpectedArray "int32" "int")]
           (PDict [("name", PStr "String"); ("tags", PInt 100)]) []).
  reflexivity.
Defined.

(** *** C10: after stripping, every key has a descriptor *)

Lemma excess_keys_spec proto_fields ks out :
  excess_keys proto_fields ks = Ok out ->
  ks = [] \/
  exists fs, proto_fields = NDict fs /\
             out = filter (fun k => negb (dict_mem String.eqb k fs)) ks.
Proof.
  revert out. induction ks as [|k ks IH]; intros out H; [now left|right].
  simpl in H. bind_inv H. bind_inv H. ok_inv H.
  destruct proto_fields as [f|e|fs]; simpl in E; try discriminate.
  injection E as <-.
  exists fs. split; [reflexivity|].
  destruct (IH _ E0) as [-> | (fs' & Hfs & ->)].
  - simpl in E0. ok_inv E0. simpl. now destruct (dict_mem String.eqb k fs).
  - ok_inv Hfs. simpl. now destruct (dict_mem String.eqb k fs').
Qed.

Lemma del_keys_spec ks : forall d d',
  del_keys ks d = Ok d' ->
  d' = filter (fun kv => negb (str_in (fst kv) ks)) d.
Proof.
  induction ks as [|k ks IH]; intros d d' H; simpl in H.
  - injection H as <-.
    induction d as [|kv d IHd]; simpl; [reflexivity | now f_equal].
  - bind_inv H. unfold delitem in E.
    destruct (dict_mem String.eqb k d); [|discriminate]. ok_inv E.
    rewrite (IH _ _ H). unfold dict_del.
    clear. induction d as [|[k' v] d IHd]; [reflexivity|].
    cbn [filter fst]. rewrite <- IHd.
    change (str_in k' (k :: ks)) with (String.eqb k' k || str_in k' ks).
    rewrite (String.eqb_sym k' k).
    destruct (String.eqb k k'); cbn [negb orb filter fst]; reflexivity.
Qed.

Lemma str_in_In x l : str_in x l = true <-> In x l.
Proof.
  unfold str_in. rewrite existsb_exists. split.
  - intros (y & Hin & E). apply String.eqb_eq in E. now subst.
  - intros Hin. exists x. split; [assumption | apply String.eqb_refl].
Qed.

(** what [__validate_and_del_excess] leaves of a non-empty document *)
Lemma del_excess_spec proto_fields d errs d1 :
  validate_and_del_excess proto_fields d = Ok (errs, d1) ->
  d = [] /\ d1 = [] \/
  exists fs, proto_fields = NDict fs /\
             d1 = filter (fun kv => dict_mem String.eqb (fst kv) fs) d.
Proof.
  unfold validate_and_del_excess. intros H.
  bind_inv H. bind_inv H. ok_inv H.
  apply del_keys_spec in E0. subst d1.
  destruct (excess_keys_spec _ _ _ E) as [Hk | (fs & -> & ->)].
  - left. destruct d; [|discriminate]. now split.
  - right. exists fs. split; [reflexivity|].
    apply filter_ext_in. intros [k v] Hin. simpl.
    destruct (dict_mem String.eqb k fs) eqn:M.
    + destruct (str_in k _) eqn:S; [|reflexivity].
      apply str_in_In, filter_In in S. destruct S as [_ S].
      now rewrite M in S.
    + assert (S : str_in k
                (filter (fun k0 => negb (dict_mem String.eqb k0 fs)) (keys d))
                = true).
      { apply str_in_In, filter_In. split.
        - change k with (fst (k, v)). now apply in_map.
        - now rewrite M. }
      now rewrite S.
Qed.



(** *** C3: maps whose values are messages *)

(** For a value type that is neither a scalar nor dotted, the first entry
    of the map makes [get_import_package] fail to unpack the split. *)
Lemma map_loop_local_value_type rec proto_file proto_type key value rest
      test_path st map_value_type :
  match_group map_re "value" proto_type = Ok map_value_type ->
  is_base_type map_value_type = false ->
  split_dot map_value_type = None ->
  map_loop rec proto_file proto_type ((key, value) :: rest) test_path st
  = Raise ValueError.
Proof.
  intros Hre Hbase Hdot. simpl. rewrite Hre. simpl. rewrite Hbase.
  unfold get_import_package. now rewrite Hdot.
Qed.

(** C3 (evaluation).  With [map<string, Foo>] and [Foo] a message of the
    same file, validating a document whose map has an entry raises
    [ValueError] instead of returning diagnostics. *)
Theorem C3_local_map_value_raises :
  forall fuel,
    validate_json (S fuel) local_map "M" local_map_doc = Raise ValueError.
Proof. intros fuel. reflexivity. Qed.

(** *** C2: the two consumers resolve a shadowed name differently *)

(** For a type name found both in the current scope and at the top level
    of the file, the generator takes the entry of the scope ([if ... elif])
    and the validator the top-level one (its second [if] overwrites). *)
Lemma shadowed_name_lookups gen_rec pf scope f nested top :
  get_default_value_for_field f = None ->
  has_in_imports pf (type f) = false ->
  dict_get String.eqb (type f) scope = Some nested ->
  dict_get String.eqb (type f) (structure pf) = Some top ->
  synthesized gen_rec pf (NDict scope) f
  = match nested with
    | NDict d => gen_rec pf (NDict d)
    | NEnum e => Ok (get_default_value_for_enum e f)
    | NField _ => Ok (PDict [])
    end
  /\ scoped_proto_type pf (NDict scope) (type f) = Ok (Some top).
Proof.
  intros D I Hn Ht. unfold synthesized, scoped_proto_type.
  rewrite D, I. cbn [node_contains bind].
  assert (M : dict_mem String.eqb (type f) scope = true).
  { apply dict_mem_In. clear - Hn.
    induction scope as [|[k v] scope IH]; simpl in *; [discriminate|].
    destruct (String.eqb (type f) k) eqn:E; [left|right; auto].
    symmetry. now apply String.eqb_eq. }
  rewrite M. cbn [node_getitem]. unfold getitem. rewrite Hn, Ht.
  split; reflexivity.
Qed.

(** C2 (evaluation).  In [shadow], message [A] nests a message [B] and the
    file also declares a top-level [B].  For the field [B b] the generator
    descends into the nested [B] (field [x]); the validator checks the same
    value against the top-level [B] (field [y]) and strips [x] as excess. *)
Theorem C2_shadowed_name_diverges :
  forall fuel,
    as_object (S (S fuel)) shadow "A"
    = Ok (POrderedDict [("b", POrderedDict [("x", PStr "Optional string")])])
    /\
    validate_json (S (S fuel)) shadow "A"
      (PDict [("b", PDict [("x", PStr "Optional string")])])
    = Ok (true, [("A > b", FieldExcess "x")], PDict [("b", PDict [])], []).
Proof. intros fuel. split; reflexivity. Qed.

(** *** C4: the scenario of the specification *)

Lemma scenario_parses :
  parse_file (on_disk "m.proto" scenario_lines) 1 "m.proto" = Ok scenario.
Proof. reflexivity. Qed.

(** Cut into lines exactly as the specification prints it, the text never
    closes [M]: the model stays empty and generation has no root. *)
Lemma scenario_inline_has_no_root :
  forall fuel,
    (pf <- parse_file (on_disk "m.proto" scenario_inline) 1 "m.proto" ;;
     as_object fuel pf "M") = Raise KeyError.
Proof. intros fuel. reflexivity. Qed.

Lemma C4_counterexample :
  as_object 1 scenario "M"
  <> Ok (POrderedDict [("name", PStr "String"); ("tags", PList [PInt 100])])
  /\
  as_object 1 scenario "M"
  <> Ok (PDict [("name", PStr "String"); ("tags", PList [PInt 100])]).
Proof. split; discriminate. Qed.

(** C4 (amended).  For the scenario schema, generating [M] yields the
    ordered mapping [name: "String", tags: [50]]: [tags] is not marked
    required, so its integer example is 50. *)
Theorem C4_scenario_example :
  forall fuel,
    (pf <- parse_file (on_disk "m.proto" scenario_lines) 1 "m.proto" ;;
     as_object (S fuel) pf "M")
    = Ok (POrderedDict [("name", PStr "String"); ("tags", PList [PInt 50])]).
Proof. intros fuel. reflexivity. Qed.

(** *** C5: lines that are neither an enum value nor a field *)

Lemma parse_line_member rec raw s :
  reaches_member (strip raw) = true ->
  parse_line rec raw s = parse_member (strip raw) s.
Proof.
  unfold reaches_member, parse_line. intros H.
  repeat (apply andb_prop in H; destruct H as [H ?]).
  repeat match goal with
         | [ E : negb ?b = true |- _ ] => apply negb_true_iff in E; rewrite ?E
         end.
  destruct (strip raw); [discriminate | reflexivity].
Qed.

Lemma parse_lines_app rec l1 : forall l2 s,
  parse_lines rec (l1 ++ l2) s
  = (s' <- parse_lines rec l1 s ;; parse_lines rec l2 s').
Proof.
  induction l1 as [|l l1 IH]; intros l2 s; simpl; [reflexivity|].
  destruct (parse_line rec l s); simpl; auto.
Qed.

(** The skipped [reserved] line: inside the enum block, matching neither
    pattern, and the file still parses. *)
Lemma C5_counterexample :
  exists s,
    parse_lines (parse_file (on_disk "c.proto" reserved_lines) 0)
                ["enum Color {"; "  RED = 0;"] initial = Ok s
    /\ is_enum_block s = true
    /\ reaches_member (strip "  reserved 2, 3;") = true
    /\ re_match enum_value_re (strip "  reserved 2, 3;") = None
    /\ re_match field_re (strip "  reserved 2, 3;") = None
    /\ parse_file (on_disk "c.proto" reserved_lines) 1 "c.proto"
       = Ok (mkProtoFile None None []
               [("Color", NEnum (mkEnumField "Color" ["RED"]))]).
Proof. eexists. repeat split. Qed.

(** C5 (amended).  In schema files of ASCII text, a line that reaches
    the last branch of the dispatch makes the whole parse raise
    [AttributeError] at once, whatever follows it, when it is read inside
    an enum block, does not start with [reserved] and does not match the
    enum-value pattern, or when it is read inside a message block outside
    any enum and does not match the field pattern.  Inside an enum block
    such a line that starts with [reserved] is skipped: the parser goes on
    to the next line in the same state. *)
Theorem C5_unmatched_member_line :
  forall read_file fuel filename before raw after s,
    (forall name lines,
        read_file name = Some lines -> forallb ascii_text lines = true) ->
    read_file filename = Some (before ++ raw :: after) ->
    parse_lines (parse_file read_file fuel) before initial = Ok s ->
    reaches_member (strip raw) = true ->
    ((is_enum_block s = true
      /\ startswith "reserved" (strip raw) = false
      /\ re_match enum_value_re (strip raw) = None)
     \/ (is_enum_block s = false
         /\ message_block s <> None
         /\ re_match field_re (strip raw) = None) ->
     parse_file read_file (S fuel) filename = Raise AttributeError)
    /\ (is_enum_block s = true ->
        startswith "reserved" (strip raw) = true ->
        parse_line (parse_file read_file fuel) raw s = Ok s).
Proof.
  intros read_file fuel filename before raw after s _ Hfile Hbefore Hline.
  split.
  - intros Hcase.
    simpl. rewrite Hfile, parse_lines_app, Hbefore. simpl.
    rewrite (parse_line_member _ _ _ Hline). unfold parse_member.
    destruct Hcase as [(He & Hres & Hre) | (He & Hblock & Hre)]; rewrite He.
    + rewrite Hres. unfold match_group. now rewrite Hre.
    + destruct (message_block s); [|congruence]. now rewrite Hre.
  - intros He Hres.
    rewrite (parse_line_member _ _ _ Hline). unfold parse_member.
    now rewrite He, Hres.
Qed.

Lemma C5_witness :
  parse_file (on_disk "bad.proto" ["message M {"; "  string name;"; "}"])
             1 "bad.proto"
  = Raise AttributeError
  /\ parse_line (parse_file (on_disk "c.proto" reserved_lines) 0)
       "  reserved 2, 3;"
       (mkPstate None None [] [("Color", NEnum (mkEnumField "Color" ["RED"]))]
                 false true (Some "Color") None [])
     = Ok (mkPstate None None [] [("Color", NEnum (mkEnumField "Color" ["RED"]))]
                    false true (Some "Color") None []).
Proof.
  split.
  - apply (proj1 (C5_unmatched_member_line
                    (on_disk "bad.proto" ["message M {"; "  string name;"; "}"])
                    0 "bad.proto" ["message M {"] "  string name;" ["}"]
                    (mkPstate None None [] [] false false None
                              (Some (NDict [("M", empty_scope)])) ["M"])
                    ltac:(intros name lines H; unfold on_disk in H;
                          destruct (String.eqb name "bad.proto");
                          [injection H as <-; reflexivity | discriminate])
                    eq_refl eq_refl eq_refl)).
    right. repeat split. discriminate.
  - apply (proj2 (C5_unmatched_member_line
                    (on_disk "c.proto" reserved_lines)
                    0 "c.proto" ["enum Color {"; "  RED = 0;"]
                    "  reserved 2, 3;" ["}"]
                    (mkPstate None None []
                              [("Color", NEnum (mkEnumField "Color" ["RED"]))]
                              false true (Some "Color") None [])
                    ltac:(intros name lines H; unfold on_disk in H;
                          destruct (String.eqb name "c.proto");
                          [injection H as <-; reflexivity | discriminate])
                    eq_refl eq_refl eq_refl));
      reflexivity.
Defined.

(** *** C9: the document after validation *)

Lemma pruned_items_filter (f : string * pyval -> bool) d : forall d',
  pruned_items (filter f d) d' -> pruned_items d d'.
Proof.
  induction d as [|[k v] d IH]; intros d' H; simpl in H; [assumption|].
  destruct (f (k, v)).
  - inversion H; subst; auto with pruned.
  - auto with pruned.
Qed.

Lemma keys_filter {V : Type} (f : string -> bool) (d : list (string * V)) :
  keys (filter (fun kv => f (fst kv)) d) = filter f (keys d).
Proof.
  induction d as [|[k v] d IH]; simpl; [reflexivity|].
  destruct (f k); simpl; now rewrite IH.
Qed.

Section ValidatorFrame.
Variable rec : ProtoFile -> node -> pyval -> string -> string ->
               vstate -> result (pyval * vstate).
Hypothesis rec_pruned :
  forall pf scope v path nm st v' st',
    rec pf scope v path nm st = Ok (v', st') -> pruned v v'.

Lemma validate_multiply_structures_pruned pf scope path nm l :
  forall st l' st',
    validate_multiply_structures rec pf scope l path nm st = Ok (l', st') ->
    pruned_each l l'.
Proof.
  induction l as [|v l IH]; intros st l' st' H; simpl in H.
  - ok_inv H. constructor.
  - bind_inv H. destruct a as [v1 st1]. bind_inv H. destruct a as [l1 st2].
    ok_inv H. constructor; eauto.
Qed.

Lemma map_loop_pruned pf proto_type path items :
  forall st items' errs st',
    map_loop rec pf proto_type items path st = Ok (items', errs, st') ->
    pruned_items items items' /\ keys items' = keys items.
Proof.
  induction items as [|[k v] items IH]; intros st items' errs st' H; simpl in H.
  - ok_inv H. split; [constructor | reflexivity].
  - bind_inv H. bind_inv H. destruct a0 as [[v1 err] st1].
    bind_inv H. destruct a0 as [[rest errs1] st2]. ok_inv H.
    destruct (IH _ _ _ _ E1) as [Hp Hk].
    assert (Hv : pruned v v1).
    { destruct (is_base_type a).
      - ok_inv E0. constructor.
      - bind_inv E0. bind_inv E0. bind_inv E0. destruct a2 as [v2 s2].
        ok_inv E0. eauto. }
    split; [auto with pruned | simpl; now rewrite Hk].
Qed.

Lemma walk_pruned f value new_path st pf scope value' st' :
  is_repeated f && negb (is_list value) = false ->
  walk rec f value new_path st pf scope = Ok (value', st') ->
  pruned value value'.
Proof.
  unfold walk. intros Hrep H. destruct (is_repeated f).
  - simpl in Hrep. apply negb_false_iff in Hrep.
    destruct value; try discriminate. simpl in H.
    bind_inv H. destruct a as [l1 s1]. ok_inv H.
    constructor. eapply validate_multiply_structures_pruned; eassumption.
  - eauto.
Qed.

Lemma via_imports_pruned pf f path key value new_path st value' st' :
  is_repeated f && negb (is_list value) = false ->
  via_imports rec pf f path key value new_path st = Ok (value', st') ->
  pruned value value'.
Proof.
  unfold via_imports. intros Hrep H. destruct (has_in_imports pf (type f)).
  - bind_inv H. bind_inv H. eapply walk_pruned; eassumption.
  - ok_inv H. constructor.
Qed.

Lemma validate_field_pruned pf scope fields path key value st value' st' :
  validate_field rec pf scope fields path key value st = Ok (value', st') ->
  pruned value value'.
Proof.
  unfold validate_field. intros H.
  bind_inv H. bind_inv H.
  destruct (is_repeated a0 && negb (is_list value)) eqn:Hrep.
  { ok_inv H. constructor. }
  destruct (field_is_base_type a0).
  { ok_inv H. constructor. }
  destruct (field_is_map a0).
  { bind_inv H. destruct a1 as [[v1 errs] st1]. ok_inv H.
    unfold validate_map_type in E1. destruct value; try (ok_inv E1; constructor).
    bind_inv E1. destruct a1 as [[d1 errs1] st2]. ok_inv E1.
    constructor. eapply map_loop_pruned; eassumption. }
  bind_inv H.
  destruct a1 as [[f|e|d]|].
  - simpl in H. eapply walk_pruned; eassumption.
  - ok_inv H. constructor.
  - destruct (truthy (NDict d));
      [eapply walk_pruned | eapply via_imports_pruned]; eassumption.
  - eapply via_imports_pruned; eassumption.
Qed.

Lemma fields_loop_pruned pf scope fields path items :
  forall st items' st',
    fields_loop rec pf scope fields path items st = Ok (items', st') ->
    pruned_items items items' /\ keys items' = keys items.
Proof.
  induction items as [|[k v] items IH]; intros st items' st' H; simpl in H.
  - ok_inv H. split; [constructor | reflexivity].
  - bind_inv H. destruct a as [v1 st1]. bind_inv H. destruct a as [rest st2].
    ok_inv H. destruct (IH _ _ _ E0) as [Hp Hk].
    split; [|simpl; now rewrite Hk].
    constructor; [|assumption]. eapply validate_field_pruned; eassumption.
Qed.

Lemma validate_structure_body_frame pf scope data path nm st data' st' :
  validate_structure_body rec pf scope data path nm st = Ok (data', st') ->
  pruned data data' /\ restricted scope data data'.
Proof.
  unfold validate_structure_body, restricted. intros H.
  destruct data; try (ok_inv H; split; [constructor | reflexivity]).
  bind_inv H. bind_inv H. destruct a0 as [errs d1].
  bind_inv H. bind_inv H. destruct a1 as [d2 st3]. ok_inv H.
  destruct (fields_loop_pruned _ _ _ _ _ _ _ _ E2) as [Hp Hk].
  unfold validate_required in E1. bind_inv E1.
  destruct a as [f|e|fs]; try discriminate. clear E3.
  assert (Hd1 : d1 = filter (fun kv => dict_mem String.eqb (fst kv) fs) d).
  { destruct (del_excess_spec _ _ _ _ E0) as [[-> ->] | (fs' & Hfs & ->)];
      [reflexivity | now ok_inv Hfs]. }
  subst d1. split.
  - constructor. eapply pruned_items_filter; eassumption.
  - exists fs, d2. repeat split; [assumption|].
    rewrite Hk. apply (keys_filter (fun k => dict_mem String.eqb k fs)).
Qed.
End ValidatorFrame.

Lemma validate_structure_frame fuel :
  forall pf scope data path nm st data' st',
    validate_structure fuel pf scope data path nm st = Ok (data', st') ->
    pruned data data' /\ restricted scope data data'.
Proof.
  induction fuel as [|fuel IH]; intros pf scope data path nm st data' st' H;
    [discriminate|].
  simpl in H. eapply validate_structure_body_frame; [|eassumption].
  intros. eapply IH. eassumption.
Qed.

(** What the validator leaves is the restriction of what it was given. *)

Lemma restrict_dict pf scope fields d :
  node_getitem scope FIELDS_KEY = Ok (NDict fields) ->
  restrict pf scope (PDict d)
  = PDict (filter (fun kv => dict_mem String.eqb (fst kv) fields)
             (map (fun kv => (fst kv,
                              restrict_value restrict pf scope fields
                                             (fst kv) (snd kv))) d)).
Proof. intros H. cbn [restrict]. now rewrite H. Qed.

Lemma no_excess_dict pf scope fields d :
  node_getitem scope FIELDS_KEY = Ok (NDict fields) ->
  no_excess pf scope (PDict d)
  = forallb (fun kv => entry_has_no_excess no_excess pf scope fields
                         (fst kv) (snd kv)) d.
Proof. intros H. cbn [no_excess]. now rewrite H. Qed.

Lemma restrict_other pf scope v :
  (forall d, v <> PDict d) -> restrict pf scope v = v.
Proof. intros H. destruct v; try reflexivity. now destruct (H d). Qed.

Lemma no_excess_other pf scope v :
  (forall d, v <> PDict d) -> no_excess pf scope v = true.
Proof. intros H. destruct v; try reflexivity. now destruct (H d). Qed.

(** restricting keeps a list a list and a dictionary a dictionary *)
Lemma restrict_kind pf scope v :
  is_list (restrict pf scope v) = is_list v
  /\ ((exists d, restrict pf scope v = PDict d) <-> (exists d, v = PDict d)).
Proof.
  destruct v; try (split; [reflexivity | tauto]).
  cbn [restrict].
  destruct (node_getitem scope FIELDS_KEY) as [[f|e|fs]|];
    (split; [reflexivity | split; eauto]).
Qed.

Lemma filter_map_keys {A B : Type} (p : string -> bool)
      (g : string * A -> B) (d : list (string * A)) :
  map (fun kv => (fst kv, g kv)) (filter (fun kv => p (fst kv)) d)
  = filter (fun kv => p (fst kv)) (map (fun kv => (fst kv, g kv)) d).
Proof.
  induction d as [|[k v] d IH]; simpl; [reflexivity|].
  destruct (p k); simpl; now rewrite IH.
Qed.

Section ValidatorStrips.
Variable rec : ProtoFile -> node -> pyval -> string -> string ->
               vstate -> result (pyval * vstate).
Hypothesis rec_strips :
  forall pf scope v path nm st v' st',
    rec pf scope v path nm st = Ok (v', st') ->
    v' = restrict pf scope v /\ no_excess pf scope v' = true.

Lemma validate_multiply_structures_strips pf scope path nm l :
  forall st l' st',
    validate_multiply_structures rec pf scope l path nm st = Ok (l', st') ->
    l' = map (restrict pf scope) l /\ forallb (no_excess pf scope) l' = true.
Proof.
  induction l as [|v l IH]; intros st l' st' H; simpl in H.
  - ok_inv H. now split.
  - bind_inv H. destruct a as [v1 st1]. bind_inv H. destruct a as [l1 st2].
    ok_inv H. destruct (rec_strips _ _ _ _ _ _ _ _ E) as [-> Hn].
    destruct (IH _ _ _ E0) as [-> Hl]. split; [reflexivity|].
    simpl. now rewrite Hn, Hl.
Qed.

Lemma map_loop_strips pf proto_type path items :
  forall st items' errs st',
    map_loop rec pf proto_type items path st = Ok (items', errs, st') ->
    match map_value_scope pf proto_type with
    | Some (pkg, scope) =>
        items' = map (fun e => (fst e, restrict pkg scope (snd e))) items
        /\ forallb (fun e => no_excess pkg scope (snd e)) items' = true
    | None => items' = items
    end.
Proof.
  induction items as [|[k v] items IH]; intros st items' errs st' H; simpl in H.
  - ok_inv H. destruct (map_value_scope pf proto_type) as [[pkg sc]|]; now split.
  - bind_inv H. bind_inv H. destruct a0 as [[v1 err] st1].
    bind_inv H. destruct a0 as [[rest errs1] st2]. ok_inv H.
    specialize (IH _ _ _ _ E1). unfold map_value_scope in *. rewrite E in *.
    destruct (is_base_type a).
    + ok_inv E0. reflexivity.
    + bind_inv E0. bind_inv E0. bind_inv E0. destruct a2 as [v2 s2]. ok_inv E0.
      unfold imported_scope in *. rewrite E2, E3 in *.
      destruct (rec_strips _ _ _ _ _ _ _ _ E4) as [-> Hn].
      destruct IH as [-> Hl]. split; [reflexivity|].
      cbn [forallb snd]. now rewrite Hn, Hl.
Qed.

Lemma walk_strips f value new_path st pf scope value' st' :
  is_repeated f && negb (is_list value) = false ->
  walk rec f value new_path st pf scope = Ok (value', st') ->
  value' = (if is_repeated f
            then match value with
                 | PList l => PList (map (restrict pf scope) l)
                 | _ => value
                 end
            else restrict pf scope value)
  /\ (if is_repeated f
      then match value' with
           | PList l' => forallb (no_excess pf scope) l'
           | _ => true
           end
      else no_excess pf scope value') = true
  /\ is_repeated f && negb (is_list value') = false.
Proof.
  unfold walk. intros Hrep H. destruct (is_repeated f).
  - simpl in Hrep. apply negb_false_iff in Hrep.
    destruct value; try discriminate. simpl in H.
    bind_inv H. destruct a as [l1 s1]. ok_inv H.
    destruct (validate_multiply_structures_strips _ _ _ _ _ _ _ _ E) as [Hl Hn].
    subst l1. auto.
  - destruct (rec_strips _ _ _ _ _ _ _ _ H) as [-> Hn]. auto.
Qed.

Lemma via_imports_strips pf f path key value new_path st value' st' :
  is_repeated f && negb (is_list value) = false ->
  via_imports rec pf f path key value new_path st = Ok (value', st') ->
  match (if has_in_imports pf (type f)
         then imported_scope pf (type f) else None) with
  | Some (pkg, scope) =>
      value' = (if is_repeated f
                then match value with
                     | PList l => PList (map (restrict pkg scope) l)
                     | _ => value
                     end
                else restrict pkg scope value)
      /\ (if is_repeated f
          then match value' with
               | PList l' => forallb (no_excess pkg scope) l'
               | _ => true
               end
          else no_excess pkg scope value') = true
      /\ is_repeated f && negb (is_list value') = false
  | None => value' = value
  end.
Proof.
  unfold via_imports, imported_scope. intros Hrep H.
  destruct (has_in_imports pf (type f)).
  - bind_inv H. bind_inv H. rewrite E, E0.
    eapply walk_strips; eassumption.
  - now ok_inv H.
Qed.

Lemma validate_field_strips pf scope fields path key value st value' st' :
  validate_field rec pf scope (NDict fields) path key value st
    = Ok (value', st') ->
  value' = restrict_value restrict pf scope fields key value
  /\ entry_has_no_excess no_excess pf scope fields key value' = true.
Proof.
  unfold validate_field, restrict_value, entry_has_no_excess. intros H.
  bind_inv H. bind_inv H.
  simpl in E. unfold getitem in E.
  destruct (dict_get String.eqb key fields) as [x|]; [|discriminate].
  injection E as <-. destruct x as [f|e|d]; try discriminate.
  injection E0 as <-. unfold descent_of.
  destruct (is_repeated f && negb (is_list value)) eqn:Hrep.
  { ok_inv H. now rewrite Hrep. }
  destruct (field_is_base_type f).
  { ok_inv H. now rewrite Hrep. }
  destruct (field_is_map f).
  { bind_inv H. destruct a as [[v1 errs] st1]. ok_inv H.
    unfold validate_map_type in E.
    destruct value; try (ok_inv E; now rewrite Hrep).
    bind_inv E. destruct a as [[d1 errs1] st2]. ok_inv E.
    assert (Hrep' : is_repeated f && negb (is_list (PDict d1)) = false)
      by exact Hrep.
    rewrite Hrep'.
    pose proof (map_loop_strips _ _ _ _ _ _ _ _ E0) as Hm.
    destruct (map_value_scope pf (type f)) as [[pkg sc]|].
    - destruct Hm as [-> Hn]. auto.
    - now subst d1. }
  bind_inv H. unfold message_scope. rewrite E.
  destruct a as [[f'|e|d]|].
  - simpl in H. apply walk_strips in H; [|assumption].
    cbn [truthy]. destruct H as (-> & Hn & ->).
    destruct (is_repeated f); [|auto].
    destruct value; auto.
  - ok_inv H. now rewrite Hrep.
  - destruct (truthy (NDict d)).
    + apply walk_strips in H; [|assumption].
      destruct H as (-> & Hn & ->).
      destruct (is_repeated f); [|auto].
      destruct value; auto.
    + apply via_imports_strips in H; [|assumption].
      destruct (if has_in_imports pf (type f)
                then imported_scope pf (type f) else None) as [[pkg sc]|].
      * destruct H as (-> & Hn & ->).
        destruct (is_repeated f); [|auto].
        destruct value; auto.
      * subst value'. now rewrite Hrep.
  - apply via_imports_strips in H; [|assumption].
    destruct (if has_in_imports pf (type f)
              then imported_scope pf (type f) else None) as [[pkg sc]|].
    + destruct H as (-> & Hn & ->).
      destruct (is_repeated f); [|auto].
      destruct value; auto.
    + subst value'. now rewrite Hrep.
Qed.

Lemma fields_loop_strips pf scope fields path items :
  forall st items' st',
    fields_loop rec pf scope (NDict fields) path items st = Ok (items', st') ->
    items' = map (fun kv => (fst kv,
                             restrict_value restrict pf scope fields
                                            (fst kv) (snd kv))) items
    /\ forallb (fun kv => entry_has_no_excess no_excess pf scope fields
                            (fst kv) (snd kv)) items' = true.
Proof.
  induction items as [|[k v] items IH]; intros st items' st' H; simpl in H.
  - ok_inv H. now split.
  - bind_inv H. destruct a as [v1 st1]. bind_inv H. destruct a as [rest st2].
    ok_inv H. destruct (IH _ _ _ E0) as [-> Hl].
    destruct (validate_field_strips _ _ _ _ _ _ _ _ _ E) as [-> Hn].
    split; [reflexivity|]. cbn [forallb fst snd]. now rewrite Hn, Hl.
Qed.

Lemma validate_structure_body_strips pf scope data path nm st data' st' :
  validate_structure_body rec pf scope data path nm st = Ok (data', st') ->
  data' = restrict pf scope data /\ no_excess pf scope data' = true.
Proof.
  unfold validate_structure_body. intros H.
  destruct data; try (ok_inv H; split; reflexivity).
  bind_inv H. bind_inv H. destruct a0 as [errs d1].
  bind_inv H. bind_inv H. destruct a1 as [d2 st3]. ok_inv H.
  unfold validate_required in E1. bind_inv E1.
  destruct a as [f|e|fs]; try discriminate. clear E3.
  assert (Hd1 : d1 = filter (fun kv => dict_mem String.eqb (fst kv) fs) d).
  { destruct (del_excess_spec _ _ _ _ E0) as [[-> ->] | (fs' & Hfs & ->)];
      [reflexivity | now ok_inv Hfs]. }
  subst d1.
  destruct (fields_loop_strips _ _ _ _ _ _ _ _ E2) as [-> Hn].
  rewrite (restrict_dict pf scope fs d E).
  rewrite (no_excess_dict pf scope fs _ E).
  split; [|exact Hn].
  f_equal.
  apply (filter_map_keys (fun k => dict_mem String.eqb k fs)
           (fun kv => restrict_value restrict pf scope fs (fst kv) (snd kv))).
Qed.
End ValidatorStrips.

Lemma validate_structure_strips fuel :
  forall pf scope data path nm st data' st',
    validate_structure fuel pf scope data path nm st = Ok (data', st') ->
    data' = restrict pf scope data /\ no_excess pf scope data' = true.
Proof.
  induction fuel as [|fuel IH]; intros pf scope data path nm st data' st' H;
    [discriminate|].
  simpl in H. eapply validate_structure_body_strips; [|eassumption].
  exact IH.
Qed.

(** C9.  A call of the validator only deletes excess fields, at every
    nesting level: the document it leaves is [restrict] of the document it
    was given -- in the dictionary of the call and in every dictionary
    below it that is validated against a scope, exactly the entries whose
    key the scope's field mapping does not declare are gone, and every
    other entry keeps its place and its value.  In particular the
    document is the one given with dictionary entries removed and nothing
    added, reordered or rewritten, and the keys left in the dictionary of
    the call are the declared ones.  The same holds of [validate_json]
    with the scope of the root. *)
Theorem C9_validation_only_deletes_excess :
  (forall fuel proto_file proto_scope test_data test_path scope_name st doc st',
      validate_structure fuel proto_file proto_scope test_data test_path
                         scope_name st = Ok (doc, st') ->
      doc = restrict proto_file proto_scope test_data
      /\ pruned test_data doc /\ restricted proto_scope test_data doc)
  /\
  (forall fuel proto_file root_field_name test_data flag errs doc out,
      validate_json fuel proto_file root_field_name test_data
        = Ok (flag, errs, doc, out) ->
      pruned test_data doc
      /\ exists proto_scope,
           getitem String.eqb root_field_name (structure proto_file)
             = Ok proto_scope
           /\ restricted proto_scope test_data doc
           /\ doc = restrict proto_file proto_scope test_data).
Proof.
  split.
  - intros fuel pf scope data path nm st doc st' H.
    split; [eapply validate_structure_strips; eassumption|].
    eapply validate_structure_frame; eassumption.
  - intros fuel pf root data flag errs doc out H.
    unfold validate_json in H. bind_inv H. bind_inv H.
    destruct a0 as [d st]. ok_inv H.
    destruct (validate_structure_frame _ _ _ _ _ _ _ _ _ E0) as [Hp Hr].
    destruct (validate_structure_strips _ _ _ _ _ _ _ _ _ E0) as [Hs _].
    split; [assumption|]. eauto.
Qed.

Lemma C9_witness :
  validate_json 2 button "Button" button_cluttered
  = Ok (true,
        [("Button", FieldExcess "colour");
         ("Button > themes", FieldExcess "zoom");
         ("Button > icon", FieldExcess "alt")],
        button_stripped, [])
  /\ pruned button_cluttered button_stripped
  /\ exists proto_scope,
       getitem String.eqb "Button" (structure button) = Ok proto_scope
       /\ restricted proto_scope button_cluttered button_stripped
       /\ button_stripped = restrict button proto_scope button_cluttered.
Proof.
  split; [reflexivity|].
  apply (proj2 C9_validation_only_deletes_excess 2 button "Button"
           button_cluttered true
           [("Button", FieldExcess "colour");
            ("Button > themes", FieldExcess "zoom");
            ("Button > icon", FieldExcess "alt")]
           button_stripped []).
  reflexivity.
Defined.

(** *** C7: stripping is idempotent *)

Lemma extends_refl st : extends st st.
Proof.
  exists [], []. destruct st. simpl. now rewrite !app_nil_r.
Qed.

Lemma extends_trans a b c : extends a b -> extends b c -> extends a c.
Proof.
  intros (e1 & o1 & -> & H1) (e2 & o2 & -> & H2). simpl.
  exists (e1 ++ e2), (o1 ++ o2). rewrite !app_assoc. split; [reflexivity|].
  unfold excess_free in *. rewrite forallb_app.
  apply andb_true_intro. split; assumption.
Qed.

Lemma extends_add_error path o st :
  quiet [o] = true -> extends st (add_error path o st).
Proof.
  destruct o as [m|]; simpl; intros H; [|apply extends_refl].
  exists [(path, m)], []. rewrite app_nil_r. split; [reflexivity|].
  simpl. apply andb_prop in H. destruct H as [H _]. now rewrite H.
Qed.

Lemma extends_one path m st :
  is_excess m = false ->
  extends st (mkState (errors st ++ [(path, m)]) (printed st)).
Proof.
  intros H. apply (extends_add_error path (Some m) st). simpl. now rewrite H.
Qed.

Lemma extends_add_errors path l : forall st,
  quiet l = true -> extends st (add_errors path l st).
Proof.
  induction l as [|o l IH]; intros st H; simpl; [apply extends_refl|].
  simpl in H. apply andb_prop in H. destruct H as [Ho Hl].
  eapply extends_trans; [|apply IH, Hl].
  apply extends_add_error. simpl. now rewrite Ho.
Qed.

Lemma extends_print st lines :
  extends st (mkState (errors st) (printed st ++ lines)).
Proof. exists [], lines. now rewrite app_nil_r. Qed.

Lemma validate_base_type_quiet proto_type v :
  quiet [validate_base_type proto_type v] = true.
Proof.
  unfold validate_base_type. now destruct (find _ _).
Qed.

Lemma quiet_map {A : Type} (f : A -> option message) l :
  (forall v, quiet [f v] = true) -> quiet (map f l) = true.
Proof.
  intros H. unfold quiet. rewrite forallb_forall. intros o Hin.
  apply in_map_iff in Hin. destruct Hin as (v & <- & _).
  specialize (H v). simpl in H. now rewrite andb_true_r in H.
Qed.

Lemma validate_multiply_base_types_quiet proto_type l :
  quiet (validate_multiply_base_types proto_type l) = true.
Proof. apply quiet_map, validate_base_type_quiet. Qed.

Lemma validate_enum_type_quiet e v : quiet [validate_enum_type e v] = true.
Proof.
  unfold validate_enum_type. now destruct (match v with PStr _ => _ | _ => _ end).
Qed.

Lemma validate_multiply_enum_types_quiet e l :
  quiet (validate_multiply_enum_types e l) = true.
Proof. apply quiet_map, validate_enum_type_quiet. Qed.

Lemma required_loop_quiet fs d : forall errs,
  required_loop fs d = Ok errs -> quiet (map Some errs) = true.
Proof.
  induction fs as [|[n x] fs IH]; intros errs H; simpl in H.
  - now ok_inv H.
  - bind_inv H. bind_inv H. ok_inv H.
    destruct (is_required a && negb (dict_mem String.eqb n d)); simpl; auto.
Qed.

Lemma dict_mem_keys {V W : Type} (k : string)
      (d : list (string * V)) (d' : list (string * W)) :
  keys d = keys d' -> dict_mem String.eqb k d = dict_mem String.eqb k d'.
Proof.
  revert d'. induction d as [|[k1 v1] d IH]; intros [|[k2 v2] d'] H;
    try discriminate; [reflexivity|].
  simpl in *. injection H as -> H. now rewrite (IH _ H).
Qed.

Lemma required_loop_keys fs d d' :
  keys d = keys d' -> required_loop fs d = required_loop fs d'.
Proof.
  intros H. induction fs as [|[n x] fs IH]; simpl; [reflexivity|].
  rewrite IH. now rewrite (dict_mem_keys n d d' H).
Qed.

Lemma excess_keys_none fs ks :
  (forall k, In k ks -> dict_mem String.eqb k fs = true) ->
  excess_keys (NDict fs) ks = Ok [].
Proof.
  induction ks as [|k ks IH]; intros H; simpl; [reflexivity|].
  rewrite IH by (intros; apply H; now right). simpl.
  now rewrite (H k (or_introl eq_refl)).
Qed.

Lemma pruned_is_list v v' : pruned v v' -> is_list v' = is_list v.
Proof. intros H. now inversion H. Qed.

Lemma del_excess_idempotent proto_fields d errs d1 :
  validate_and_del_excess proto_fields d = Ok (errs, d1) ->
  validate_and_del_excess proto_fields d1 = Ok ([], d1).
Proof.
  intros H.
  destruct (del_excess_spec _ _ _ _ H) as [[_ ->] | (fs & -> & ->)];
    [reflexivity|].
  unfold validate_and_del_excess. rewrite excess_keys_none; [reflexivity|].
  intros k Hin. unfold keys in Hin. apply in_map_iff in Hin.
  destruct Hin as ([k' v] & <- & Hin). apply filter_In in Hin. tauto.
Qed.

Section ValidatorIdempotent.
Variable rec : ProtoFile -> node -> pyval -> string -> string ->
               vstate -> result (pyval * vstate).
Hypothesis rec_pruned :
  forall pf scope v path nm st v' st',
    rec pf scope v path nm st = Ok (v', st') -> pruned v v'.
Hypothesis rec_idem :
  forall pf scope v path nm st v' st',
    rec pf scope v path nm st = Ok (v', st') ->
    forall st0, exists st2,
      rec pf scope v' path nm st0 = Ok (v', st2) /\ extends st0 st2.

Lemma validate_multiply_structures_idem pf scope path nm l :
  forall st l' st',
    validate_multiply_structures rec pf scope l path nm st = Ok (l', st') ->
    forall st0, exists st2,
      validate_multiply_structures rec pf scope l' path nm st0 = Ok (l', st2)
      /\ extends st0 st2.
Proof.
  induction l as [|v l IH]; intros st l' st' H st0; simpl in H.
  - ok_inv H. exists st0. split; [reflexivity | apply extends_refl].
  - bind_inv H. destruct a as [v1 st1]. bind_inv H. destruct a as [l1 st2].
    ok_inv H.
    destruct (rec_idem _ _ _ _ _ _ _ _ E st0) as (sa & Ha & Xa).
    destruct (IH _ _ _ E0 sa) as (sb & Hb & Xb).
    exists sb. simpl. rewrite Ha. simpl. rewrite Hb. simpl.
    split; [reflexivity | eapply extends_trans; eassumption].
Qed.

Lemma map_loop_idem pf proto_type path items :
  forall st items' errs st',
    map_loop rec pf proto_type items path st = Ok (items', errs, st') ->
    forall st0, exists errs2 st2,
      map_loop rec pf proto_type items' path st0 = Ok (items', errs2, st2)
      /\ extends st0 st2 /\ quiet errs2 = true.
Proof.
  induction items as [|[k v] items IH]; intros st items' errs st' H st0;
    simpl in H.
  - ok_inv H. exists [], st0. repeat split. apply extends_refl.
  - bind_inv H. bind_inv H. destruct a0 as [[v1 err] st1].
    bind_inv H. destruct a0 as [[rest errs1] st2]. ok_inv H.
    simpl. rewrite E. simpl.
    destruct (is_base_type a) eqn:B.
    + ok_inv E0.
      destruct (IH _ _ _ _ E1 st0) as (e2 & sb & Hb & Xb & Qb).
      simpl. rewrite Hb. simpl. eexists _, sb. split; [reflexivity|].
      split; [assumption|].
      unfold quiet in *. rewrite forallb_app, Qb, andb_true_r.
      now destruct (validate_base_type a v1).
    + bind_inv E0. bind_inv E0. bind_inv E0. destruct a2 as [v2 s2]. ok_inv E0.
      rewrite E2. simpl. rewrite E3. simpl.
      destruct (rec_idem _ _ _ _ _ _ _ _ E4 st0) as (sa & Ha & Xa).
      rewrite Ha. simpl.
      destruct (IH _ _ _ _ E1 sa) as (e2 & sb & Hb & Xb & Qb).
      rewrite Hb. simpl. eexists _, sb. split; [reflexivity|].
      split; [eapply extends_trans; eassumption | assumption].
Qed.

Lemma validate_map_type_idem pf proto_type v path st v' errs st' :
  validate_map_type rec pf proto_type v path st = Ok (v', errs, st') ->
  forall st0, exists errs2 st2,
    validate_map_type rec pf proto_type v' path st0 = Ok (v', errs2, st2)
    /\ extends st0 st2 /\ quiet errs2 = true.
Proof.
  unfold validate_map_type. intros H st0.
  destruct v;
    try (ok_inv H; eexists _, st0;
         split; [reflexivity | split; [apply extends_refl | reflexivity]]).
  bind_inv H. destruct a as [[d1 e1] s1]. ok_inv H.
  destruct (map_loop_idem _ _ _ _ _ _ _ _ E st0) as (e2 & s2 & H2 & X2 & Q2).
  rewrite H2. simpl. eauto.
Qed.

Lemma walk_idem f v new_path st pf scope v' st' :
  is_repeated f && negb (is_list v) = false ->
  walk rec f v new_path st pf scope = Ok (v', st') ->
  forall st0, exists st2,
    walk rec f v' new_path st0 pf scope = Ok (v', st2) /\ extends st0 st2.
Proof.
  unfold walk. intros Hrep H st0. destruct (is_repeated f).
  - simpl in Hrep. apply negb_false_iff in Hrep.
    destruct v; try discriminate. simpl in H.
    bind_inv H. destruct a as [l1 s1]. ok_inv H.
    destruct (validate_multiply_structures_idem _ _ _ _ _ _ _ _ E st0)
      as (s2 & H2 & X2).
    simpl. rewrite H2. simpl. eauto.
  - eapply rec_idem; eassumption.
Qed.

Lemma via_imports_idem pf f path key v new_path st v' st' :
  is_repeated f && negb (is_list v) = false ->
  via_imports rec pf f path key v new_path st = Ok (v', st') ->
  forall st0, exists st2,
    via_imports rec pf f path key v' new_path st0 = Ok (v', st2)
    /\ extends st0 st2.
Proof.
  unfold via_imports. intros Hrep H st0.
  destruct (has_in_imports pf (type f)).
  - bind_inv H. bind_inv H. rewrite E. simpl. rewrite E0. simpl.
    eapply walk_idem; eassumption.
  - ok_inv H. eexists. split; [reflexivity | apply extends_print].
Qed.

Lemma validate_field_idem pf scope fields path key v st v' st' :
  validate_field rec pf scope fields path key v st = Ok (v', st') ->
  forall st0, exists st2,
    validate_field rec pf scope fields path key v' st0 = Ok (v', st2)
    /\ extends st0 st2.
Proof.
  intros H st0.
  pose proof (validate_field_pruned rec rec_pruned _ _ _ _ _ _ _ _ _ H) as Hp.
  apply pruned_is_list in Hp.
  unfold validate_field in *.
  bind_inv H. bind_inv H. rewrite E. cbn [bind]. rewrite E0. cbn [bind].
  rewrite Hp.
  destruct (is_repeated a0 && negb (is_list v)) eqn:Hrep.
  { ok_inv H. eexists. split; [reflexivity|].
    now apply extends_one. }
  destruct (field_is_base_type a0).
  { ok_inv H. eexists. split; [reflexivity|].
    apply extends_add_errors. destruct (is_repeated a0).
    - apply validate_multiply_base_types_quiet.
    - apply validate_base_type_quiet. }
  destruct (field_is_map a0).
  { bind_inv H. destruct a1 as [[v1 errs] st1]. ok_inv H.
    destruct (validate_map_type_idem _ _ _ _ _ _ _ _ E1 st0)
      as (e2 & s2 & H2 & X2 & Q2).
    rewrite H2. cbn [bind]. eexists. split; [reflexivity|].
    eapply extends_trans; [eassumption | now apply extends_add_errors]. }
  bind_inv H. rewrite E1. cbn [bind].
  destruct a1 as [[f|e|d]|].
  - cbn [truthy] in *. eapply walk_idem; eassumption.
  - ok_inv H. eexists. split; [reflexivity|].
    apply extends_add_errors. destruct (is_repeated a0).
    + apply validate_multiply_enum_types_quiet.
    + apply validate_enum_type_quiet.
  - destruct (truthy (NDict d));
      [eapply walk_idem | eapply via_imports_idem]; eassumption.
  - eapply via_imports_idem; eassumption.
Qed.

Lemma fields_loop_idem pf scope fields path items :
  forall st items' st',
    fields_loop rec pf scope fields path items st = Ok (items', st') ->
    forall st0, exists st2,
      fields_loop rec pf scope fields path items' st0 = Ok (items', st2)
      /\ extends st0 st2.
Proof.
  induction items as [|[k v] items IH]; intros st items' st' H st0; simpl in H.
  - ok_inv H. exists st0. split; [reflexivity | apply extends_refl].
  - bind_inv H. destruct a as [v1 st1]. bind_inv H. destruct a as [rest st2].
    ok_inv H.
    destruct (validate_field_idem _ _ _ _ _ _ _ _ _ E st0) as (sa & Ha & Xa).
    destruct (IH _ _ _ E0 sa) as (sb & Hb & Xb).
    exists sb. simpl. rewrite Ha. simpl. rewrite Hb. simpl.
    split; [reflexivity | eapply extends_trans; eassumption].
Qed.

Lemma validate_structure_body_idem pf scope data path nm st data' st' :
  validate_structure_body rec pf scope data path nm st = Ok (data', st') ->
  forall st0, exists st2,
    validate_structure_body rec pf scope data' path nm st0 = Ok (data', st2)
    /\ extends st0 st2.
Proof.
  unfold validate_structure_body. intros H st0.
  destruct data;
    try (ok_inv H; eexists; split; [reflexivity | now apply extends_one]).
  bind_inv H. bind_inv H. destruct a0 as [errs d1].
  bind_inv H. bind_inv H. destruct a1 as [d2 st3]. ok_inv H.
  rewrite E. simpl.
  destruct (fields_loop_pruned rec rec_pruned _ _ _ _ _ _ _ _ E2) as [_ Hk].
  pose proof (del_excess_idempotent _ _ _ _ E0) as Hidem.
  assert (Hd2 : validate_and_del_excess a d2 = Ok ([], d2)).
  { unfold validate_and_del_excess in *. rewrite Hk.
    bind_inv Hidem. rewrite E3. simpl. bind_inv Hidem. ok_inv Hidem.
    destruct a1; [reflexivity | discriminate]. }
  rewrite Hd2. simpl.
  unfold validate_required in *. bind_inv E1. rewrite E3. simpl.
  rewrite (required_loop_keys a1 d2 d1 Hk), E1. simpl.
  destruct (fields_loop_idem _ _ _ _ _ _ _ _ E2
              (add_errors path (map Some a0) st0)) as (s2 & H2 & X2).
  rewrite H2. simpl. eexists. split; [reflexivity|].
  eapply extends_trans; [|eassumption].
  apply extends_add_errors. eapply required_loop_quiet; eassumption.
Qed.
End ValidatorIdempotent.

Lemma validate_structure_idem fuel :
  forall pf scope data path nm st data' st',
    validate_structure fuel pf scope data path nm st = Ok (data', st') ->
    forall st0, exists st2,
      validate_structure fuel pf scope data' path nm st0 = Ok (data', st2)
      /\ extends st0 st2.
Proof.
  induction fuel as [|fuel IH]; intros pf scope data path nm st data' st' H;
    [discriminate|].
  simpl in *. eapply validate_structure_body_idem; [| |eassumption].
  - intros. eapply validate_structure_frame. eassumption.
  - exact IH.
Qed.

(** C7.  (1) [__validate_and_del_excess] run on what it left finds nothing
    to report and deletes nothing.  (2) A call of the validator that
    returns has removed all excess fields: in the document it leaves, the
    dictionary of the call and every dictionary below it that is validated
    against a scope hold declared keys only -- inside lists, maps and
    imported messages too.  The call can then be repeated on that
    document, from any state: the repeated call returns, leaves the
    document as it is and adds no excess-field diagnostic.  (3) So for
    [validate_json]. *)
Theorem C7_stripping_idempotent :
  (forall proto_fields test_data errs stripped,
      validate_and_del_excess proto_fields test_data = Ok (errs, stripped) ->
      validate_and_del_excess proto_fields stripped = Ok ([], stripped))
  /\
  (forall fuel proto_file proto_scope test_data test_path scope_name st doc st',
      validate_structure fuel proto_file proto_scope test_data test_path
                         scope_name st = Ok (doc, st') ->
      no_excess proto_file proto_scope doc = true
      /\ forall st0, exists st2,
           validate_structure fuel proto_file proto_scope doc test_path
                              scope_name st0 = Ok (doc, st2)
           /\ extends st0 st2)
  /\
  (forall fuel proto_file root_field_name test_data flag errs doc out,
      validate_json fuel proto_file root_field_name test_data
        = Ok (flag, errs, doc, out) ->
      (exists proto_scope,
          getitem String.eqb root_field_name (structure proto_file)
            = Ok proto_scope
          /\ no_excess proto_file proto_scope doc = true)
      /\ exists flag' errs' out',
           validate_json fuel proto_file root_field_name doc
             = Ok (flag', errs', doc, out')
           /\ excess_free errs' = true).
Proof.
  split; [exact del_excess_idempotent|].
  split.
  - intros fuel pf scope data path nm st doc st' H. split.
    + eapply validate_structure_strips; eassumption.
    + eapply validate_structure_idem; eassumption.
  - intros fuel pf root data flag errs doc out H.
    unfold validate_json in *. bind_inv H. bind_inv H.
    destruct a0 as [d st]. ok_inv H. rewrite E. simpl.
    destruct (validate_structure_strips _ _ _ _ _ _ _ _ _ E0) as [_ Hn].
    split; [eauto|].
    destruct (validate_structure_idem _ _ _ _ _ _ _ _ _ E0 (mkState [] []))
      as (s2 & H2 & (es & o & -> & Hes)).
    rewrite H2. simpl. eauto.
Qed.

Lemma C7_witness :
  validate_json 2 button "Button" button_cluttered
  = Ok (true,
        [("Button", FieldExcess "colour");
         ("Button > themes", FieldExcess "zoom");
         ("Button > icon", FieldExcess "alt")],
        button_stripped, [])
  /\ (exists proto_scope,
         getitem String.eqb "Button" (structure button) = Ok proto_scope
         /\ no_excess button proto_scope button_stripped = true)
  /\ exists flag' errs' out',
       validate_json 2 button "Button" button_stripped
       = Ok (flag', errs', button_stripped, out')
       /\ excess_free errs' = true.
Proof.
  split; [reflexivity|].
  apply (proj2 (proj2 C7_stripping_idempotent) 2 button "Button"
           button_cluttered true
           [("Button", FieldExcess "colour");
            ("Button > themes", FieldExcess "zoom");
            ("Button > icon", FieldExcess "alt")]
           button_stripped []).
  reflexivity.
Defined.

(** *** C1: validating what the generator produced *)

(** The generator's output is an [OrderedDict], which the validator's
    [type(test_data) != dict] turns away; and the placeholder generated
    for an enum without values is not one of its values. *)
Lemma C1_counterexample :
  as_object 1 empty_enum "M" = Ok (POrderedDict [("e", PStr "Optional enum")])
  /\ validate_json 1 empty_enum "M" (POrderedDict [("e", PStr "Optional enum")])
     = Ok (true,
           [("M", ExpectedStructure "M" "OrderedDict"
                    (POrderedDict [("e", PStr "Optional enum")]))],
           POrderedDict [("e", PStr "Optional enum")], [])
  /\ validate_json 1 empty_enum "M" (PDict [("e", PStr "Optional enum")])
     = Ok (true, [("M > e", UnknownEnumValue (PStr "Optional enum") "E")],
           PDict [("e", PStr "Optional enum")], []).
Proof. repeat split. Qed.

(** the scalar tables do not overlap, so a generated scalar has the kind
    the validator expects for its type *)
Ltac type_cases E :=
  apply str_in_In in E; simpl in E;
  repeat (destruct E as [E | E]; [rewrite <- E | ]); try contradiction.

Lemma default_value_valid f v :
  get_default_value_for_field f = Some v ->
  field_is_base_type f = true /\ plain v = v
  /\ validate_base_type (type f) v = None.
Proof.
  unfold get_default_value_for_field, field_is_base_type. intros H.
  destruct (str_in (type f) STRING_TYPES) eqn:S.
  { injection H as <-. type_cases S; repeat split. }
  destruct (str_in (type f) INT_TYPES) eqn:I.
  { injection H as <-. type_cases I; repeat split. }
  destruct (str_in (type f) FLOAT_TYPES) eqn:F.
  { injection H as <-. type_cases F; repeat split. }
  destruct (str_in (type f) BOOL_TYPES) eqn:B; [|discriminate].
  injection H as <-. type_cases B; repeat split.
Qed.

Lemma no_default_valid f v :
  get_default_value_for_field f = None ->
  validate_base_type (type f) v = None.
Proof.
  unfold get_default_value_for_field, validate_base_type. intros H.
  destruct (str_in (type f) STRING_TYPES) eqn:S; [discriminate|].
  destruct (str_in (type f) INT_TYPES) eqn:I; [discriminate|].
  destruct (str_in (type f) FLOAT_TYPES) eqn:F; [discriminate|].
  destruct (str_in (type f) BOOL_TYPES) eqn:B; [discriminate|].
  unfold type_associations. cbn [find fst snd].
  now rewrite S, F, I, B.
Qed.

Lemma dict_mem_dict_get {V : Type} (k : string) (d : list (string * V)) :
  dict_mem String.eqb k d
  = match dict_get String.eqb k d with Some _ => true | None => false end.
Proof.
  induction d as [|[k' v] d IH]; simpl; [reflexivity|].
  destruct (String.eqb k k'); simpl; auto.
Qed.

Lemma dict_set_fresh {V : Type} (k : string) (v : V) d :
  dict_mem String.eqb k d = false ->
  dict_set String.eqb k v d = d ++ [(k, v)].
Proof.
  induction d as [|[k' v'] d IH]; simpl; [reflexivity|].
  destruct (String.eqb k k'); simpl; [discriminate|].
  intros H. now rewrite IH.
Qed.

Lemma dict_set_twice {V : Type} (k : string) (v v' : V) d :
  dict_set String.eqb k v' (dict_set String.eqb k v d)
  = dict_set String.eqb k v' d.
Proof.
  induction d as [|[k0 v0] d IH]; simpl.
  - now rewrite String.eqb_refl.
  - destruct (String.eqb k k0) eqn:E; simpl.
    + now rewrite String.eqb_refl.
    + now rewrite E, IH.
Qed.

Lemma distinct_NoDup ks : distinct ks = true -> NoDup ks.
Proof.
  induction ks as [|k ks IH]; simpl; intros H; constructor.
  - apply andb_prop in H. destruct H as [H _].
    intros Hin. apply str_in_In in Hin. now rewrite Hin in H.
  - apply IH. apply andb_prop in H. tauto.
Qed.

Section GeneratedObject.
Variable gen_rec : ProtoFile -> node -> result pyval.
Variables (proto_file : ProtoFile) (structure_field : node).

Lemma get_field_value acc field_name x :
  get_field gen_rec proto_file structure_field acc field_name x
  = (field <- as_field x ;;
     value <- synthesized gen_rec proto_file structure_field field ;;
     Ok (dict_set String.eqb field_name (stored field value) acc)).
Proof.
  unfold get_field, synthesized, stored.
  destruct (as_field x) as [f|]; [|reflexivity]. cbn [bind].
  match goal with
  | [ |- bind ?e _ = bind ?e _ ] => destruct e as [v|]; [|reflexivity]
  end.
  cbn [bind]. destruct (is_repeated f); [|reflexivity].
  now rewrite dict_get_set_same, dict_set_twice.
Qed.

Lemma get_fields_entries items : forall acc acc',
  get_fields gen_rec proto_file structure_field items acc = Ok acc' ->
  NoDup (keys items) ->
  (forall k, In k (keys items) -> dict_mem String.eqb k acc = false) ->
  exists vs, acc' = acc ++ vs
             /\ Forall2 (entry_of gen_rec proto_file structure_field) items vs.
Proof.
  induction items as [|[n x] items IH]; intros acc acc' H Hnd Hfresh;
    simpl in H.
  - ok_inv H. exists []. now rewrite app_nil_r.
  - bind_inv H. rewrite get_field_value in E.
    bind_inv E. bind_inv E. ok_inv E.
    inversion Hnd as [|? ? Hni Hnd']; subst.
    rewrite dict_set_fresh in H by (apply Hfresh; now left).
    destruct (IH _ _ H Hnd') as (vs & -> & Hvs).
    { intros k Hk. unfold dict_mem. rewrite existsb_app. simpl.
      rewrite orb_false_r. apply orb_false_intro.
      - apply Hfresh. now right.
      - apply String.eqb_neq. intros ->. contradiction. }
    exists ((n, stored a0 a1) :: vs). rewrite <- app_assoc. split; [reflexivity|].
    constructor; [|assumption].
    split; [reflexivity|]. exists a0, a1. simpl.
    destruct x; try discriminate. simpl in E0. now ok_inv E0.
Qed.
End GeneratedObject.

Lemma keys_plain_items d : keys (plain_items d) = keys d.
Proof. unfold keys, plain_items. rewrite map_map. reflexivity. Qed.

Section Agreement.
Variable gen_rec : ProtoFile -> node -> result pyval.
Variable val_rec : ProtoFile -> node -> pyval -> string -> string ->
                   vstate -> result (pyval * vstate).
Variable reg : ProtoFile -> node -> bool.

(** what was generated for a regular scope validates without a trace *)
Hypothesis link :
  forall pf scope x,
    gen_rec pf scope = Ok x -> reg pf scope = true ->
    forall path nm st, val_rec pf scope (plain x) path nm st = Ok (plain x, st).

(** the generator only returns for a scope that has its fields entry *)
Hypothesis gen_nonempty :
  forall pf d x, gen_rec pf (NDict d) = Ok x -> truthy (NDict d) = true.

Lemma walk_agree f value new_path st pf scope :
  gen_rec pf scope = Ok value ->
  reg pf scope = true ->
  walk val_rec f (plain (stored f value)) new_path st pf scope
  = Ok (plain (stored f value), st).
Proof.
  intros Hg Hr. unfold walk, stored. destruct (is_repeated f).
  - simpl. now rewrite (link _ _ _ Hg Hr).
  - now apply link.
Qed.

Lemma enum_agree e f new_path st :
  values e <> [] ->
  add_errors new_path
    (if is_repeated f
     then validate_multiply_enum_types e
            (elements (plain (stored f (get_default_value_for_enum e f))))
     else [validate_enum_type e
             (plain (stored f (get_default_value_for_enum e f)))]) st
  = st.
Proof.
  intros Hv. unfold stored, get_default_value_for_enum.
  destruct (values e) as [|first rest] eqn:V; [congruence|].
  assert (Hfirst : validate_enum_type e (PStr first) = None).
  { unfold validate_enum_type. rewrite V. simpl. now rewrite String.eqb_refl. }
  destruct (is_repeated f); simpl; now rewrite Hfirst.
Qed.

Lemma field_agree pf scope fields path key f value st :
  dict_get String.eqb key fields = Some (NField f) ->
  synthesized gen_rec pf (NDict scope) f = Ok value ->
  regular_field reg pf scope f = true ->
  validate_field val_rec pf (NDict scope) (NDict fields) path key
                 (plain (stored f value)) st
  = Ok (plain (stored f value), st).
Proof.
  intros Hget Hsyn Hreg.
  unfold validate_field. cbn [node_getitem]. unfold getitem.
  rewrite Hget. cbn [bind as_field].
  assert (Hlist : is_repeated f && negb (is_list (plain (stored f value)))
                  = false).
  { unfold stored. now destruct (is_repeated f). }
  rewrite Hlist.
  unfold synthesized in Hsyn. unfold regular_field in Hreg.
  destruct (get_default_value_for_field f) as [dv|] eqn:D.
  { injection Hsyn as <-.
    destruct (default_value_valid _ _ D) as (B & P & Vd).
    rewrite B. f_equal. f_equal. unfold stored.
    destruct (is_repeated f); simpl; rewrite P, Vd; reflexivity. }
  destruct (field_is_base_type f).
  { f_equal. f_equal. unfold stored, validate_multiply_base_types.
    destruct (is_repeated f); simpl;
      now rewrite (no_default_valid _ _ D). }
  simpl in Hreg. apply andb_prop in Hreg. destruct Hreg as [Hmap Hreg].
  apply negb_true_iff in Hmap. rewrite Hmap.
  unfold scoped_proto_type. cbn [node_contains bind].
  destruct (has_in_imports pf (type f)) eqn:I.
  - apply andb_prop in Hreg. destruct Hreg as [Hreg Hpkg].
    apply andb_prop in Hreg. destruct Hreg as [Hs Ht].
    apply negb_true_iff in Hs, Ht. rewrite Hs. cbn [bind].
    rewrite dict_mem_dict_get in Ht.
    destruct (dict_get String.eqb (type f) (structure pf)); [discriminate|].
    unfold via_imports. rewrite I.
    unfold get_import_package_as_object in Hsyn.
    unfold get_import_package, get_import_package_as_structure in *.
    destruct (split_dot (type f)) as [[package message]|]; [|discriminate].
    bind_inv Hsyn. rewrite E in *. cbn [bind] in *.
    unfold as_object_with in Hsyn. bind_inv Hsyn. rewrite E0 in *.
    cbn [bind]. now apply walk_agree.
  - cbn [node_contains bind] in Hsyn.
    rewrite dict_mem_dict_get in *.
    destruct (dict_get String.eqb (type f) scope) as [x|] eqn:S;
      destruct (dict_get String.eqb (type f) (structure pf)) as [y|] eqn:T;
      try discriminate.
    + cbn [node_getitem] in *. unfold getitem in *. rewrite S in *.
      cbn [bind] in *.
      destruct x as [f0|e|d]; [discriminate| |].
      * injection Hsyn as <-. f_equal. f_equal. apply enum_agree.
        intros V. now rewrite V in Hreg.
      * rewrite (gen_nonempty _ _ _ Hsyn). now apply walk_agree.
    + cbn [bind] in *.
      destruct y as [f0|e|d]; [discriminate| |].
      * injection Hsyn as <-. f_equal. f_equal. apply enum_agree.
        intros V. now rewrite V in Hreg.
      * rewrite (gen_nonempty _ _ _ Hsyn). now apply walk_agree.
Qed.

Lemma fields_loop_agree pf scope fields path items : forall vs st,
  Forall2 (entry_of gen_rec pf (NDict scope)) items vs ->
  (forall k x, In (k, x) items -> dict_get String.eqb k fields = Some x) ->
  (forall k f, In (k, NField f) items -> regular_field reg pf scope f = true) ->
  fields_loop val_rec pf (NDict scope) (NDict fields) path (plain_items vs) st
  = Ok (plain_items vs, st).
Proof.
  induction items as [|[k x] items IH]; intros vs st Hall Hget Hreg;
    inversion Hall as [|? [k' v] ? vs' Hent Hrest]; subst; [reflexivity|].
  destruct Hent as (Hk & f & value & Hx & Hsyn & Hv). simpl in Hk, Hx, Hv.
  subst k' x v. simpl.
  rewrite (field_agree pf scope fields path k f value st).
  - cbn [bind]. fold (plain_items vs'). rewrite IH; try assumption.
    + reflexivity.
    + intros. apply Hget. now right.
    + intros. eapply Hreg. right. eassumption.
  - apply Hget. now left.
  - assumption.
  - eapply Hreg. now left.
Qed.

Lemma required_loop_all_present items d :
  (forall k x, In (k, x) items ->
               (exists f, x = NField f) /\ dict_mem String.eqb k d = true) ->
  required_loop items d = Ok [].
Proof.
  induction items as [|[k x] items IH]; intros H; simpl; [reflexivity|].
  destruct (H k x (or_introl eq_refl)) as [[f ->] Hm]. simpl.
  rewrite IH by (intros; apply H; now right). simpl.
  now rewrite Hm, andb_false_r.
Qed.

Lemma entries_keys pf scope items : forall vs,
  Forall2 (entry_of gen_rec pf scope) items vs -> keys vs = keys items.
Proof.
  induction items as [|kx items IH]; intros vs H; inversion H; subst;
    [reflexivity|].
  simpl. f_equal; [|now apply IH].
  match goal with [ E : entry_of _ _ _ _ _ |- _ ] => now destruct E end.
Qed.

Lemma entries_fields pf scope items : forall vs,
  Forall2 (entry_of gen_rec pf scope) items vs ->
  forall k x, In (k, x) items -> exists f, x = NField f.
Proof.
  induction items as [|kx items IH]; intros vs H k x Hin; [destruct Hin|].
  inversion H as [|? kv ? vs' Hent Hrest]; subst.
  destruct Hin as [-> | Hin]; [|eapply IH; eassumption].
  destruct Hent as (_ & f & value & Hx & _). simpl in Hx. eauto.
Qed.

Lemma body_agree pf structure_field doc path nm st :
  get_object_body gen_rec pf structure_field = Ok doc ->
  regular_scope reg pf structure_field = true ->
  validate_structure_body val_rec pf structure_field (plain doc) path nm st
  = Ok (plain doc, st).
Proof.
  unfold get_object_body, regular_scope. intros Hgen Hreg.
  bind_inv Hgen. bind_inv Hgen. bind_inv Hgen. ok_inv Hgen.
  destruct structure_field as [f|e|scope]; try discriminate.
  cbn [node_getitem] in E. unfold getitem in E.
  destruct (dict_get String.eqb FIELDS_KEY scope) as [fields_node|] eqn:F;
    [|discriminate].
  injection E as <-. destruct fields_node as [f|e|fields]; try discriminate.
  simpl in E0. injection E0 as <-.
  apply andb_prop in Hreg. destruct Hreg as [Hnd Hall].
  apply distinct_NoDup in Hnd.
  destruct (get_fields_entries _ _ _ _ _ _ E1 Hnd) as (vs & -> & Hvs);
    [reflexivity|].
  simpl app. cbn [plain validate_structure_body node_getitem].
  unfold getitem. rewrite F. cbn [bind]. fold (plain_items vs).
  pose proof (entries_keys _ _ _ _ Hvs) as Hkeys.
  unfold validate_and_del_excess.
  rewrite keys_plain_items, Hkeys.
  rewrite excess_keys_none by (intros k Hk; now apply dict_mem_In).
  cbn [bind del_keys map add_errors fold_left].
  unfold validate_required. cbn [node_items bind].
  rewrite required_loop_all_present.
  - cbn [bind map add_errors fold_left].
    rewrite (fields_loop_agree pf scope fields path fields vs st Hvs).
    + reflexivity.
    + intros k x Hin. now apply dict_get_In.
    + intros k f Hin. rewrite forallb_forall in Hall.
      apply (Hall (k, NField f) Hin).
  - intros k x Hin. split; [eapply entries_fields; eassumption|].
    apply dict_mem_In. rewrite keys_plain_items, Hkeys.
    change k with (fst (k, x)). now apply in_map.
Qed.
End Agreement.

Lemma generated_validates fuel :
  forall pf scope doc,
    get_object fuel pf scope = Ok doc ->
    regular fuel pf scope = true ->
    forall fuel', fuel <= fuel' ->
    forall path nm st,
      validate_structure fuel' pf scope (plain doc) path nm st
      = Ok (plain doc, st).
Proof.
  induction fuel as [|fuel IH]; intros pf scope doc Hgen Hreg fuel' Hle path nm st;
    [discriminate|].
  destruct fuel' as [|fuel']; [lia|].
  simpl in *.
  apply (body_agree (get_object fuel) (validate_structure fuel') (regular fuel));
    try assumption.
  - intros pf0 scope0 x Hg Hr path0 nm0 st0.
    apply (IH _ _ _ Hg Hr fuel'). lia.
  - intros pf0 d x Hg. destruct d; [|reflexivity].
    destruct fuel; discriminate.
Qed.

(** C1 (amended).  When the generator returns a document for a root type
    and every field it reaches is a regular one, validating that document
    with its ordered mappings turned into plain dictionaries returns no
    diagnostic, a false flag, the document unchanged and prints nothing. *)
Theorem C1_generated_document_validates :
  forall fuel proto_file root_field_name doc,
    as_object fuel proto_file root_field_name = Ok doc ->
    regular_root fuel proto_file root_field_name = true ->
    validate_json fuel proto_file root_field_name (plain doc)
    = Ok (false, [], plain doc, []).
Proof.
  intros fuel pf root doc Hgen Hreg.
  unfold as_object, as_object_with, regular_root, validate_json in *.
  bind_inv Hgen. unfold getitem in *.
  destruct (dict_get String.eqb root (structure pf)) as [scope|];
    [|discriminate].
  injection E as <-. cbn [bind].
  now rewrite (generated_validates fuel pf scope doc Hgen Hreg fuel (le_n _)).
Qed.

Lemma C1_witness :
  as_object 2 button "Button" = Ok button_doc
  /\ regular_root 2 button "Button" = true
  /\ validate_json 2 button "Button" (plain button_doc)
     = Ok (false, [], plain button_doc, []).
Proof.
  split; [reflexivity|]. split; [reflexivity|].
  apply (C1_generated_document_validates 2 button "Button" button_doc);
    reflexivity.
Defined.

(** *** The validator's recursion is bounded by the document *)

Lemma within_stack_bind {A B : Type} (e : result A) (k : A -> result B) :
  within_stack e ->
  (forall a, e = Ok a -> within_stack (k a)) ->
  within_stack (bind e k).
Proof.
  unfold within_stack. destruct e as [a|x]; simpl; intros He Hk.
  - now apply Hk.
  - congruence.
Qed.

Lemma within_stack_Ok {A : Type} (a : A) : within_stack (Ok a).
Proof. discriminate. Qed.

Lemma getitem_within_stack {K V : Type} (eqb : K -> K -> bool) k
      (d : list (K * V)) :
  within_stack (getitem eqb k d).
Proof. unfold within_stack, getitem. destruct (dict_get eqb k d); discriminate. Qed.

Lemma node_getitem_within_stack x key : within_stack (node_getitem x key).
Proof.
  destruct x; try discriminate. apply getitem_within_stack.
Qed.

Lemma excess_keys_within_stack proto_fields ks :
  within_stack (excess_keys proto_fields ks).
Proof.
  induction ks as [|k ks IH]; simpl; [discriminate|].
  apply within_stack_bind; [destruct proto_fields; discriminate|].
  intros fs _. apply within_stack_bind; [assumption | discriminate].
Qed.

Lemma del_keys_within_stack ks : forall d, within_stack (del_keys ks d).
Proof.
  induction ks as [|k ks IH]; intros d; simpl; [discriminate|].
  apply within_stack_bind; [|auto].
  unfold delitem. destruct (dict_mem String.eqb k d); discriminate.
Qed.

Lemma required_loop_within_stack fs d : within_stack (required_loop fs d).
Proof.
  induction fs as [|[n x] fs IH]; simpl; [discriminate|].
  apply within_stack_bind; [destruct x; discriminate|].
  intros f _. apply within_stack_bind; [assumption | discriminate].
Qed.

Lemma match_group_within_stack p g s : within_stack (match_group p g s).
Proof.
  unfold match_group. destruct (re_match p s); [|discriminate].
  apply getitem_within_stack.
Qed.

Lemma get_import_package_within_stack pf t :
  within_stack (get_import_package pf t).
Proof.
  unfold get_import_package. destruct (split_dot t) as [[a b]|]; [|discriminate].
  apply getitem_within_stack.
Qed.

Lemma get_import_package_as_structure_within_stack pf t :
  within_stack (get_import_package_as_structure pf t).
Proof.
  unfold get_import_package_as_structure.
  destruct (split_dot t) as [[a b]|]; [|discriminate].
  apply within_stack_bind; intros; apply getitem_within_stack.
Qed.

Lemma depth_element v l : In v l -> depth v < depth (PList l).
Proof.
  intros Hin. simpl. apply PeanoNat.Nat.lt_succ_r.
  pose proof (proj1 (list_max_le (map depth l) _) (le_n _)) as Hall.
  rewrite Forall_forall in Hall. apply Hall. now apply in_map.
Qed.

Lemma depth_entry k v d : In (k, v) d -> depth v < depth (PDict d).
Proof.
  intros Hin. simpl. apply PeanoNat.Nat.lt_succ_r.
  pose proof (proj1 (list_max_le (map (fun kv => depth (snd kv)) d) _) (le_n _))
    as Hall.
  rewrite Forall_forall in Hall. apply Hall.
  change (depth v) with ((fun kv => depth (snd kv)) (k, v)). now apply in_map.
Qed.

Section ValidatorStack.
Variable rec : ProtoFile -> node -> pyval -> string -> string ->
               vstate -> result (pyval * vstate).
Variable bound : nat.
Hypothesis rec_within_stack :
  forall pf scope v path nm st,
    depth v < bound -> within_stack (rec pf scope v path nm st).

Lemma validate_multiply_structures_within_stack pf scope path nm l :
  forall st,
    (forall v, In v l -> depth v < bound) ->
    within_stack (validate_multiply_structures rec pf scope l path nm st).
Proof.
  induction l as [|v l IH]; intros st H; simpl; [discriminate|].
  apply within_stack_bind; [apply rec_within_stack, H; now left|].
  intros [v1 st1] _. apply within_stack_bind; [|intros [l1 s1] _; discriminate].
  apply IH. intros. apply H. now right.
Qed.

Lemma map_loop_within_stack pf proto_type path items :
  forall st,
    (forall k v, In (k, v) items -> depth v < bound) ->
    within_stack (map_loop rec pf proto_type items path st).
Proof.
  induction items as [|[k v] items IH]; intros st H; simpl; [discriminate|].
  apply within_stack_bind; [apply match_group_within_stack|].
  intros t _. apply within_stack_bind.
  - destruct (is_base_type t); [discriminate|].
    apply within_stack_bind; [apply get_import_package_within_stack|].
    intros pkg _.
    apply within_stack_bind;
      [apply get_import_package_as_structure_within_stack|].
    intros target _. apply within_stack_bind; [|intros [v1 s1] _; discriminate].
    apply rec_within_stack. apply (H k). now left.
  - intros [[v1 err] st1] _.
    apply within_stack_bind; [|intros [[r e] s2] _; discriminate].
    apply IH. intros k' v' Hin. apply (H k'). now right.
Qed.

Lemma walk_within_stack f v new_path st pf scope :
  depth v < bound ->
  within_stack (walk rec f v new_path st pf scope).
Proof.
  intros Hd. unfold walk. destruct (is_repeated f); [|now apply rec_within_stack].
  apply within_stack_bind; [|intros [l1 s1] _; discriminate].
  apply validate_multiply_structures_within_stack.
  intros x Hin. destruct v; try destruct Hin.
  apply PeanoNat.Nat.lt_trans with (depth (PList l)); [|assumption].
  now apply depth_element.
Qed.

Lemma via_imports_within_stack pf f path key v new_path st :
  depth v < bound ->
  within_stack (via_imports rec pf f path key v new_path st).
Proof.
  intros Hd. unfold via_imports.
  destruct (has_in_imports pf (type f)); [|discriminate].
  apply within_stack_bind; [apply get_import_package_within_stack|].
  intros pkg _.
  apply within_stack_bind; [apply get_import_package_as_structure_within_stack|].
  intros target _. now apply walk_within_stack.
Qed.

Lemma validate_field_within_stack pf scope fields path key v st :
  depth v < bound ->
  within_stack (validate_field rec pf scope fields path key v st).
Proof.
  intros Hd. unfold validate_field.
  apply within_stack_bind; [apply node_getitem_within_stack|].
  intros x _. apply within_stack_bind; [destruct x; discriminate|].
  intros f _. cbv zeta.
  destruct (is_repeated f && negb (is_list v)); [discriminate|].
  destruct (field_is_base_type f); [discriminate|].
  destruct (field_is_map f).
  { apply within_stack_bind; [|intros [[v1 e1] s1] _; discriminate].
    unfold validate_map_type. destruct v; try discriminate.
    apply within_stack_bind; [|intros [[d1 e1] s1] _; discriminate].
    apply map_loop_within_stack. intros k x0 Hin.
    apply PeanoNat.Nat.lt_trans with (depth (PDict d)); [|assumption].
    eapply depth_entry; eassumption. }
  apply within_stack_bind.
  { unfold scoped_proto_type.
    apply within_stack_bind; [destruct scope; discriminate|].
    intros b _. apply within_stack_bind; [|discriminate].
    destruct b; [|discriminate].
    apply within_stack_bind; [apply node_getitem_within_stack | discriminate]. }
  intros [[f0|e|d]|] _; simpl;
    try discriminate;
    try (now apply walk_within_stack);
    try (now apply via_imports_within_stack).
  destruct d; [now apply via_imports_within_stack | now apply walk_within_stack].
Qed.

Lemma fields_loop_within_stack pf scope fields path items :
  forall st,
    (forall k v, In (k, v) items -> depth v < bound) ->
    within_stack (fields_loop rec pf scope fields path items st).
Proof.
  induction items as [|[k v] items IH]; intros st H; simpl; [discriminate|].
  apply within_stack_bind.
  - apply validate_field_within_stack. apply (H k). now left.
  - intros [v1 st1] _.
    apply within_stack_bind; [|intros [r s2] _; discriminate].
    apply IH. intros k' v' Hin. apply (H k'). now right.
Qed.

Lemma validate_structure_body_within_stack pf scope data path nm st :
  depth data <= bound ->
  within_stack (validate_structure_body rec pf scope data path nm st).
Proof.
  intros Hd. unfold validate_structure_body. destruct data; try discriminate.
  apply within_stack_bind; [apply node_getitem_within_stack|].
  intros proto_fields _. apply within_stack_bind.
  { unfold validate_and_del_excess.
    apply within_stack_bind; [apply excess_keys_within_stack|].
    intros ks _.
    apply within_stack_bind; [apply del_keys_within_stack | discriminate]. }
  intros [errs d1] Hdel. apply within_stack_bind.
  { unfold validate_required.
    apply within_stack_bind; [destruct proto_fields; discriminate|].
    intros fs _. apply required_loop_within_stack. }
  intros errs' _.
  apply within_stack_bind; [|intros [d2 s2] _; discriminate].
  apply fields_loop_within_stack. intros k v Hin.
  apply PeanoNat.Nat.lt_le_trans with (depth (PDict d)); [|assumption].
  apply (depth_entry k).
  destruct (del_excess_spec _ _ _ _ Hdel) as [[_ ->] | (fs & _ & ->)];
    [destruct Hin|].
  apply filter_In in Hin. tauto.
Qed.
End ValidatorStack.

(** A recursion limit above the depth of the document is never reached:
    whatever the validator then does, it is not a [RecursionError]. *)
Lemma validate_structure_within_stack fuel :
  forall pf scope data path nm st,
    depth data < fuel ->
    within_stack (validate_structure fuel pf scope data path nm st).
Proof.
  induction fuel as [|fuel IH]; intros pf scope data path nm st Hd; [lia|].
  simpl. apply validate_structure_body_within_stack with (bound := fuel).
  - intros. now apply IH.
  - lia.
Qed.

(** ** Further properties of the validator *)

(** X1.  A value passes the scalar check of a declared type exactly when
    its Python type is the one the table gives for that type: [str] for
    the string types, [float] for the floating-point ones (an [int] is
    refused), [int] for the integer ones (a [bool] is refused), [bool] for
    the boolean ones; a type outside the four tables accepts anything. *)
Theorem X1_base_type_kinds :
  forall proto_type test_value,
    validate_base_type proto_type test_value = None
    <-> ((str_in proto_type STRING_TYPES = true -> typename test_value = "str")
         /\ (str_in proto_type FLOAT_TYPES = true -> typename test_value = "float")
         /\ (str_in proto_type INT_TYPES = true -> typename test_value = "int")
         /\ (str_in proto_type BOOL_TYPES = true -> typename test_value = "bool")).
Proof.
  intros t v. unfold validate_base_type, type_associations.
  cbn [find fst snd].
  destruct (str_in t STRING_TYPES), (str_in t FLOAT_TYPES),
    (str_in t INT_TYPES), (str_in t BOOL_TYPES);
    destruct v; simpl;
    (split;
     [ intros H; try discriminate H;
       repeat split; intros; try discriminate; reflexivity
     | intros (H1 & H2 & H3 & H4); try reflexivity; exfalso;
       repeat match goal with
              | [ H : true = true -> _ |- _ ] => specialize (H eq_refl)
              end;
       discriminate ]).
Qed.

(** *** Excess fields *)

Lemma excess_keys_filter fs ks :
  excess_keys (NDict fs) ks
  = Ok (filter (fun k => negb (dict_mem String.eqb k fs)) ks).
Proof.
  induction ks as [|k ks IH]; simpl; [reflexivity|].
  rewrite IH. simpl. now destruct (dict_mem String.eqb k fs).
Qed.

Lemma dict_mem_del_other k k' (d : list (string * pyval)) :
  k <> k' ->
  dict_mem String.eqb k' (dict_del String.eqb k d) = dict_mem String.eqb k' d.
Proof.
  intros Hne. induction d as [|[k0 v0] d IH]; simpl; [reflexivity|].
  destruct (String.eqb k k0) eqn:E; simpl.
  - apply String.eqb_eq in E. subst k0.
    assert (N : String.eqb k' k = false) by (apply String.eqb_neq; congruence).
    now rewrite N.
  - now rewrite IH.
Qed.

Lemma del_keys_returns ks : forall d,
  NoDup ks ->
  (forall k, In k ks -> dict_mem String.eqb k d = true) ->
  exists d', del_keys ks d = Ok d'.
Proof.
  induction ks as [|k ks IH]; intros d Hnd Hin; simpl; [eauto|].
  unfold delitem. rewrite (Hin k (or_introl eq_refl)). simpl.
  inversion Hnd as [|? ? Hni Hnd']; subst.
  apply IH; [assumption|].
  intros k' Hk'. rewrite dict_mem_del_other.
  - apply Hin. now right.
  - intros ->. contradiction.
Qed.

(** X2.  On a document with distinct keys, the excess-field pass returns:
    it reports one "field is excess" diagnostic for each key the field
    mapping does not declare, in the order of the document, and leaves
    the declared entries in their order. *)
Theorem X2_excess_fields_reported_in_order :
  forall fields test_data,
    NoDup (keys test_data) ->
    validate_and_del_excess (NDict fields) test_data
    = Ok (map FieldExcess
            (filter (fun k => negb (dict_mem String.eqb k fields))
                    (keys test_data)),
          filter (fun kv => dict_mem String.eqb (fst kv) fields) test_data).
Proof.
  intros fs d Hnd.
  destruct (del_keys_returns
              (filter (fun k => negb (dict_mem String.eqb k fs)) (keys d)) d)
    as [d' Hd'].
  - now apply NoDup_filter.
  - intros k Hk. apply filter_In in Hk. now apply dict_mem_In.
  - assert (H : validate_and_del_excess (NDict fs) d
                = Ok (map FieldExcess
                        (filter (fun k => negb (dict_mem String.eqb k fs))
                                (keys d)), d')).
    { unfold validate_and_del_excess. rewrite excess_keys_filter. simpl.
      now rewrite Hd'. }
    rewrite H. f_equal. f_equal.
    destruct (del_excess_spec _ _ _ _ H) as [[-> ->] | (fs' & Hfs & ->)];
      [reflexivity|].
    now injection Hfs as <-.
Qed.

Lemma X2_witness :
  NoDup (keys [("extra", PBool true); ("name", PStr "a"); ("more", PNone)])
  /\ validate_and_del_excess
       (NDict [("name", NField (mkMessageField "string" false true))])
       [("extra", PBool true); ("name", PStr "a"); ("more", PNone)]
     = Ok ([FieldExcess "extra"; FieldExcess "more"], [("name", PStr "a")]).
Proof.
  assert (Hnd : NoDup (keys [("extra", PBool true); ("name", PStr "a");
                             ("more", PNone)])).
  { repeat constructor; simpl; intuition discriminate. }
  split; [exact Hnd|].
  exact (X2_excess_fields_reported_in_order
           [("name", NField (mkMessageField "string" false true))]
           [("extra", PBool true); ("name", PStr "a"); ("more", PNone)] Hnd).
Defined.

(** *** Required fields *)

(** X3.  For a field mapping made of field descriptors, the required-field
    pass returns one "field is required" diagnostic, carrying the field's
    name and declared type, for each field that is marked required and is
    not a key of the document, in declaration order -- whatever else the
    document holds. *)
Theorem X3_required_fields_reported_in_order :
  forall fs test_data,
    validate_required (NDict (declare fs)) test_data
    = Ok (map (fun nf => FieldRequired (fst nf) (type (snd nf)))
            (filter (fun nf => is_required (snd nf)
                               && negb (dict_mem String.eqb (fst nf) test_data))
                    fs)).
Proof.
  intros fs d. unfold validate_required. cbn [node_items bind].
  induction fs as [|[n f] fs IH]; [reflexivity|].
  cbn [declare map fst snd required_loop as_field bind filter].
  unfold declare in IH. rewrite IH. cbn [bind].
  now destruct (is_required f && negb (dict_mem String.eqb n d)).
Qed.

(** *** Documents that are not dictionaries *)

(** X4.  Given a document that is not a plain [dict] (a list, a scalar,
    [None], an [OrderedDict]), [validate_json] does not look into the
    scope at all: whatever the root names -- a message or an enum -- it
    returns a true flag, the single diagnostic "expected structure" under
    the root's name, and the document as it was. *)
Theorem X4_non_dict_document :
  forall fuel proto_file root_field_name proto_scope test_data,
    dict_get String.eqb root_field_name (structure proto_file)
      = Some proto_scope ->
    (forall d, test_data <> PDict d) ->
    validate_json (S fuel) proto_file root_field_name test_data
    = Ok (true,
          [(root_field_name,
            ExpectedStructure root_field_name (typename test_data) test_data)],
          test_data, []).
Proof.
  intros fuel pf root scope data Hroot Hnd.
  unfold validate_json, getitem. rewrite Hroot. cbn [bind validate_structure].
  unfold validate_structure_body.
  destruct data; try reflexivity. exfalso. now apply (Hnd d).
Qed.

Lemma X4_witness :
  validate_json 1 empty_enum "E" (PList [PInt 1])
  = Ok (true, [("E", ExpectedStructure "E" "list" (PList [PInt 1]))],
        PList [PInt 1], []).
Proof.
  apply (X4_non_dict_document 0 empty_enum "E"
           (NEnum (mkEnumField "E" [])) (PList [PInt 1])).
  - reflexivity.
  - discriminate.
Defined.

(** *** Diagnostics accumulate under the path of the call *)

Lemma str_app_assoc (a b c : string) :
  ((a ++ b) ++ c)%string = (a ++ (b ++ c))%string.
Proof. induction a as [|x a IH]; simpl; [reflexivity | now rewrite IH]. Qed.

Lemma str_app_nil (a : string) : (a ++ EmptyString)%string = a.
Proof. induction a as [|x a IH]; simpl; [reflexivity | now rewrite IH]. Qed.

Lemma under_self path m : under path (path, m).
Proof. exists EmptyString. simpl. now rewrite str_app_nil. Qed.

Lemma under_deeper path more e : under (path ++ more)%string e -> under path e.
Proof.
  intros [suffix H]. exists (more ++ suffix)%string.
  now rewrite H, str_app_assoc.
Qed.

Lemma grows_refl path st : grows path st st.
Proof.
  exists [], []. destruct st. simpl. rewrite !app_nil_r. now split.
Qed.

Lemma grows_trans path a b c : grows path a b -> grows path b c -> grows path a c.
Proof.
  intros (e1 & o1 & -> & H1) (e2 & o2 & -> & H2). simpl.
  exists (e1 ++ e2), (o1 ++ o2). rewrite !app_assoc. split; [reflexivity|].
  apply Forall_app. now split.
Qed.

Lemma grows_deeper path more a b :
  grows (path ++ more)%string a b -> grows path a b.
Proof.
  intros (es & out & -> & H). exists es, out. split; [reflexivity|].
  eapply Forall_impl; [|exact H]. intros e. apply under_deeper.
Qed.

Lemma grows_add_error path o st : grows path st (add_error path o st).
Proof.
  destruct o as [m|]; simpl; [|apply grows_refl].
  exists [(path, m)], []. rewrite app_nil_r. split; [reflexivity|].
  constructor; [apply under_self | constructor].
Qed.

Lemma grows_one path m st :
  grows path st (mkState (errors st ++ [(path, m)]) (printed st)).
Proof. apply (grows_add_error path (Some m) st). Qed.

Lemma grows_add_errors path l : forall st, grows path st (add_errors path l st).
Proof.
  induction l as [|o l IH]; intros st; simpl; [apply grows_refl|].
  eapply grows_trans; [apply grows_add_error | apply IH].
Qed.

Lemma grows_print path st lines :
  grows path st (mkState (errors st) (printed st ++ lines)).
Proof. exists [], lines. rewrite app_nil_r. now split. Qed.

Section ValidatorGrows.
Variable rec : ProtoFile -> node -> pyval -> string -> string ->
               vstate -> result (pyval * vstate).
Hypothesis rec_grows :
  forall pf scope v path nm st v' st',
    rec pf scope v path nm st = Ok (v', st') -> grows path st st'.

Lemma validate_multiply_structures_grows pf scope path nm l :
  forall st l' st',
    validate_multiply_structures rec pf scope l path nm st = Ok (l', st') ->
    grows path st st'.
Proof.
  induction l as [|v l IH]; intros st l' st' H; simpl in H.
  - ok_inv H. apply grows_refl.
  - bind_inv H. destruct a as [v1 st1]. bind_inv H. destruct a as [l1 st2].
    ok_inv H. eapply grows_trans; eauto.
Qed.

Lemma map_loop_grows pf proto_type path items :
  forall st items' errs st',
    map_loop rec pf proto_type items path st = Ok (items', errs, st') ->
    grows path st st'.
Proof.
  induction items as [|[k v] items IH]; intros st items' errs st' H; simpl in H.
  - ok_inv H. apply grows_refl.
  - bind_inv H. bind_inv H. destruct a0 as [[v1 err] st1].
    bind_inv H. destruct a0 as [[rest errs1] st2]. ok_inv H.
    eapply grows_trans; [|eapply IH; eassumption].
    destruct (is_base_type a).
    + ok_inv E0. apply grows_refl.
    + bind_inv E0. bind_inv E0. bind_inv E0. destruct a2 as [v2 s2]. ok_inv E0.
      eapply grows_deeper. eauto.
Qed.

Lemma walk_grows f v new_path st pf scope v' st' :
  walk rec f v new_path st pf scope = Ok (v', st') -> grows new_path st st'.
Proof.
  unfold walk. intros H. destruct (is_repeated f); [|eauto].
  bind_inv H. destruct a as [l1 s1]. ok_inv H.
  eapply validate_multiply_structures_grows; eassumption.
Qed.

Lemma via_imports_grows pf f path key v new_path st v' st' :
  via_imports rec pf f path key v new_path st = Ok (v', st') ->
  grows new_path st st'.
Proof.
  unfold via_imports. intros H. destruct (has_in_imports pf (type f)).
  - bind_inv H. bind_inv H. eapply walk_grows; eassumption.
  - ok_inv H. apply grows_print.
Qed.

Lemma validate_field_grows pf scope fields path key v st v' st' :
  validate_field rec pf scope fields path key v st = Ok (v', st') ->
  grows path st st'.
Proof.
  unfold validate_field. intros H. bind_inv H. bind_inv H.
  apply grows_deeper with (more := (" > " ++ key)%string).
  destruct (is_repeated a0 && negb (is_list v)).
  { ok_inv H. apply grows_one. }
  destruct (field_is_base_type a0).
  { ok_inv H. apply grows_add_errors. }
  destruct (field_is_map a0).
  { bind_inv H. destruct a1 as [[v1 errs] st1]. ok_inv H.
    eapply grows_trans; [|apply grows_add_errors].
    unfold validate_map_type in E1. destruct v; try (ok_inv E1; apply grows_refl).
    bind_inv E1. destruct a1 as [[d1 e1] s1]. ok_inv E1.
    eapply map_loop_grows; eassumption. }
  bind_inv H. destruct a1 as [[f|e|d]|].
  - simpl in H. eapply walk_grows; eassumption.
  - ok_inv H. apply grows_add_errors.
  - destruct (truthy (NDict d));
      [eapply walk_grows | eapply via_imports_grows]; eassumption.
  - eapply via_imports_grows; eassumption.
Qed.

Lemma fields_loop_grows pf scope fields path items :
  forall st items' st',
    fields_loop rec pf scope fields path items st = Ok (items', st') ->
    grows path st st'.
Proof.
  induction items as [|[k v] items IH]; intros st items' st' H; simpl in H.
  - ok_inv H. apply grows_refl.
  - bind_inv H. destruct a as [v1 st1]. bind_inv H. destruct a as [rest st2].
    ok_inv H. eapply grows_trans; [eapply validate_field_grows|]; eauto.
Qed.

Lemma validate_structure_body_grows pf scope data path nm st data' st' :
  validate_structure_body rec pf scope data path nm st = Ok (data', st') ->
  grows path st st'.
Proof.
  unfold validate_structure_body. intros H.
  destruct data; try (ok_inv H; apply grows_one).
  bind_inv H. bind_inv H. destruct a0 as [errs d1].
  bind_inv H. bind_inv H. destruct a1 as [d2 st3]. ok_inv H.
  eapply grows_trans; [apply grows_add_errors|].
  eapply grows_trans; [apply grows_add_errors|].
  eapply fields_loop_grows; eassumption.
Qed.
End ValidatorGrows.

Lemma validate_structure_grows fuel :
  forall pf scope data path nm st data' st',
    validate_structure fuel pf scope data path nm st = Ok (data', st') ->
    grows path st st'.
Proof.
  induction fuel as [|fuel IH]; intros pf scope data path nm st data' st' H;
    [discriminate|].
  simpl in H. eapply validate_structure_body_grows; eassumption.
Qed.



(** *** C6: repeated fields *)

(** the generator stores, for a repeated field, the one-element list of
    the value it synthesized for the field *)
Lemma get_fields_repeated gen_rec pf scope items : forall acc acc' field_name f,
  get_fields gen_rec pf scope items acc = Ok acc' ->
  NoDup (keys items) ->
  In (field_name, NField f) items ->
  is_repeated f = true ->
  exists v, synthesized gen_rec pf scope f = Ok v
            /\ dict_get String.eqb field_name acc' = Some (PList [v]).
Proof.
  induction items as [|[n x] items IH];
    intros acc acc' field_name f H Hnd Hin Hrep; [destruct Hin|].
  simpl in H. bind_inv H.
  inversion Hnd as [|? ? Hni Hnd']; subst.
  destruct Hin as [Heq | Hin]; [|eapply IH; eassumption].
  injection Heq as -> ->.
  rewrite get_field_value in E. cbn [as_field bind] in E.
  bind_inv E. injection E as <-.
  exists a0. split; [assumption|].
  assert (Hkeep : forall its b b',
             get_fields gen_rec pf scope its b = Ok b' ->
             ~ In field_name (keys its) ->
             dict_get String.eqb field_name b' = dict_get String.eqb field_name b).
  { clear. induction its as [|[n x] its IH]; intros b b' H Hni; simpl in H.
    - now injection H as <-.
    - bind_inv H. rewrite (IH _ _ H) by (simpl in Hni; tauto).
      rewrite get_field_value in E. bind_inv E. bind_inv E. injection E as <-.
      apply dict_get_set_other. intros ->. apply Hni. now left. }
  rewrite (Hkeep _ _ _ H Hni), dict_get_set_same.
  unfold stored. now rewrite Hrep.
Qed.

Lemma fields_loop_app rec pf scope fields path l1 : forall l2 st,
  fields_loop rec pf scope fields path (l1 ++ l2) st
  = ('(l1', st1) <- fields_loop rec pf scope fields path l1 st ;;
     '(l2', st2) <- fields_loop rec pf scope fields path l2 st1 ;;
     Ok (l1' ++ l2', st2)).
Proof.
  induction l1 as [|[k v] l1 IH]; intros l2 st.
  - cbn [app fields_loop bind].
    destruct (fields_loop rec pf scope fields path l2 st) as [[l2' st2]|];
      reflexivity.
  - cbn [app fields_loop].
    destruct (validate_field rec pf scope fields path k v st) as [[v' st1]|];
      [|reflexivity].
    cbn [bind]. rewrite IH.
    destruct (fields_loop rec pf scope fields path l1 st1) as [[l1' st2]|];
      [|reflexivity].
    cbn [bind].
    destruct (fields_loop rec pf scope fields path l2 st2) as [[l2' st3]|];
      reflexivity.
Qed.

Lemma fields_loop_keys rec pf scope fields path items : forall st items' st',
  fields_loop rec pf scope fields path items st = Ok (items', st') ->
  keys items' = keys items.
Proof.
  induction items as [|[k v] items IH]; intros st items' st' H; simpl in H.
  - now ok_inv H.
  - bind_inv H. destruct a as [v1 st1]. bind_inv H. destruct a as [rest st2].
    ok_inv H. simpl. f_equal. eapply IH; eassumption.
Qed.

(** the round of a repeated field whose value is not a list *)
Lemma validate_field_not_a_list rec pf scope fields path key value st f :
  dict_get String.eqb key fields = Some (NField f) ->
  is_repeated f = true ->
  is_list value = false ->
  validate_field rec pf scope (NDict fields) path key value st
  = Ok (value,
        mkState (errors st ++
                 [((path ++ " > " ++ key)%string,
                   ExpectedArray (type f) (typename value))])
                (printed st)).
Proof.
  intros Hf Hrep Hl. unfold validate_field, node_getitem, getitem.
  rewrite Hf. cbn [as_field bind]. now rewrite Hrep, Hl.
Qed.

(** The loop of [__validate_structure] around such a field: the fields
    before it are validated, the diagnostic is added, and the fields after
    it are validated from there; the value stays where it is. *)
Lemma not_a_list_round fuel pf scope fields d key value f path nm st doc st' :
  node_getitem scope FIELDS_KEY = Ok (NDict fields) ->
  In (key, value) d ->
  dict_get String.eqb key fields = Some (NField f) ->
  is_repeated f = true ->
  is_list value = false ->
  validate_structure (S fuel) pf scope (PDict d) path nm st = Ok (doc, st') ->
  exists before after before' after' st0 st1,
    filter (fun kv => dict_mem String.eqb (fst kv) fields) d
    = before ++ (key, value) :: after
    /\ fields_loop (validate_structure fuel) pf scope (NDict fields) path
                   before st0 = Ok (before', st1)
    /\ fields_loop (validate_structure fuel) pf scope (NDict fields) path after
         (mkState (errors st1 ++
                   [((path ++ " > " ++ key)%string,
                     ExpectedArray (type f) (typename value))])
                  (printed st1))
       = Ok (after', st')
    /\ doc = PDict (before' ++ (key, value) :: after').
Proof.
  intros Hfields Hin Hf Hrep Hl H.
  cbn [validate_structure] in H. unfold validate_structure_body in H.
  rewrite Hfields in H. cbn [bind] in H.
  bind_inv H. destruct a as [errs d1]. bind_inv H. bind_inv H.
  destruct a0 as [d2 st3]. injection H as <- <-.
  assert (Hd1 : d1 = filter (fun kv => dict_mem String.eqb (fst kv) fields) d).
  { destruct (del_excess_spec _ _ _ _ E) as [[-> _] | (fs' & Hfs & ->)];
      [destruct Hin | now injection Hfs as <-]. }
  assert (Hin1 : In (key, value) d1).
  { subst d1. apply filter_In. split; [assumption|].
    cbn [fst]. now rewrite dict_mem_dict_get, Hf. }
  destruct (in_split _ _ Hin1) as (before & after & Hsplit).
  rewrite Hsplit, fields_loop_app in E1.
  bind_inv E1. destruct a0 as [before' st1]. bind_inv E1.
  destruct a0 as [rest st2]. injection E1 as <- <-.
  cbn [fields_loop] in E3.
  rewrite (validate_field_not_a_list _ pf scope fields path key value st1 f
             Hf Hrep Hl) in E3.
  cbn [bind] in E3. bind_inv E3. destruct a0 as [after' st4].
  injection E3 as <- <-.
  exists before, after, before', after'. eexists. exists st1.
  rewrite <- Hd1. split; [exact Hsplit|].
  split; [exact E2|]. split; [eassumption | reflexivity].
Qed.

(** C6.  (1) In the object the generator builds for a scope, every field
    declared repeated holds a list of exactly one element, and that
    element is the value the generator synthesized for the field.
    (2) When [validate_json] returns for a document that holds, under a
    field declared repeated, a value that is not a list, the flag is
    true, the diagnostic "expected array of [type], got [kind]" is among
    the diagnostics under the field's path, and the value is left as it
    was.  (3) In any call of [__validate_structure] that returns, the
    round of such a field does nothing else: the fields before it are
    validated, the one diagnostic is added to the state they left, the
    fields after it are validated from there, and the value stays in
    its place. *)
Theorem C6_repeated_fields :
  (forall fuel proto_file structure_field fields doc field_name f,
      node_getitem structure_field FIELDS_KEY = Ok (NDict fields) ->
      NoDup (keys fields) ->
      In (field_name, NField f) fields ->
      is_repeated f = true ->
      get_object (S fuel) proto_file structure_field = Ok doc ->
      exists d v,
        doc = POrderedDict d
        /\ synthesized (get_object fuel) proto_file structure_field f = Ok v
        /\ dict_get String.eqb field_name d = Some (PList [v]))
  /\
  (forall fuel proto_file root_field_name proto_scope fields d test_key
          test_value f flag errs doc out,
      dict_get String.eqb root_field_name (structure proto_file)
        = Some proto_scope ->
      node_getitem proto_scope FIELDS_KEY = Ok (NDict fields) ->
      NoDup (keys d) ->
      In (test_key, test_value) d ->
      dict_get String.eqb test_key fields = Some (NField f) ->
      is_repeated f = true ->
      is_list test_value = false ->
      validate_json fuel proto_file root_field_name (PDict d)
        = Ok (flag, errs, doc, out) ->
      flag = true
      /\ In ((root_field_name ++ " > " ++ test_key)%string,
             ExpectedArray (type f) (typename test_value)) errs
      /\ exists d', doc = PDict d'
                    /\ dict_get String.eqb test_key d' = Some test_value)
  /\
  (forall fuel proto_file proto_scope fields d test_key test_value f
          test_path scope_name st doc st',
      node_getitem proto_scope FIELDS_KEY = Ok (NDict fields) ->
      In (test_key, test_value) d ->
      dict_get String.eqb test_key fields = Some (NField f) ->
      is_repeated f = true ->
      is_list test_value = false ->
      validate_structure (S fuel) proto_file proto_scope (PDict d) test_path
                         scope_name st = Ok (doc, st') ->
      exists before after before' after' st0 st1,
        filter (fun kv => dict_mem String.eqb (fst kv) fields) d
        = before ++ (test_key, test_value) :: after
        /\ fields_loop (validate_structure fuel) proto_file proto_scope
                       (NDict fields) test_path before st0
           = Ok (before', st1)
        /\ fields_loop (validate_structure fuel) proto_file proto_scope
                       (NDict fields) test_path after
             (mkState (errors st1 ++
                       [((test_path ++ " > " ++ test_key)%string,
                         ExpectedArray (type f) (typename test_value))])
                      (printed st1))
           = Ok (after', st')
        /\ doc = PDict (before' ++ (test_key, test_value) :: after')).
Proof.
  split; [|split].
  - intros fuel pf scope fields doc field_name f Hf Hnd Hin Hrep H.
    cbn [get_object] in H. unfold get_object_body in H.
    rewrite Hf in H. cbn [bind node_items] in H.
    bind_inv H. injection H as <-.
    destruct (get_fields_repeated _ _ _ _ _ _ _ _ E Hnd Hin Hrep)
      as (v & Hv & Hget).
    eauto.
  - intros fuel pf root scope fields d key value f flag errs doc out
           Hroot Hfields Hnd Hin Hf Hrep Hl H.
    unfold validate_json, getitem in H. rewrite Hroot in H. cbn [bind] in H.
    bind_inv H. destruct a as [doc' st']. injection H as <- <- <- <-.
    destruct fuel as [|fuel]; [discriminate|].
    destruct (not_a_list_round _ _ _ _ _ _ _ _ _ _ _ _ _
                Hfields Hin Hf Hrep Hl E)
      as (before & after & before' & after' & st0 & st1
          & Hsplit & Hb & Ha & ->).
    assert (Herr : In ((root ++ " > " ++ key)%string,
                       ExpectedArray (type f) (typename value)) (errors st')).
    { destruct (fields_loop_grows (validate_structure fuel)
                  (validate_structure_grows fuel) _ _ _ _ _ _ _ _ Ha)
        as (es & o & -> & _).
      cbn [errors]. apply in_or_app. left. apply in_or_app. right. now left. }
    split; [|split; [exact Herr|]].
    + destruct (errors st'); [destruct Herr | reflexivity].
    + eexists. split; [reflexivity|].
      apply dict_get_In; [|apply in_or_app; right; now left].
      assert (Hk : keys (before' ++ (key, value) :: after')
                   = keys (before ++ (key, value) :: after)).
      { unfold keys. rewrite !map_app. cbn [map].
        fold (keys before') (keys after') (keys before) (keys after).
        now rewrite (fields_loop_keys _ _ _ _ _ _ _ _ _ Hb),
          (fields_loop_keys _ _ _ _ _ _ _ _ _ Ha). }
      rewrite Hk, <- Hsplit.
      rewrite (keys_filter (fun k => dict_mem String.eqb k fields)).
      now apply NoDup_filter.
  - intros. eapply not_a_list_round; eassumption.
Qed.

Lemma C6_witness :
  (exists d v,
      as_object 1 scenario "M" = Ok (POrderedDict d)
      /\ synthesized (get_object 0) scenario
           (NDict [(FIELDS_KEY,
                    NDict [("name", NField (mkMessageField "string" false true));
                           ("tags", NField (mkMessageField "int32" true false))])])
           (mkMessageField "int32" true false) = Ok v
      /\ dict_get String.eqb "tags" d = Some (PList [v]))
  /\
  (validate_json 1 scenario "M"
     (PDict [("tags", PInt 100); ("colour", PNone); ("name", PStr "n")])
   = Ok (true,
         [("M", FieldExcess "colour");
          ("M > tags", ExpectedArray "int32" "int")],
         PDict [("tags", PInt 100); ("name", PStr "n")], [])
   /\ In ("M > tags", ExpectedArray "int32" "int")
         [("M", FieldExcess "colour");
          ("M > tags", ExpectedArray "int32" "int")]
   /\ exists d', PDict [("tags", PInt 100); ("name", PStr "n")] = PDict d'
                 /\ dict_get String.eqb "tags" d' = Some (PInt 100))
  /\
  (exists before after before' after' st0 st1,
      [("tags", PInt 100); ("name", PStr "n")]
      = before ++ ("tags", PInt 100) :: after
      /\ fields_loop (validate_structure 0) scenario
           (NDict [(FIELDS_KEY,
                    NDict [("name", NField (mkMessageField "string" false true));
                           ("tags", NField (mkMessageField "int32" true false))])])
           (NDict [("name", NField (mkMessageField "string" false true));
                   ("tags", NField (mkMessageField "int32" true false))])
           "M" before st0
         = Ok (before', st1)
      /\ fields_loop (validate_structure 0) scenario
           (NDict [(FIELDS_KEY,
                    NDict [("name", NField (mkMessageField "string" false true));
                           ("tags", NField (mkMessageField "int32" true false))])])
           (NDict [("name", NField (mkMessageField "string" false true));
                   ("tags", NField (mkMessageField "int32" true false))])
           "M" after
           (mkState (errors st1 ++ [("M > tags", ExpectedArray "int32" "int")])
                    (printed st1))
         = Ok (after',
               mkState [("M", FieldExcess "colour");
                        ("M > tags", ExpectedArray "int32" "int")] [])
      /\ PDict [("tags", PInt 100); ("name", PStr "n")]
         = PDict (before' ++ ("tags", PInt 100) :: after')).
Proof.
  split; [|split].
  - destruct (proj1 C6_repeated_fields 0 scenario
                (NDict [(FIELDS_KEY,
                         NDict [("name", NField (mkMessageField "string" false true));
                                ("tags", NField (mkMessageField "int32" true false))])])
                [("name", NField (mkMessageField "string" false true));
                 ("tags", NField (mkMessageField "int32" true false))]
                (POrderedDict [("name", PStr "String"); ("tags", PList [PInt 50])])
                "tags" (mkMessageField "int32" true false))
      as (d & v & Hd & Hs & Hv).
    + reflexivity.
    + repeat constructor; simpl; intuition discriminate.
    + simpl. auto.
    + reflexivity.
    + reflexivity.
    + exists d, v. split; [now rewrite <- Hd | split; [exact Hs | exact Hv]].
  - split; [reflexivity|].
    apply (proj1 (proj2 C6_repeated_fields) 1 scenario "M"
             (NDict [(FIELDS_KEY,
                      NDict [("name", NField (mkMessageField "string" false true));
                             ("tags", NField (mkMessageField "int32" true false))])])
             [("name", NField (mkMessageField "string" false true));
              ("tags", NField (mkMessageField "int32" true false))]
             [("tags", PInt 100); ("colour", PNone); ("name", PStr "n")]
             "tags" (PInt 100) (mkMessageField "int32" true false)
             true
             [("M", FieldExcess "colour");
              ("M > tags", ExpectedArray "int32" "int")]
             (PDict [("tags", PInt 100); ("name", PStr "n")]) []).
    + reflexivity.
    + reflexivity.
    + repeat constructor; simpl; intuition discriminate.
    + simpl. auto.
    + reflexivity.
    + reflexivity.
    + reflexivity.
    + reflexivity.
  - apply (proj2 (proj2 C6_repeated_fields) 0 scenario
             (NDict [(FIELDS_KEY,
                      NDict [("name", NField (mkMessageField "string" false true));
                             ("tags", NField (mkMessageField "int32" true false))])])
             [("name", NField (mkMessageField "string" false true));
              ("tags", NField (mkMessageField "int32" true false))]
             [("tags", PInt 100); ("colour", PNone); ("name", PStr "n")]
             "tags" (PInt 100) (mkMessageField "int32" true false)
             "M" "M" (mkState [] [])
             (PDict [("tags", PInt 100); ("name", PStr "n")])
             (mkState [("M", FieldExcess "colour");
                       ("M > tags", ExpectedArray "int32" "int")] [])).
    + reflexivity.
    + simpl. auto.
    + reflexivity.
    + reflexivity.
    + reflexivity.
    + reflexivity.
Defined.

(** *** Recursion depth *)

(** X6.  The validator descends only into the document: with a recursion
    limit above the document's nesting depth, [validate_json] never ends
    in [RecursionError], whatever the schema is -- recursive message types
    included. *)
Theorem X6_validation_depth_bounded_by_document :
  forall fuel proto_file root_field_name test_data,
    depth test_data < fuel ->
    validate_json fuel proto_file root_field_name test_data
    <> Raise RecursionError.
Proof.
  intros fuel pf root data Hd. unfold validate_json.
  apply within_stack_bind; [apply getitem_within_stack|].
  intros scope _.
  apply within_stack_bind; [now apply validate_structure_within_stack|].
  intros [d st] _. discriminate.
Qed.

Lemma X6_witness :
  depth (PDict [("b", PDict [("x", PStr "Optional string")])]) < 3
  /\ validate_json 3 shadow "A"
       (PDict [("b", PDict [("x", PStr "Optional string")])])
     <> Raise RecursionError.
Proof.
  assert (Hd : depth (PDict [("b", PDict [("x", PStr "Optional string")])]) < 3)
    by (simpl; lia).
  split; [exact Hd|].
  exact (X6_validation_depth_bounded_by_document 3 shadow "A"
           (PDict [("b", PDict [("x", PStr "Optional string")])]) Hd).
Defined.

(** *** Fields whose type names nothing, and enum fields *)

(** X7.  When the declared type of a document field is not a scalar, not
    a map, names no entry of the scope or of the file and no imported
    message, the validator prints its two lines on the console and does
    nothing else: the value stays, and no diagnostic is recorded for the
    field. *)
Theorem X7_unresolved_type_only_prints :
  forall rec proto_file scope fields test_path test_key test_value st f,
    dict_get String.eqb test_key fields = Some (NField f) ->
    is_repeated f && negb (is_list test_value) = false ->
    field_is_base_type f = false ->
    field_is_map f = false ->
    dict_get String.eqb (type f) scope = None ->
    dict_get String.eqb (type f) (structure proto_file) = None ->
    has_in_imports proto_file (type f) = false ->
    validate_field rec proto_file (NDict scope) (NDict fields) test_path
                   test_key test_value st
    = Ok (test_value,
          mkState (errors st)
                  (printed st ++ unresolved_lines test_path test_key)).
Proof.
  intros rec pf scope fields path key v st f Hget Hrep Hbase Hmap Hs Ht Hi.
  unfold validate_field. cbn [node_getitem]. unfold getitem.
  rewrite Hget. cbn [bind as_field]. rewrite Hrep, Hbase, Hmap.
  unfold scoped_proto_type. cbn [node_contains bind].
  rewrite dict_mem_dict_get, Hs, Ht. cbn [bind].
  unfold via_imports. now rewrite Hi.
Qed.

Lemma X7_witness :
  validate_field (validate_structure 0) scenario
    (NDict [(FIELDS_KEY,
             NDict [("x", NField (mkMessageField "Foo" false false))])])
    (NDict [("x", NField (mkMessageField "Foo" false false))])
    "M" "x" (PInt 1) (mkState [] [])
  = Ok (PInt 1, mkState [] (unresolved_lines "M" "x")).
Proof.
  apply (X7_unresolved_type_only_prints (validate_structure 0) scenario
           [(FIELDS_KEY, NDict [("x", NField (mkMessageField "Foo" false false))])]
           [("x", NField (mkMessageField "Foo" false false))]
           "M" "x" (PInt 1) (mkState [] [])
           (mkMessageField "Foo" false false));
    reflexivity.
Defined.

(** X8.  For a field that is not repeated and whose type resolves to an
    enum, a value that is one of the enum's declared value strings leaves
    the state untouched; any other value -- another string, a number, a
    list -- records exactly one "unknown value" diagnostic under the
    field's path.  The value itself is never changed. *)
Theorem X8_enum_field_membership :
  forall rec proto_file proto_scope fields test_path test_key test_value st f e,
    dict_get String.eqb test_key fields = Some (NField f) ->
    is_repeated f = false ->
    field_is_base_type f = false ->
    field_is_map f = false ->
    scoped_proto_type proto_file proto_scope (type f) = Ok (Some (NEnum e)) ->
    validate_field rec proto_file proto_scope (NDict fields) test_path
                   test_key test_value st
    = Ok (test_value,
          if enum_member e test_value then st
          else mkState
                 (errors st ++
                  [((test_path ++ " > " ++ test_key)%string,
                    UnknownEnumValue test_value (name e))])
                 (printed st)).
Proof.
  intros rec pf scope fields path key v st f e Hget Hrep Hbase Hmap Hs.
  unfold validate_field. cbn [node_getitem]. unfold getitem.
  rewrite Hget. cbn [bind as_field]. rewrite Hrep, Hbase, Hmap, Hs.
  cbn [andb bind]. unfold validate_enum_type, enum_member.
  now destruct (match v with PStr s => str_in s (values e) | _ => false end).
Qed.

Lemma X8_witness :
  validate_field (validate_structure 0) button
    (NDict [("Kind", NEnum (mkEnumField "Kind" ["FLAT"; "RAISED"]))])
    (NDict [("kind", NField (mkMessageField "Kind" false false))])
    "Button" "kind" (PStr "BLUE") (mkState [] [])
  = Ok (PStr "BLUE",
        mkState [("Button > kind", UnknownEnumValue (PStr "BLUE") "Kind")] []).
Proof.
  apply (X8_enum_field_membership (validate_structure 0) button
           (NDict [("Kind", NEnum (mkEnumField "Kind" ["FLAT"; "RAISED"]))])
           [("kind", NField (mkMessageField "Kind" false false))]
           "Button" "kind" (PStr "BLUE") (mkState [] [])
           (mkMessageField "Kind" false false)
           (mkEnumField "Kind" ["FLAT"; "RAISED"]));
    reflexivity.
Defined.

(** *** Imports *)

(** X9.  [has_in_imports] is exactly the guard of the two import lookups:
    it answers true if and only if [get_import_package_as_structure]
    returns a scope, and then [get_import_package] returns the imported
    file that holds it.  A type name without a dot is never an import and
    makes both lookups raise [ValueError]. *)
Theorem X9_has_in_imports_guards_lookups :
  forall proto_file field_type,
    (has_in_imports proto_file field_type = true
     <-> exists scope,
           get_import_package_as_structure proto_file field_type = Ok scope)
    /\ (has_in_imports proto_file field_type = true ->
        exists pkg scope msg,
          get_import_package proto_file field_type = Ok pkg
          /\ get_import_package_as_structure proto_file field_type = Ok scope
          /\ dict_get String.eqb msg (structure pkg) = Some scope)
    /\ (split_dot field_type = None ->
        has_in_imports proto_file field_type = false
        /\ get_import_package proto_file field_type = Raise ValueError
        /\ get_import_package_as_structure proto_file field_type
           = Raise ValueError).
Proof.
  intros pf t.
  unfold has_in_imports, get_import_package, get_import_package_as_structure,
    getitem.
  destruct (split_dot t) as [[pkg msg]|].
  - destruct (dict_get opt_eqb (Some pkg) (imports pf)) as [p|]; cbn [bind].
    + rewrite dict_mem_dict_get.
      destruct (dict_get String.eqb msg (structure p)) as [x|] eqn:X.
      * split; [split; [eauto | reflexivity]|].
        split; [|discriminate].
        intros _. exists p, x, msg. auto.
      * split; [split; [discriminate | intros [scope H]; discriminate]|].
        split; discriminate.
    + split; [split; [discriminate | intros [scope H]; discriminate]|].
      split; discriminate.
  - split; [split; [discriminate | intros [scope H]; discriminate]|].
    split; [discriminate|]. intros _. auto.
Qed.

Lemma X9_witness :
  has_in_imports button "core.Icon" = true
  /\ exists pkg scope msg,
       get_import_package button "core.Icon" = Ok pkg
       /\ get_import_package_as_structure button "core.Icon" = Ok scope
       /\ dict_get String.eqb msg (structure pkg) = Some scope.
Proof.
  assert (H : has_in_imports button "core.Icon" = true) by reflexivity.
  split; [exact H|].
  exact (proj1 (proj2 (X9_has_in_imports_guards_lookups button "core.Icon")) H).
Defined.

(** ** Further properties of the generator *)

(** X10.  The object generated for a scope has exactly the declared field
    names as its keys, in declaration order. *)
Theorem X10_generated_keys_in_declaration_order :
  forall fuel proto_file structure_field fields doc,
    node_getitem structure_field FIELDS_KEY = Ok (NDict fields) ->
    NoDup (keys fields) ->
    get_object fuel proto_file structure_field = Ok doc ->
    exists d, doc = POrderedDict d /\ keys d = keys fields.
Proof.
  intros fuel pf scope fields doc Hf Hnd H.
  destruct fuel as [|fuel]; [discriminate|].
  simpl in H. unfold get_object_body in H. rewrite Hf in H. simpl in H.
  bind_inv H. ok_inv H.
  destruct (get_fields_entries _ _ _ _ _ _ E Hnd) as (vs & -> & Hvs);
    [reflexivity|].
  exists vs. split; [reflexivity|].
  eapply entries_keys. eassumption.
Qed.

Lemma X10_witness :
  exists d, button_doc = POrderedDict d
            /\ keys d = ["label"; "themes"; "kind"; "icon"; "enabled"].
Proof.
  destruct (X10_generated_keys_in_declaration_order 2 button
              (NDict
                 [(FIELDS_KEY,
                   NDict
                     [("label", NField (mkMessageField "string" false true));
                      ("themes", NField (mkMessageField "Theme" true false));
                      ("kind", NField (mkMessageField "Kind" false false));
                      ("icon", NField (mkMessageField "core.Icon" false false));
                      ("enabled", NField (mkMessageField "bool" false false))]);
                  ("Theme",
                   NDict [(FIELDS_KEY,
                           NDict [("scale",
                                   NField (mkMessageField "double" false false))])]);
                  ("Kind", NEnum (mkEnumField "Kind" ["FLAT"; "RAISED"]))])
              [("label", NField (mkMessageField "string" false true));
               ("themes", NField (mkMessageField "Theme" true false));
               ("kind", NField (mkMessageField "Kind" false false));
               ("icon", NField (mkMessageField "core.Icon" false false));
               ("enabled", NField (mkMessageField "bool" false false))]
              button_doc)
    as (d & Hd & Hk).
  - reflexivity.
  - repeat constructor; simpl; intuition discriminate.
  - reflexivity.
  - exists d. split; [exact Hd | exact Hk].
Defined.

Lemma get_fields_stops rec pf scope items : forall n x,
  In (n, x) items ->
  (forall acc acc', get_field rec pf scope acc n x <> Ok acc') ->
  forall acc acc', get_fields rec pf scope items acc <> Ok acc'.
Proof.
  induction items as [|[k y] items IH]; intros n x Hin Hbad acc acc' H;
    [destruct Hin|].
  simpl in H. bind_inv H. destruct Hin as [Heq | Hin].
  - inversion Heq; subst. exact (Hbad _ _ E).
  - exact (IH _ _ Hin Hbad _ _ H).
Qed.

(** X11.  A message with a field of its own type -- the type is not a
    scalar, not imported, not nested in the scope, and the file's
    top-level entry of that name is the scope itself -- never gets an
    example: whatever the recursion limit, [__get_object] does not return
    a document for it. *)
Theorem X11_self_reference_never_generates :
  forall proto_file scope fields field_name f,
    dict_get String.eqb FIELDS_KEY scope = Some (NDict fields) ->
    In (field_name, NField f) fields ->
    get_default_value_for_field f = None ->
    has_in_imports proto_file (type f) = false ->
    dict_get String.eqb (type f) scope = None ->
    dict_get String.eqb (type f) (structure proto_file) = Some (NDict scope) ->
    forall fuel doc, get_object fuel proto_file (NDict scope) <> Ok doc.
Proof.
  intros pf scope fields fname f Hf Hin D I Hs Ht.
  induction fuel as [|fuel IH]; intros doc H; [discriminate|].
  simpl in H. unfold get_object_body in H.
  cbn [node_getitem] in H. unfold getitem in H. rewrite Hf in H.
  cbn [bind node_items] in H. bind_inv H.
  apply (get_fields_stops _ _ _ _ _ _ Hin) in E; [exact E|].
  intros acc acc' Hg. rewrite get_field_value in Hg.
  cbn [as_field bind] in Hg. bind_inv Hg.
  unfold synthesized in E0. rewrite D, I in E0.
  cbn [node_contains bind] in E0.
  rewrite dict_mem_dict_get, Hs, Ht in E0. cbn [bind] in E0.
  exact (IH _ E0).
Qed.

Lemma X11_witness :
  get_default_value_for_field (mkMessageField "Node" false false) = None
  /\ forall fuel doc,
    get_object fuel
      (mkProtoFile None None []
         [("Node",
           NDict [(FIELDS_KEY,
                   NDict [("label", NField (mkMessageField "string" false false));
                          ("next", NField (mkMessageField "Node" false false))])])])
      (NDict [(FIELDS_KEY,
               NDict [("label", NField (mkMessageField "string" false false));
                      ("next", NField (mkMessageField "Node" false false))])])
    <> Ok doc.
Proof.
  split; [reflexivity|].
  apply (X11_self_reference_never_generates
           (mkProtoFile None None []
              [("Node",
                NDict [(FIELDS_KEY,
                        NDict [("label", NField (mkMessageField "string" false false));
                               ("next", NField (mkMessageField "Node" false false))])])])
           [(FIELDS_KEY,
             NDict [("label", NField (mkMessageField "string" false false));
                    ("next", NField (mkMessageField "Node" false false))])]
           [("label", NField (mkMessageField "string" false false));
            ("next", NField (mkMessageField "Node" false false))]
           "next" (mkMessageField "Node" false false)).
  - reflexivity.
  - simpl. auto.
  - reflexivity.
  - reflexivity.
  - reflexivity.
  - reflexivity.
Defined.





(** ** Further properties of the parser *)

Lemma node_at_app p : forall q b,
  node_at (p ++ q) b = (x <- node_at p b ;; node_at q x).
Proof.
  induction p as [|n p IH]; intros q b; simpl; [reflexivity|].
  destruct (node_getitem b n); simpl; auto.
Qed.

(** what [node_update] did, read back with [node_at] *)
Lemma node_update_at path f : forall b b',
  node_update path f b = Ok b' ->
  exists x x', node_at path b = Ok x /\ f x = Ok x' /\ node_at path b' = Ok x'.
Proof.
  induction path as [|n path IH]; intros b b' H; simpl in H.
  - exists b, b'. simpl. auto.
  - bind_inv H. bind_inv H.
    destruct (IH _ _ E0) as (x & x' & Hx & Hf & Hx').
    destruct b as [?|?|d]; try discriminate. simpl in H. ok_inv H.
    exists x, x'. simpl in *. rewrite E. simpl.
    unfold getitem. rewrite dict_get_set_same. simpl. auto.
Qed.

(** [node_update] returns whenever the path can be followed and the
    update of its end returns *)
Lemma node_update_returns path f : forall b x x',
  node_at path b = Ok x -> f x = Ok x' ->
  exists b', node_update path f b = Ok b' /\ node_at path b' = Ok x'.
Proof.
  induction path as [|n path IH]; intros b x x' Hat Hf; simpl in *.
  - ok_inv Hat. eauto.
  - bind_inv Hat. destruct (IH _ _ _ Hat Hf) as (y' & Hu & Hy').
    rewrite E. simpl. rewrite Hu. simpl.
    destruct b as [?|?|d]; try discriminate. simpl.
    eexists. split; [reflexivity|]. simpl.
    unfold getitem. rewrite dict_get_set_same. simpl. assumption.
Qed.

Lemma node_at_removelast path b x :
  path <> [] -> node_at path b = Ok x ->
  exists d, node_at (removelast path) b = Ok (NDict d).
Proof.
  intros Hne H.
  rewrite (app_removelast_last EmptyString Hne), node_at_app in H.
  bind_inv H. simpl in H. bind_inv H.
  destruct a as [?|?|d]; try discriminate. eauto.
Qed.

Lemma block_open_update s b path f b' s' :
  node_update path f b = Ok b' ->
  (forall x x', f x = Ok x' -> exists d, x' = NDict d) ->
  path <> [] ->
  message_block s' = Some b' ->
  message_names_path s' = path ->
  block_open s -> block_open s'.
Proof.
  intros Hu Hf Hne Hb Hp _. unfold block_open. rewrite Hb, Hp.
  split; [assumption|].
  destruct (node_update_at _ _ _ _ Hu) as (x & x' & _ & Hfx & Hat).
  destruct (Hf _ _ Hfx) as [d ->]. eauto.
Qed.

Lemma setitem_dict x key v x' :
  node_setitem x key v = Ok x' -> exists d, x' = NDict d.
Proof. destruct x; simpl; intros H; try discriminate. ok_inv H. eauto. Qed.

Lemma add_message_open nm s s' :
  block_open s -> add_message nm s = Ok s' -> block_open s'.
Proof.
  unfold block_open, add_message. intros Hopen H.
  destruct (message_block s) as [b|].
  - destruct Hopen as [Hne [d Hd]]. bind_inv H. ok_inv H. simpl.
    split; [now destruct (message_names_path s)|].
    destruct (node_update_at _ _ _ _ E) as (x & x' & Hx & Hfx & Hat).
    rewrite node_at_app, Hat. simpl.
    destruct x as [?|?|dx]; try discriminate. simpl in Hfx. ok_inv Hfx.
    simpl. unfold getitem. rewrite dict_get_set_same. unfold empty_scope.
    simpl. eauto.
  - ok_inv H. simpl. rewrite Hopen. simpl.
    split; [discriminate|].
    unfold getitem. simpl. rewrite String.eqb_refl. unfold empty_scope.
    simpl. eauto.
Qed.

Lemma add_enum_open nm s s' :
  block_open s -> add_enum nm s = Ok s' -> block_open s'.
Proof.
  unfold add_enum. cbv zeta. cbn [message_block set_enum message_names_path].
  intros Hopen H. unfold block_open in Hopen.
  destruct (message_block s) as [b|] eqn:B.
  - destruct Hopen as [Hne Hd]. bind_inv H. ok_inv H.
    eapply (block_open_update s); try eassumption; try reflexivity.
    + intros x x'. apply setitem_dict.
    + unfold block_open. rewrite B. now split.
  - ok_inv H. unfold block_open. simpl. now rewrite B.
Qed.

Lemma set_enum_value_open value s s' :
  block_open s -> set_enum_value value s = Ok s' -> block_open s'.
Proof.
  unfold set_enum_value. intros Hopen H.
  destruct (message_block s) as [b|] eqn:B.
  - bind_inv H. ok_inv H.
    pose proof Hopen as Ho. unfold block_open in Ho. rewrite B in Ho.
    eapply (block_open_update s); try eassumption; try reflexivity; [|tauto].
    intros x x' Hf. destruct (enum_name s).
    + bind_inv Hf. bind_inv Hf. eapply setitem_dict; eassumption.
    + destruct x; discriminate.
  - bind_inv H. bind_inv H. destruct (enum_name s); [|discriminate]. ok_inv H.
    unfold block_open in *. simpl. now rewrite B in *.
Qed.

Lemma add_field_open nm f s s' :
  block_open s -> add_field nm f s = Ok s' -> block_open s'.
Proof.
  unfold add_field. intros Hopen H.
  destruct (message_block s) as [b|] eqn:B; [|now ok_inv H].
  bind_inv H. ok_inv H.
  pose proof Hopen as Ho. unfold block_open in Ho. rewrite B in Ho.
  eapply (block_open_update s); try eassumption; try reflexivity; [|tauto].
  intros x x' Hf. bind_inv Hf. bind_inv Hf. eapply setitem_dict; eassumption.
Qed.

Lemma close_block_open s s' :
  block_open s -> close_block s = Ok s' -> block_open s'.
Proof.
  unfold close_block, block_open. intros Hopen H.
  destruct (is_enum_block s); [now ok_inv H|].
  destruct (is_oneof_block s); [now ok_inv H|].
  destruct (1 <? List.length (message_names_path s))%nat eqn:L.
  - ok_inv H. simpl. destruct (message_block s) as [b|].
    + destruct Hopen as [Hne [d Hd]]. split.
      * apply PeanoNat.Nat.ltb_lt in L.
        destruct (message_names_path s) as [|a [|c t]]; simpl in L; try lia.
        discriminate.
      * eapply node_at_removelast; eassumption.
    + rewrite Hopen in L. discriminate.
  - destruct (message_names_path s) as [|first rest]; [discriminate|].
    destruct (message_block s) as [b|]; [|discriminate].
    bind_inv H. now ok_inv H.
Qed.

Lemma parse_member_open line s s' :
  block_open s -> parse_member line s = Ok s' -> block_open s'.
Proof.
  unfold parse_member. intros Hopen H.
  destruct (is_enum_block s).
  - destruct (startswith "reserved" line); [now ok_inv H|].
    bind_inv H. eapply set_enum_value_open; eassumption.
  - destruct (message_block s) eqn:B; [|now ok_inv H].
    destruct (re_match field_re line); [|discriminate].
    bind_inv H. bind_inv H. eapply add_field_open; eassumption.
Qed.

Lemma parse_line_open rec raw s s' :
  block_open s -> parse_line rec raw s = Ok s' -> block_open s'.
Proof.
  unfold parse_line. cbv zeta. intros Hopen H.
  destruct (startswith "option go_package " (strip raw)).
  { bind_inv H. now ok_inv H. }
  destruct (startswith "package" (strip raw)).
  { bind_inv H. now ok_inv H. }
  destruct (startswith "import " (strip raw)).
  { bind_inv H. unfold add_import_field in H.
    destruct (negb (startswith "proto" a)); [now ok_inv H|].
    bind_inv H. now ok_inv H. }
  destruct (startswith "message " (strip raw)).
  { bind_inv H. eapply add_message_open; eassumption. }
  destruct (startswith "enum " (strip raw)).
  { bind_inv H. eapply add_enum_open; eassumption. }
  destruct (startswith "oneof " (strip raw)); [now ok_inv H|].
  destruct (startswith "}" (strip raw)).
  { eapply close_block_open; eassumption. }
  destruct (startswith "//" (strip raw)); [now ok_inv H|].
  destruct (strip raw); [now ok_inv H|].
  eapply parse_member_open; eassumption.
Qed.

(** X13.  The parser keeps its block bookkeeping coherent.  Starting from
    a fresh parser and after any lines that were parsed without an
    exception: no pending message tree means an empty name path; a
    pending tree means a non-empty path that leads inside the tree to a
    mapping, so [__get_current_message_block] finds the current block and
    the final assignment of [__close_block] never meets a missing tree. *)
Theorem X13_block_bookkeeping_invariant :
  forall rec lines s,
    parse_lines rec lines initial = Ok s -> block_open s.
Proof.
  intros rec lines.
  assert (G : forall s0 s, block_open s0 ->
                           parse_lines rec lines s0 = Ok s -> block_open s).
  { induction lines as [|l lines IH]; intros s0 s H0 H; simpl in H.
    - now ok_inv H.
    - bind_inv H. eapply IH; [|eassumption].
      eapply parse_line_open; eassumption. }
  intros s. apply G. reflexivity.
Qed.

Lemma X13_witness :
  block_open
    (mkPstate None None [] [] false false None
       (Some (NDict
                [("A",
                  NDict [(FIELDS_KEY, NDict []);
                         ("B", NDict [(FIELDS_KEY, NDict [])])])]))
       ["A"; "B"]).
Proof.
  apply (X13_block_bookkeeping_invariant
           (parse_file (fun _ => None) 0) ["message A {"; "  message B {"]).
  reflexivity.
Defined.

Lemma startswith_head (c : ascii) (line : string) :
  startswith (String c EmptyString) line = true ->
  exists rest, line = String c rest.
Proof.
  destruct line as [|c' rest]; simpl; [discriminate|].
  rewrite andb_true_r. intros H. apply Ascii.eqb_eq in H. subst. eauto.
Qed.

(** X14.  Lines the parser passes over.  In every state, a line that is
    blank after stripping or whose first two characters are [//] changes
    nothing.  And while no enum and no message is open, any other line of
    ASCII text that is none of the keyword lines is dropped without an
    error, whatever it contains. *)
Theorem X14_ignored_lines :
  forall rec raw s,
    (startswith "//" (strip raw) = true \/ strip raw = EmptyString ->
     parse_line rec raw s = Ok s)
    /\ (ascii_text raw = true ->
        reaches_member (strip raw) = true ->
        is_enum_block s = false ->
        message_block s = None ->
        parse_line rec raw s = Ok s).
Proof.
  intros rec raw s. split.
  - intros [H | H]; unfold parse_line; cbv zeta.
    + destruct (strip raw) as [|c1 [|c2 rest]]; cbn [startswith] in H;
        try discriminate; [now rewrite andb_false_r in H|].
      apply andb_prop in H. destruct H as [H1 H2].
      rewrite andb_true_r in H2.
      apply Ascii.eqb_eq in H1, H2. subst. reflexivity.
    + rewrite H. reflexivity.
  - intros _ Hm He Hb. rewrite (parse_line_member rec raw s Hm).
    unfold parse_member. now rewrite He, Hb.
Qed.

Lemma X14_witness :
  parse_line (parse_file (fun _ => None) 0) "   // string name = 1;" initial
  = Ok initial
  /\ parse_line (parse_file (fun _ => None) 0) "syntax = proto3" initial
     = Ok initial.
Proof.
  split.
  - apply (proj1 (X14_ignored_lines (parse_file (fun _ => None) 0)
                    "   // string name = 1;" initial)).
    left. reflexivity.
  - apply (proj2 (X14_ignored_lines (parse_file (fun _ => None) 0)
                    "syntax = proto3" initial)); reflexivity.
Defined.

(** X15.  A closing brace with nothing to close -- no enum, no oneof, an
    empty name path -- makes the parse raise [IndexError]. *)
Theorem X15_unmatched_closing_brace :
  forall rec raw s,
    startswith "}" (strip raw) = true ->
    is_enum_block s = false ->
    is_oneof_block s = false ->
    message_names_path s = [] ->
    parse_line rec raw s = Raise IndexError.
Proof.
  intros rec raw s H He Ho Hp.
  destruct (startswith_head _ _ H) as [rest Hl].
  unfold parse_line. cbv zeta. rewrite Hl. simpl.
  unfold close_block. now rewrite He, Ho, Hp.
Qed.

Lemma X15_witness :
  parse_file (on_disk "b.proto" ["message M {"; "}"; "}"]) 1 "b.proto"
  = Raise IndexError.
Proof.
  change (parse_file (on_disk "b.proto" ["message M {"; "}"; "}"]) 1 "b.proto")
    with (s <- parse_line (parse_file (on_disk "b.proto"
                                         ["message M {"; "}"; "}"]) 0) "}"
                 (mkPstate None None [] [("M", empty_scope)]
                           false false None None []) ;;
          Ok (to_file s)).
  rewrite (X15_unmatched_closing_brace
             (parse_file (on_disk "b.proto" ["message M {"; "}"; "}"]) 0) "}"
             (mkPstate None None [] [("M", empty_scope)]
                       false false None None []));
    reflexivity.
Defined.

(** X16.  Declaring a field stores it where the block is looked up.  With
    a message open whose current block has a field mapping,
    [__add_field] returns; afterwards the current block's field mapping
    holds the new descriptor under its name -- replacing an earlier field
    of that name -- every other field is as before, and so is every
    nested declaration of the block. *)
Theorem X16_add_field_then_lookup :
  forall nm f s b block fields,
    message_block s = Some b ->
    node_at (message_names_path s) b = Ok (NDict block) ->
    dict_get String.eqb FIELDS_KEY block = Some (NDict fields) ->
    exists s' b' block' fields',
      add_field nm f s = Ok s'
      /\ message_names_path s' = message_names_path s
      /\ message_block s' = Some b'
      /\ node_at (message_names_path s) b' = Ok (NDict block')
      /\ dict_get String.eqb FIELDS_KEY block' = Some (NDict fields')
      /\ dict_get String.eqb nm fields' = Some (NField f)
      /\ (forall k, k <> nm ->
                    dict_get String.eqb k fields' = dict_get String.eqb k fields)
      /\ (forall k, k <> FIELDS_KEY ->
                    dict_get String.eqb k block' = dict_get String.eqb k block).
Proof.
  intros nm f s b block fields Hb Hat Hf.
  destruct (node_update_returns (message_names_path s)
              (fun blk =>
                 fs <- node_getitem blk FIELDS_KEY ;;
                 fs' <- node_setitem fs nm (NField f) ;;
                 node_setitem blk FIELDS_KEY fs')
              b (NDict block)
              (NDict (dict_set String.eqb FIELDS_KEY
                        (NDict (dict_set String.eqb nm (NField f) fields))
                        block)) Hat)
    as (b' & Hu & Hat').
  { cbn [node_getitem]. unfold getitem. rewrite Hf. reflexivity. }
  exists (set_message_block s (Some b') (message_names_path s)), b',
    (dict_set String.eqb FIELDS_KEY
       (NDict (dict_set String.eqb nm (NField f) fields)) block),
    (dict_set String.eqb nm (NField f) fields).
  unfold add_field. rewrite Hb, Hu. cbn [bind].
  repeat split; try assumption.
  - apply dict_get_set_same.
  - apply dict_get_set_same.
  - intros k Hk. now apply dict_get_set_other.
  - intros k Hk. now apply dict_get_set_other.
Qed.

Lemma X16_witness :
  exists s' b' block' fields',
    add_field "y" (mkMessageField "int32" false false)
      (mkPstate None None [] [] false false None
         (Some (NDict [("A", NDict [(FIELDS_KEY, NDict []);
                                    ("B", NDict [(FIELDS_KEY, NDict [])])])]))
         ["A"; "B"])
    = Ok s'
    /\ message_names_path s' = ["A"; "B"]
    /\ message_block s' = Some b'
    /\ node_at ["A"; "B"] b' = Ok (NDict block')
    /\ dict_get String.eqb FIELDS_KEY block' = Some (NDict fields')
    /\ dict_get String.eqb "y" fields'
       = Some (NField (mkMessageField "int32" false false))
    /\ (forall k, k <> "y" -> dict_get String.eqb k fields' = dict_get String.eqb k [])
    /\ (forall k, k <> FIELDS_KEY ->
                  dict_get String.eqb k block'
                  = dict_get String.eqb k [(FIELDS_KEY, NDict [])]).
Proof.
  apply (X16_add_field_then_lookup "y" (mkMessageField "int32" false false)
           (mkPstate None None [] [] false false None
              (Some (NDict [("A", NDict [(FIELDS_KEY, NDict []);
                                         ("B", NDict [(FIELDS_KEY, NDict [])])])]))
              ["A"; "B"])
           (NDict [("A", NDict [(FIELDS_KEY, NDict []);
                                ("B", NDict [(FIELDS_KEY, NDict [])])])])
           [(FIELDS_KEY, NDict [])] []);
    reflexivity.
Defined.

(** *** Merging two files of one package *)

Section DictUpdate.
Variables (K V : Type) (eqb : K -> K -> bool).
Hypothesis eqb_spec : forall a b, eqb a b = true <-> a = b.

Lemma eqb_same a : eqb a a = true.
Proof. now apply eqb_spec. Qed.

Lemma eqb_other a b : a <> b -> eqb a b = false.
Proof.
  intros H. destruct (eqb a b) eqn:E; [|reflexivity].
  apply eqb_spec in E. contradiction.
Qed.

Lemma dict_get_set (k k' : K) (v : V) d :
  dict_get eqb k (dict_set eqb k' v d)
  = if eqb k k' then Some v else dict_get eqb k d.
Proof.
  induction d as [|[k0 v0] d IH]; simpl.
  - reflexivity.
  - destruct (eqb k' k0) eqn:E0; simpl.
    + apply eqb_spec in E0. subst k0. now destruct (eqb k k').
    + rewrite IH. destruct (eqb k k') eqn:E; [|reflexivity].
      apply eqb_spec in E. subst k'. now rewrite E0.
Qed.

Lemma dict_get_absent (k : K) (d : list (K * V)) :
  ~ In k (keys d) -> dict_get eqb k d = None.
Proof.
  induction d as [|[k0 v0] d IH]; simpl; intros H; [reflexivity|].
  rewrite eqb_other by (intros ->; tauto). apply IH. tauto.
Qed.

Lemma dict_get_update (d' : list (K * V)) : forall d k,
  NoDup (keys d') ->
  dict_get eqb k (dict_update eqb d d')
  = match dict_get eqb k d' with
    | Some v => Some v
    | None => dict_get eqb k d
    end.
Proof.
  induction d' as [|[k0 v0] d' IH]; intros d k Hnd; [reflexivity|].
  inversion Hnd as [|? ? Hni Hnd']; subst.
  unfold dict_update in *. cbn [fold_left fst snd dict_get].
  rewrite IH by assumption. rewrite dict_get_set.
  destruct (eqb k k0) eqn:E; [|reflexivity].
  apply eqb_spec in E. subst k0. now rewrite dict_get_absent.
Qed.
End DictUpdate.

Lemma string_eqb_spec (a b : string) : String.eqb a b = true <-> a = b.
Proof. apply String.eqb_eq. Qed.

Lemma opt_eqb_spec (a b : option string) : opt_eqb a b = true <-> a = b.
Proof.
  destruct a as [x|], b as [y|]; simpl; split; intros H;
    try discriminate; try reflexivity.
  - apply String.eqb_eq in H. now subst.
  - injection H as ->. apply String.eqb_refl.
Qed.

(** X17.  Merging a second file of the same package into a first: a type
    name or an imported package that the second file has is looked up, in
    the merged file, as the second file has it (later declarations
    overwrite, silently); any other name is looked up as in the first.
    The package names of the first file stay. *)
Theorem X17_merge_lookup :
  forall self other,
    NoDup (keys (structure other)) ->
    NoDup (keys (imports other)) ->
    (forall nm,
        dict_get String.eqb nm (structure (merge_proto_file self other))
        = match dict_get String.eqb nm (structure other) with
          | Some x => Some x
          | None => dict_get String.eqb nm (structure self)
          end)
    /\ (forall pkg,
           dict_get opt_eqb pkg (imports (merge_proto_file self other))
           = match dict_get opt_eqb pkg (imports other) with
             | Some p => Some p
             | None => dict_get opt_eqb pkg (imports self)
             end)
    /\ package (merge_proto_file self other) = package self
    /\ go_package (merge_proto_file self other) = go_package self.
Proof.
  intros self other Hs Hi. unfold merge_proto_file. cbn [structure imports].
  split; [|split; [|split; reflexivity]].
  - intros nm. apply dict_get_update; [exact string_eqb_spec | assumption].
  - intros pkg. apply dict_get_update; [exact opt_eqb_spec | assumption].
Qed.

Lemma X17_witness :
  dict_get String.eqb "B" (structure (merge_proto_file shadow scenario))
  = match dict_get String.eqb "B" (structure scenario) with
    | Some x => Some x
    | None => dict_get String.eqb "B" (structure shadow)
    end.
Proof.
  apply (proj1 (X17_merge_lookup shadow scenario
                  ltac:(repeat constructor; simpl; intuition discriminate)
                  ltac:(constructor))).
Defined.

(** *** The patterns on well-formed lines *)

Lemma go_plus k p s opened caps :
  go (Plus k :: p) s opened caps
  = try_from (fun n => go p (str_drop n s) opened caps) (run k s).
Proof.
  cbn [go]. generalize (run k s). intros n.
  induction n as [|n IH]; [reflexivity|].
  cbn [try_from]. destruct (go p (str_drop (S n) s) opened caps); auto.
Qed.

Lemma try_from_skip {A : Type} (f : nat -> option A) m : forall n,
  (forall i, m < i <= m + n -> f i = None) ->
  try_from f (m + n) = try_from f m.
Proof.
  induction n as [|n IH]; intros H.
  - now rewrite PeanoNat.Nat.add_0_r.
  - rewrite PeanoNat.Nat.add_succ_r. cbn [try_from].
    rewrite H by lia. apply IH. intros i Hi. apply H. lia.
Qed.

Lemma str_length_app (a b : string) :
  String.length (a ++ b) = String.length a + String.length b.
Proof. induction a as [|c a IH]; simpl; [reflexivity | now rewrite IH]. Qed.

Lemma str_drop_app (a b : string) : str_drop (String.length a) (a ++ b) = b.
Proof. induction a as [|c a IH]; simpl; [now destruct b | assumption]. Qed.

Lemma str_take_app (a b : string) : str_take (String.length a) (a ++ b) = a.
Proof.
  induction a as [|c a IH]; simpl; [now destruct b | now rewrite IH].
Qed.

Lemma startswith_app (a b : string) : startswith a (a ++ b) = true.
Proof.
  induction a as [|c a IH]; simpl; [reflexivity|].
  now rewrite Ascii.eqb_refl.
Qed.

(** the class run stops at the end of [w] when the next character, if
    any, is outside the class *)
Lemma run_app k w c rest :
  all_in k w = true -> in_cls k c = false ->
  run k (w ++ String c rest) = String.length w.
Proof.
  intros Hw Hc. induction w as [|x w IH]; simpl.
  - now rewrite Hc.
  - simpl in Hw. apply andb_prop in Hw. destruct Hw as [Hx Hw].
    rewrite Hx. now rewrite IH.
Qed.

(** After a group holding [\w+], a literal that starts with a character
    outside [\w]: on a name followed by that literal, the group is the
    name and matching goes on behind the literal. *)
Lemma go_name_group g w c lit rest p opened caps :
  is_name w = true ->
  in_cls Word c = false ->
  go (Open g :: Plus Word :: Close g :: Lit (String c lit) :: p)
     (w ++ String c lit ++ rest) opened caps
  = go p rest ((g, (w ++ String c lit ++ rest)%string) :: opened)
       (dict_set String.eqb g w caps).
Proof.
  intros Hw Hc.
  change (go (Open g :: Plus Word :: Close g :: Lit (String c lit) :: p)
             (w ++ String c lit ++ rest) opened caps)
    with (go (Plus Word :: Close g :: Lit (String c lit) :: p)
             (w ++ String c lit ++ rest)
             ((g, (w ++ String c lit ++ rest)%string) :: opened) caps).
  rewrite go_plus.
  assert (Hall : all_in Word w = true) by (destruct w; [discriminate | exact Hw]).
  change (w ++ String c lit ++ rest)%string
    with (w ++ String c (lit ++ rest))%string.
  rewrite (run_app Word w c (lit ++ rest) Hall Hc).
  set (s := (w ++ String c (lit ++ rest))%string).
  assert (Hhit : go (Close g :: Lit (String c lit) :: p)
                    (str_drop (String.length w) s) ((g, s) :: opened) caps
                 = go p rest ((g, s) :: opened) (dict_set String.eqb g w caps)).
  { unfold s. rewrite str_drop_app. cbn [go dict_get]. rewrite String.eqb_refl.
    rewrite str_length_app.
    replace (String.length w + String.length (String c (lit ++ rest))
             - String.length (String c (lit ++ rest)))
      with (String.length w) by lia.
    rewrite str_take_app.
    change (String c (lit ++ rest)) with (String c lit ++ rest)%string.
    rewrite startswith_app, str_drop_app. reflexivity. }
  assert (Hmiss : forall i, 0 < i < String.length w ->
                    go (Close g :: Lit (String c lit) :: p)
                       (str_drop i s) ((g, s) :: opened) caps = None).
  { intros i Hi. cbn [go dict_get]. rewrite String.eqb_refl.
    assert (Hhead : exists x t, str_drop i s = String x t
                                /\ in_cls Word x = true).
    { unfold s. clear - Hall Hi. revert i Hi.
      induction w as [|y w IH]; intros i Hi; simpl in Hi; [lia|].
      simpl in Hall. apply andb_prop in Hall. destruct Hall as [Hy Hall].
      destruct i as [|i]; [lia|]. simpl.
      destruct i as [|i].
      - destruct w as [|z w]; [simpl in Hi; lia|].
        simpl in Hall. apply andb_prop in Hall. destruct Hall as [Hz _].
        simpl. eauto.
      - apply IH; [assumption | lia]. }
    destruct Hhead as (x & t & -> & Hx). cbn [startswith].
    destruct (Ascii.eqb c x) eqn:E; [|reflexivity].
    apply Ascii.eqb_eq in E. subst x. congruence. }
  destruct w as [|y w]; [discriminate|].
  cbn [String.length try_from]. cbn [String.length] in Hhit. rewrite Hhit.
  destruct (go p rest ((g, s) :: opened)
               (dict_set String.eqb g (String y w) caps)) eqn:R;
    [reflexivity|].
  clear - Hmiss. cbn [String.length] in Hmiss.
  induction (String.length w) as [|n IH]; [reflexivity|].
  cbn [try_from]. rewrite Hmiss by lia. apply IH. intros i Hi. apply Hmiss. lia.
Qed.

(** A greedy class run followed by a pattern that cannot start inside the
    class takes the whole run. *)
Lemma go_plus_exact k q w c rest opened caps :
  w <> EmptyString ->
  all_in k w = true ->
  in_cls k c = false ->
  (forall x t, in_cls k x = true -> go q (String x t) opened caps = None) ->
  go (Plus k :: q) (w ++ String c rest) opened caps
  = go q (String c rest) opened caps.
Proof.
  intros Hne Hall Hc Hq. rewrite go_plus, (run_app k w c rest Hall Hc).
  set (s := (w ++ String c rest)%string).
  assert (Hmiss : forall i, 0 < i < String.length w ->
                            go q (str_drop i s) opened caps = None).
  { intros i Hi.
    assert (Hhead : exists x t, str_drop i s = String x t /\ in_cls k x = true).
    { unfold s. clear - Hall Hi. revert i Hi.
      induction w as [|y w IH]; intros i Hi; simpl in Hi; [lia|].
      simpl in Hall. apply andb_prop in Hall. destruct Hall as [Hy Hall].
      destruct i as [|i]; [lia|]. simpl.
      destruct i as [|i].
      - destruct w as [|z w]; [simpl in Hi; lia|].
        simpl in Hall. apply andb_prop in Hall. destruct Hall as [Hz _].
        simpl. eauto.
      - apply IH; [assumption | lia]. }
    destruct Hhead as (x & t & -> & Hx). now apply Hq. }
  destruct w as [|y w]; [congruence|].
  cbn [String.length try_from].
  change (str_drop (S (String.length w)) s)
    with (str_drop (String.length (String y w)) s).
  unfold s at 1. rewrite str_drop_app.
  destruct (go q (String c rest) opened caps); [reflexivity|].
  clear - Hmiss. cbn [String.length] in Hmiss.
  induction (String.length w) as [|n IH]; [reflexivity|].
  cbn [try_from]. rewrite Hmiss by lia. apply IH. intros i Hi. apply Hmiss. lia.
Qed.

Lemma is_name_word w : is_name w = true -> w <> EmptyString /\ all_in Word w = true.
Proof. destruct w; [discriminate|]. intros H. split; [discriminate | exact H]. Qed.

Lemma is_number_digits d :
  is_number d = true -> d <> EmptyString /\ all_in Digit d = true.
Proof. destruct d; [discriminate|]. intros H. split; [discriminate | exact H]. Qed.

(** [VALUE = <number>;] followed by anything *)
Lemma enum_value_line_matches w d tail :
  is_name w = true -> is_number d = true ->
  re_match enum_value_re (w ++ " = " ++ d ++ ";" ++ tail) = Some [("key", w)].
Proof.
  intros Hw Hd. unfold re_match, enum_value_re.
  rewrite (go_name_group "key" w " "%char "= " (d ++ ";" ++ tail)
             [Plus Digit; Lit ";"] [] [] Hw eq_refl).
  destruct (is_number_digits d Hd) as [Hne Hall].
  change (d ++ ";" ++ tail)%string with (d ++ String ";"%char tail)%string.
  rewrite go_plus_exact; try assumption; try reflexivity.
  intros x t Hx. cbn [go startswith].
  destruct (Ascii.eqb ";" x) eqn:E; [|reflexivity].
  apply Ascii.eqb_eq in E. subst x. discriminate.
Qed.

(** [message <Name> {] and [enum <Name> {], followed by anything *)
Lemma header_line_matches kw nm tail :
  is_name nm = true ->
  re_match [Lit kw; Open "name"; Plus Word; Close "name"; Lit " {"]
           (kw ++ nm ++ " {" ++ tail)
  = Some [("name", nm)].
Proof.
  intros Hn. unfold re_match. cbn [go].
  rewrite startswith_app, str_drop_app.
  exact (go_name_group "name" nm " "%char "{" tail [] [] [] Hn eq_refl).
Qed.

(** X18.  Inside an enum block, a line whose stripped text is
    [NAME = NUMBER;] (possibly followed by more text) with [NAME] made of
    word characters and [NUMBER] of digits, that starts with none of the
    parser's keywords nor with [reserved], is handled as the value
    [NAME]: the number is dropped and [__set_enum_value] is called with
    exactly that name. *)
Theorem X18_enum_value_line :
  forall rec raw s value number tail,
    strip raw = (value ++ " = " ++ number ++ ";" ++ tail)%string ->
    is_name value = true ->
    is_number number = true ->
    reaches_member (strip raw) = true ->
    startswith "reserved" (strip raw) = false ->
    is_enum_block s = true ->
    parse_line rec raw s = set_enum_value value s.
Proof.
  intros rec raw s w d tail Hline Hw Hd Hm Hres He.
  rewrite (parse_line_member rec raw s Hm). unfold parse_member.
  rewrite He, Hres. unfold match_group.
  rewrite Hline, (enum_value_line_matches w d tail Hw Hd).
  reflexivity.
Qed.

Lemma X18_witness :
  parse_line (parse_file (fun _ => None) 0) "    GREEN = 12; // ok"
    (mkPstate None None [] [("Color", NEnum (mkEnumField "Color" ["RED"]))]
              false true (Some "Color") None [])
  = set_enum_value "GREEN"
      (mkPstate None None [] [("Color", NEnum (mkEnumField "Color" ["RED"]))]
                false true (Some "Color") None []).
Proof.
  apply (X18_enum_value_line (parse_file (fun _ => None) 0)
           "    GREEN = 12; // ok"
           (mkPstate None None [] [("Color", NEnum (mkEnumField "Color" ["RED"]))]
                     false true (Some "Color") None [])
           "GREEN" "12" " // ok");
    reflexivity.
Defined.

(** X19.  Recording an enum value appends it.  For an enum declared at
    the top level, and for one declared inside the current message
    block, [__set_enum_value] returns and the enum then lists its earlier
    values followed by the new one, under the same name. *)
Theorem X19_enum_values_in_declaration_order :
  forall value s nm e,
    enum_name s = Some nm ->
    (message_block s = None ->
     dict_get String.eqb nm (p_structure s) = Some (NEnum e) ->
     exists s',
       set_enum_value value s = Ok s'
       /\ dict_get String.eqb nm (p_structure s')
          = Some (NEnum (mkEnumField (name e) (values e ++ [value]))))
    /\ (forall b block,
           message_block s = Some b ->
           node_at (message_names_path s) b = Ok (NDict block) ->
           dict_get String.eqb nm block = Some (NEnum e) ->
           exists s' b' block',
             set_enum_value value s = Ok s'
             /\ message_block s' = Some b'
             /\ message_names_path s' = message_names_path s
             /\ node_at (message_names_path s) b' = Ok (NDict block')
             /\ dict_get String.eqb nm block'
                = Some (NEnum (mkEnumField (name e) (values e ++ [value])))).
Proof.
  intros value s nm e Hn. split.
  - intros Hb Hget. unfold set_enum_value. rewrite Hb, Hn.
    cbn [getitem_opt]. unfold getitem. rewrite Hget. cbn [bind append_value].
    eexists. split; [reflexivity|]. cbn [p_structure set_structure].
    apply dict_get_set_same.
  - intros b block Hb Hat Hget.
    destruct (node_update_returns (message_names_path s)
                (fun blk =>
                   match enum_name s with
                   | Some k =>
                       field <- node_getitem blk k ;;
                       field' <- append_value value field ;;
                       node_setitem blk k field'
                   | None =>
                       match blk with
                       | NDict _ => Raise KeyError
                       | _ => Raise TypeError
                       end
                   end)
                b (NDict block)
                (NDict (dict_set String.eqb nm
                          (NEnum (mkEnumField (name e) (values e ++ [value])))
                          block)) Hat)
      as (b' & Hu & Hat').
    { rewrite Hn. cbn [node_getitem]. unfold getitem. rewrite Hget.
      reflexivity. }
    unfold set_enum_value. rewrite Hb, Hu. cbn [bind].
    eexists _, b', _. repeat split; try eassumption.
    apply dict_get_set_same.
Qed.

Lemma X19_witness :
  exists s',
    set_enum_value "GREEN"
      (mkPstate None None [] [("Color", NEnum (mkEnumField "Color" ["RED"]))]
                false true (Some "Color") None [])
    = Ok s'
    /\ dict_get String.eqb "Color" (p_structure s')
       = Some (NEnum (mkEnumField "Color" ["RED"; "GREEN"])).
Proof.
  apply (proj1 (X19_enum_values_in_declaration_order "GREEN"
                  (mkPstate None None []
                     [("Color", NEnum (mkEnumField "Color" ["RED"]))]
                     false true (Some "Color") None [])
                  "Color" (mkEnumField "Color" ["RED"]) eq_refl));
    reflexivity.
Defined.

Lemma header_lines_parse :
  forall rec raw s nm tail,
    is_name nm = true ->
    (strip raw = ("message " ++ nm ++ " {" ++ tail)%string ->
     parse_line rec raw s = add_message nm s)
    /\ (strip raw = ("enum " ++ nm ++ " {" ++ tail)%string ->
        parse_line rec raw s = add_enum nm s).
Proof.
  intros rec raw s nm tail Hn. split; intros Hline.
  - unfold parse_line. cbv zeta. rewrite Hline.
    change (startswith "option go_package " ("message " ++ nm ++ " {" ++ tail))
      with false.
    change (startswith "package" ("message " ++ nm ++ " {" ++ tail)) with false.
    change (startswith "import " ("message " ++ nm ++ " {" ++ tail)) with false.
    change (startswith "message " ("message " ++ nm ++ " {" ++ tail)) with true.
    cbv iota. unfold match_group, message_re.
    now rewrite (header_line_matches "message " nm tail Hn).
  - unfold parse_line. cbv zeta. rewrite Hline.
    change (startswith "option go_package " ("enum " ++ nm ++ " {" ++ tail))
      with false.
    change (startswith "package" ("enum " ++ nm ++ " {" ++ tail)) with false.
    change (startswith "import " ("enum " ++ nm ++ " {" ++ tail)) with false.
    change (startswith "message " ("enum " ++ nm ++ " {" ++ tail)) with false.
    change (startswith "enum " ("enum " ++ nm ++ " {" ++ tail)) with true.
    cbv iota. unfold match_group, enum_re.
    now rewrite (header_line_matches "enum " nm tail Hn).
Qed.

(** X20.  Block headers.  A line whose stripped text starts with
    [message NAME {], [NAME] made of word characters, opens the message
    [NAME] in every state; one that starts with [enum NAME {] declares
    the enum [NAME].  Whatever follows the brace on the line is not read. *)
Theorem X20_header_lines :
  forall rec raw s nm tail,
    is_name nm = true ->
    (strip raw = ("message " ++ nm ++ " {" ++ tail)%string ->
     parse_line rec raw s = add_message nm s)
    /\ (strip raw = ("enum " ++ nm ++ " {" ++ tail)%string ->
        parse_line rec raw s = add_enum nm s).
Proof.
  intros rec raw s nm tail Hn. now apply header_lines_parse.
Qed.

Lemma X20_witness :
  parse_line (parse_file (fun _ => None) 0)
             "message M { string name = 1; // required" initial
  = add_message "M" initial.
Proof.
  apply (proj1 (X20_header_lines (parse_file (fun _ => None) 0)
                  "message M { string name = 1; // required" initial
                  "M" " string name = 1; // required" eq_refl)).
  reflexivity.
Defined.

(** *** Field declarations *)

Lemma all_in_app k (a b : string) :
  all_in k (a ++ b) = all_in k a && all_in k b.
Proof.
  induction a as [|c a IH]; simpl; [reflexivity|].
  now rewrite IH, andb_assoc.
Qed.

Lemma run_all k s : all_in k s = true -> run k s = String.length s.
Proof.
  induction s as [|c s IH]; simpl; [reflexivity|].
  intros H. apply andb_prop in H. destruct H as [Hc Hs].
  now rewrite Hc, IH.
Qed.

Lemma str_drop_app_more (a b : string) i :
  str_drop (String.length a + i) (a ++ b) = str_drop i b.
Proof. induction a as [|c a IH]; simpl; [reflexivity | assumption]. Qed.

Lemma str_drop_nil i : str_drop i EmptyString = EmptyString.
Proof. now destruct i. Qed.

Lemma digit_is_word c : is_digit c = true -> is_word c = true.
Proof. unfold is_digit, is_word. cbv zeta. intros H. now rewrite H. Qed.

Lemma word_not_space c : is_word c = true -> Ascii.eqb " " c = false.
Proof.
  intros H. destruct (Ascii.eqb " " c) eqn:E; [|reflexivity].
  apply Ascii.eqb_eq in E. subst c. discriminate.
Qed.

Lemma word_not_newline c : is_word c = true -> in_cls Any c = true.
Proof.
  intros H. simpl. destruct (nat_of_ascii c =? 10)%nat eqn:E; [|reflexivity].
  apply PeanoNat.Nat.eqb_eq in E. unfold is_word in H. cbv zeta in H.
  rewrite E in H. discriminate.
Qed.

Lemma all_digits_words s : all_in Digit s = true -> all_in Word s = true.
Proof.
  induction s as [|c s IH]; simpl; [reflexivity|].
  intros H. apply andb_prop in H. destruct H as [Hc Hs].
  now rewrite (digit_is_word c Hc), IH.
Qed.

Lemma all_words_any s : all_in Word s = true -> all_in Any s = true.
Proof.
  induction s as [|c s IH]; [reflexivity|].
  cbn [all_in]. intros H. apply andb_prop in H. destruct H as [Hc Hs].
  now rewrite (word_not_newline c Hc), IH.
Qed.

(** a named group holding a greedy class run, before a literal that
    starts outside the class *)
Lemma go_group k g w c lit rest p opened caps :
  w <> EmptyString ->
  all_in k w = true ->
  in_cls k c = false ->
  go (Open g :: Plus k :: Close g :: Lit (String c lit) :: p)
     (w ++ String c lit ++ rest) opened caps
  = go p rest ((g, (w ++ String c lit ++ rest)%string) :: opened)
       (dict_set String.eqb g w caps).
Proof.
  intros Hne Hall Hc.
  set (s := (w ++ String c lit ++ rest)%string).
  change (go (Open g :: Plus k :: Close g :: Lit (String c lit) :: p) s
             opened caps)
    with (go (Plus k :: Close g :: Lit (String c lit) :: p) s
             ((g, s) :: opened) caps).
  unfold s at 1.
  change (w ++ String c lit ++ rest)%string
    with (w ++ String c (lit ++ rest))%string.
  rewrite go_plus_exact; try assumption.
  - cbn [go dict_get]. rewrite String.eqb_refl. unfold s.
    change (w ++ String c lit ++ rest)%string
      with (w ++ String c (lit ++ rest))%string.
    rewrite str_length_app.
    replace (String.length w + String.length (String c (lit ++ rest))
             - String.length (String c (lit ++ rest)))
      with (String.length w) by lia.
    rewrite str_take_app.
    change (String c (lit ++ rest)) with (String c lit ++ rest)%string.
    now rewrite startswith_app, str_drop_app.
  - intros x t Hx. cbn [go dict_get]. rewrite String.eqb_refl.
    cbn [startswith].
    destruct (Ascii.eqb c x) eqn:E; [|reflexivity].
    apply Ascii.eqb_eq in E. subst x. congruence.
Qed.

(** [field_tail_re] on [ name = index;] and what may follow *)
Lemma field_tail_matches nm index tail opened caps :
  is_name nm = true -> is_number index = true ->
  go field_tail_re (" " ++ nm ++ " = " ++ index ++ ";" ++ tail) opened caps
  = Some (dict_set String.eqb "index" index
            (dict_set String.eqb "name" nm caps)).
Proof.
  intros Hn Hi.
  destruct (is_name_word nm Hn) as [Hn1 Hn2].
  destruct (is_number_digits index Hi) as [Hi1 Hi2].
  unfold field_tail_re.
  change (go (Lit " " :: ?p) (" " ++ ?r) ?o ?c) with (go p r o c).
  rewrite (go_group Word "name" nm " "%char "= " (index ++ ";" ++ tail)
             _ _ _ Hn1 Hn2 eq_refl).
  rewrite (go_group Digit "index" index ";"%char EmptyString tail
             _ _ _ Hi1 Hi2 eq_refl).
  cbn [go]. now destruct (startswith "// required" tail).
Qed.

Lemma nowhere_cons c text :
  (forall opened caps, go field_tail_re (String c text) opened caps = None) ->
  nowhere text -> nowhere (String c text).
Proof. intros Hc Ht [|i] opened caps; [apply Hc | apply Ht]. Qed.

Lemma tail_re_needs_space c text opened caps :
  Ascii.eqb " " c = false ->
  go field_tail_re (String c text) opened caps = None.
Proof. intros H. unfold field_tail_re. cbn [go startswith]. now rewrite H. Qed.

Lemma nowhere_words w text :
  all_in Word w = true -> nowhere text -> nowhere (w ++ text).
Proof.
  intros Hw Ht. induction w as [|c w IH]; [exact Ht|].
  simpl in Hw. apply andb_prop in Hw. destruct Hw as [Hc Hw].
  cbn [append]. apply nowhere_cons; [|now apply IH].
  intros. apply tail_re_needs_space. now apply word_not_space.
Qed.

Lemma nowhere_optional_marker required :
  nowhere (if required : bool then " // required" else EmptyString).
Proof.
  destruct required.
  - intros i opened caps.
    do 13 (destruct i as [|i]; [reflexivity|]). now destruct i.
  - intros i opened caps. now destruct i.
Qed.

(** behind the type, the rest of a declaration offers no later match *)
Lemma nowhere_after_type nm index required :
  is_name nm = true -> is_number index = true ->
  nowhere (nm ++ " = " ++ index ++ ";"
           ++ (if required : bool then " // required" else EmptyString)).
Proof.
  intros Hn Hi.
  destruct (is_name_word nm Hn) as [_ Hn2].
  destruct (is_number_digits index Hi) as [Hi1 Hi2].
  set (tail := if required then " // required" else EmptyString).
  assert (H1 : nowhere (";" ++ tail)).
  { apply nowhere_cons; [|apply nowhere_optional_marker].
    intros. now apply tail_re_needs_space. }
  assert (H2 : nowhere (index ++ ";" ++ tail)).
  { apply nowhere_words; [now apply all_digits_words | exact H1]. }
  assert (H3 : nowhere (" " ++ index ++ ";" ++ tail)).
  { apply nowhere_cons; [|exact H2].
    intros opened caps.
    change (go field_tail_re (String " " (index ++ ";" ++ tail)) opened caps)
      with (go [Plus Word; Close "name"; Lit " = ";
                Open "index"; Plus Digit; Close "index"; Lit ";";
                OptLit "// required"]
               (index ++ String ";"%char tail)
               (("name", (index ++ String ";"%char tail)%string) :: opened)
               caps).
    rewrite go_plus_exact; try assumption; try reflexivity.
    - now apply all_digits_words.
    - intros x t Hx. cbn [go dict_get String.eqb Ascii.eqb Bool.eqb andb].
      cbn [startswith]. now rewrite (word_not_space x Hx). }
  assert (H4 : nowhere ("= " ++ index ++ ";" ++ tail)).
  { apply nowhere_cons; [|exact H3]. intros. now apply tail_re_needs_space. }
  assert (H5 : nowhere (" = " ++ index ++ ";" ++ tail)).
  { apply nowhere_cons; [|exact H4]. intros opened caps. reflexivity. }
  now apply nowhere_words.
Qed.

Lemma all_in_declaration T nm index required :
  all_in Any T = true -> is_name nm = true -> is_number index = true ->
  all_in Any (T ++ " " ++ nm ++ " = " ++ index ++ ";"
              ++ (if required : bool then " // required" else EmptyString))
  = true.
Proof.
  intros HT Hn Hi.
  destruct (is_name_word nm Hn) as [_ Hn2].
  destruct (is_number_digits index Hi) as [_ Hi2].
  rewrite !all_in_app, HT, (all_words_any nm Hn2),
    (all_words_any index (all_digits_words index Hi2)).
  now destruct required.
Qed.

(** the type group of [field_re] on a declaration: the greedy [.+] ends
    exactly where the declared type ends *)
Lemma field_body_matches T nm index required opened caps :
  T <> EmptyString -> all_in Any T = true ->
  is_name nm = true -> is_number index = true ->
  go (Open "field_type" :: Plus Any :: Close "field_type" :: field_tail_re)
     (T ++ " " ++ nm ++ " = " ++ index ++ ";"
      ++ (if required : bool then " // required" else EmptyString))
     opened caps
  = Some (dict_set String.eqb "index" index
            (dict_set String.eqb "name" nm
               (dict_set String.eqb "field_type" T caps))).
Proof.
  intros HT HTany Hn Hi.
  set (tail := if required then " // required" else EmptyString).
  set (R := (" " ++ nm ++ " = " ++ index ++ ";" ++ tail)%string).
  set (B := (T ++ R)%string).
  change (go (Open "field_type" :: Plus Any :: Close "field_type" :: field_tail_re)
             B opened caps)
    with (go (Plus Any :: Close "field_type" :: field_tail_re) B
             (("field_type", B) :: opened) caps).
  rewrite go_plus.
  rewrite (run_all Any B (all_in_declaration T nm index required HTany Hn Hi)).
  unfold B at 3. rewrite str_length_app.
  rewrite try_from_skip.
  - destruct T as [|c T]; [congruence|].
    cbn [String.length try_from].
    change (str_drop (S (String.length T)) B)
      with (str_drop (String.length (String c T)) B).
    unfold B at 1. rewrite str_drop_app.
    cbn [go dict_get]. rewrite String.eqb_refl. unfold B at 1 2.
    rewrite str_length_app.
    replace (String.length (String c T) + String.length R - String.length R)
      with (String.length (String c T)) by lia.
    unfold B. rewrite str_take_app. unfold R.
    now rewrite (field_tail_matches nm index tail _ _ Hn Hi).
  - intros i Hi'. cbn [go dict_get]. rewrite String.eqb_refl.
    replace i with (String.length T + S (i - String.length T - 1)) by lia.
    unfold B at 1. rewrite str_drop_app_more. unfold R.
    change (str_drop (S ?j) (" " ++ ?r)) with (str_drop j r).
    apply (nowhere_after_type nm index required Hn Hi).
Qed.

Lemma go_optlit l p s opened caps :
  go (OptLit l :: p) s opened caps
  = match (if startswith l s
           then go p (str_drop (String.length l) s) opened caps
           else None) with
    | Some r => Some r
    | None => go p s opened caps
    end.
Proof. reflexivity. Qed.

(** [field_re] on the text of a declaration *)
Lemma field_line_matches f nm index :
  type f <> EmptyString -> all_in Any (type f) = true ->
  is_name nm = true -> is_number index = true ->
  (is_repeated f = false ->
   startswith "repeated " (field_line f nm index) = false) ->
  re_match field_re (field_line f nm index)
  = Some [("field_type", type f); ("name", nm); ("index", index)].
Proof.
  intros HT HTany Hn Hi Hrep. unfold re_match.
  change field_re
    with (OptLit "repeated "
          :: Open "field_type" :: Plus Any :: Close "field_type"
          :: field_tail_re).
  rewrite go_optlit.
  unfold field_line in *. destruct (is_repeated f).
  - rewrite startswith_app, str_drop_app.
    now rewrite (field_body_matches (type f) nm index (is_required f) [] []).
  - cbn [append] in *. rewrite (Hrep eq_refl).
    exact (field_body_matches (type f) nm index (is_required f) [] []
                              HT HTany Hn Hi).
Qed.

Lemma str_rev_onto_app (a b acc : string) :
  str_rev_onto (a ++ b) acc = str_rev_onto b (str_rev_onto a acc).
Proof.
  revert acc. induction a as [|c a IH]; intros acc; simpl; [reflexivity|].
  apply IH.
Qed.

(** the marker is at the end exactly of the declarations that carry it *)
Lemma field_line_required f nm index :
  endswith "// required" (field_line f nm index) = is_required f.
Proof.
  unfold field_line, endswith, str_rev.
  rewrite !str_rev_onto_app. now destruct (is_required f).
Qed.

Lemma field_line_repeated f nm index :
  (is_repeated f = false ->
   startswith "repeated " (field_line f nm index) = false) ->
  startswith "repeated " (field_line f nm index) = is_repeated f.
Proof.
  intros H. destruct (is_repeated f) eqn:R; [|now apply H].
  unfold field_line. rewrite R. apply startswith_app.
Qed.

Lemma field_declaration_parses :
  forall rec raw s b f nm index,
    strip raw = field_line f nm index ->
    type f <> EmptyString ->
    all_in Any (type f) = true ->
    is_name nm = true ->
    is_number index = true ->
    (is_repeated f = false ->
     startswith "repeated " (field_line f nm index) = false) ->
    reaches_member (field_line f nm index) = true ->
    is_enum_block s = false ->
    message_block s = Some b ->
    parse_line rec raw s = add_field nm f s.
Proof.
  intros rec raw s b f nm index Hline HT HTany Hn Hi Hrep Hm He Hb.
  rewrite <- Hline in Hm.
  rewrite (parse_line_member rec raw s Hm). unfold parse_member.
  rewrite He, Hb, Hline.
  rewrite (field_line_matches f nm index HT HTany Hn Hi Hrep).
  rewrite (field_line_repeated f nm index Hrep),
    (field_line_required f nm index).
  cbn [getitem dict_get String.eqb Ascii.eqb Bool.eqb andb bind].
  now destruct f.
Qed.

(** X21.  Field declarations.  Inside a message block and outside any
    enum, a line of ASCII text whose stripped text is
    [[repeated ]TYPE NAME = INDEX;] with an optional [ // required]
    behind it -- [TYPE] any non-empty text (spaces allowed), [NAME] word
    characters, [INDEX] digits, the line starting with none of the
    parser's keywords and, when the field is not repeated, not with
    [repeated ] -- registers under [NAME] the descriptor with exactly
    that type and those two flags. *)
Theorem X21_field_declaration_line :
  forall rec raw s b f nm index,
    ascii_text raw = true ->
    strip raw = field_line f nm index ->
    type f <> EmptyString ->
    all_in Any (type f) = true ->
    is_name nm = true ->
    is_number index = true ->
    (is_repeated f = false ->
     startswith "repeated " (field_line f nm index) = false) ->
    reaches_member (field_line f nm index) = true ->
    is_enum_block s = false ->
    message_block s = Some b ->
    parse_line rec raw s = add_field nm f s.
Proof.
  intros rec raw s b f nm index _ Hline HT HTany Hn Hi Hrep Hm He Hb.
  now apply (field_declaration_parses rec raw s b f nm index).
Qed.

Lemma X21_witness :
  parse_line (parse_file (fun _ => None) 0)
    "    repeated map<string, core.Icon> icons = 12; // required"
    (mkPstate None None [] [] false false None
              (Some (NDict [("M", empty_scope)])) ["M"])
  = add_field "icons" (mkMessageField "map<string, core.Icon>" true true)
      (mkPstate None None [] [] false false None
                (Some (NDict [("M", empty_scope)])) ["M"]).
Proof.
  apply (X21_field_declaration_line (parse_file (fun _ => None) 0)
           "    repeated map<string, core.Icon> icons = 12; // required"
           (mkPstate None None [] [] false false None
                     (Some (NDict [("M", empty_scope)])) ["M"])
           (NDict [("M", empty_scope)])
           (mkMessageField "map<string, core.Icon>" true true) "icons" "12");
    try reflexivity; discriminate.
Defined.

(** *** A whole message *)

Lemma add_field_top nm f s M fields :
  message_block s = Some (NDict [(M, NDict [(FIELDS_KEY, NDict fields)])]) ->
  message_names_path s = [M] ->
  add_field nm f s
  = Ok (set_message_block s
          (Some (NDict [(M, NDict [(FIELDS_KEY,
                                    NDict (dict_set String.eqb nm (NField f)
                                                    fields))])]))
          [M]).
Proof.
  intros Hb Hp. unfold add_field. rewrite Hb, Hp.
  cbn [node_update node_getitem]. unfold getitem.
  cbn [dict_get]. rewrite String.eqb_refl. cbn [bind].
  change (dict_get String.eqb FIELDS_KEY [(FIELDS_KEY, NDict fields)])
    with (Some (NDict fields)).
  cbn [bind node_setitem dict_set].
  change (String.eqb FIELDS_KEY FIELDS_KEY) with true. cbv iota.
  cbn [bind node_setitem dict_set]. now rewrite String.eqb_refl.
Qed.

Lemma declarations_parse rec M : forall raws ds s fields,
  Forall2 declares raws ds ->
  is_enum_block s = false ->
  message_block s = Some (NDict [(M, NDict [(FIELDS_KEY, NDict fields)])]) ->
  message_names_path s = [M] ->
  parse_lines rec raws s
  = Ok (set_message_block s
          (Some (NDict [(M, NDict [(FIELDS_KEY, NDict (register ds fields))])]))
          [M]).
Proof.
  induction raws as [|raw raws IH]; intros ds s fields Hall He Hb Hp;
    inversion Hall as [|? d ? ds' Hd Hrest]; subst.
  - simpl. f_equal. destruct s. simpl in *. now subst.
  - destruct d as [[nm f] index].
    destruct Hd as (_ & Hline & HT & HTany & Hn & Hi & Hrep & Hm).
    cbn [parse_lines].
    rewrite (field_declaration_parses rec raw s _ f nm index
               Hline HT HTany Hn Hi Hrep Hm He Hb).
    rewrite (add_field_top nm f s M fields Hb Hp). cbn [bind].
    rewrite (IH ds' _ (dict_set String.eqb nm (NField f) fields) Hrest);
      try reflexivity; try assumption.
Qed.

(** X22.  A flat message read back.  From a state with nothing open, the
    lines [message M {], then field declarations in the form of X21
    (lines of ASCII text), then
    a line starting with [}], parse without an exception and add to the
    file's top-level mapping, under [M], a scope that holds just the
    field mapping of those declarations: each descriptor under its name,
    in declaration order, a repeated name keeping its first position
    with the last descriptor.  Nothing else of the state changes. *)
Theorem X22_flat_message_round_trip :
  forall rec s0 M header tail raws ds closing,
    is_name M = true ->
    strip header = ("message " ++ M ++ " {" ++ tail)%string ->
    Forall2 declares raws ds ->
    startswith "}" (strip closing) = true ->
    message_block s0 = None ->
    message_names_path s0 = [] ->
    is_enum_block s0 = false ->
    is_oneof_block s0 = false ->
    parse_lines rec (header :: raws ++ [closing]) s0
    = Ok (set_structure s0
            (dict_set String.eqb M
                      (NDict [(FIELDS_KEY, NDict (register ds []))])
                      (p_structure s0))).
Proof.
  intros rec s0 M header tail raws ds closing HM Hh Hds Hc Hb Hp He Ho.
  cbn [parse_lines].
  rewrite (proj1 (header_lines_parse rec header s0 M tail HM) Hh).
  unfold add_message. rewrite Hb, Hp. cbn [bind app].
  rewrite parse_lines_app.
  rewrite (declarations_parse rec M raws ds _ [] Hds); try assumption;
    try reflexivity.
  cbn [bind parse_lines].
  destruct (startswith_head _ _ Hc) as [rest Hl].
  unfold parse_line. cbv zeta. rewrite Hl.
  change (startswith "option go_package " (String "}" rest)) with false.
  change (startswith "package" (String "}" rest)) with false.
  change (startswith "import " (String "}" rest)) with false.
  change (startswith "message " (String "}" rest)) with false.
  change (startswith "enum " (String "}" rest)) with false.
  change (startswith "oneof " (String "}" rest)) with false.
  change (startswith "}" (String "}" rest)) with true.
  cbv iota. unfold close_block.
  cbn [is_enum_block is_oneof_block set_message_block message_names_path
       message_block List.length Nat.ltb Nat.leb].
  rewrite He, Ho. cbn [node_getitem]. unfold getitem.
  cbn [dict_get]. rewrite String.eqb_refl. cbn [bind].
  f_equal. destruct s0. simpl in *. now subst.
Qed.

Lemma X22_witness :
  parse_lines (parse_file (fun _ => None) 0)
    ("message M {"
     :: ["  string name = 1; // required"; "  repeated int32 tags = 2;"]
     ++ ["}"]) initial
  = Ok (set_structure initial
          (dict_set String.eqb "M"
             (NDict [(FIELDS_KEY,
                      NDict (register
                               [("name", mkMessageField "string" false true, "1");
                                ("tags", mkMessageField "int32" true false, "2")]
                               []))])
             (p_structure initial))).
Proof.
  apply (X22_flat_message_round_trip (parse_file (fun _ => None) 0) initial
           "M" "message M {" EmptyString
           ["  string name = 1; // required"; "  repeated int32 tags = 2;"]
           [("name", mkMessageField "string" false true, "1");
            ("tags", mkMessageField "int32" true false, "2")]
           "}");
    try reflexivity.
  repeat constructor; simpl; try reflexivity; discriminate.
Defined.

(** *** Imports *)

(** X23.  What an [import] does to the parser.  A path that does not
    start with [proto] is skipped and the file is not even opened.
    Otherwise the file is parsed; if that raises, so does the import; if
    it returns, the result is stored under its package name -- merged
    into the file already stored under that name, if any -- and no other
    import and none of the own declarations change. *)
Theorem X23_import_registration :
  forall rec field s,
    (startswith "proto" field = false -> add_import_field rec field s = Ok s)
    /\ (startswith "proto" field = true ->
        forall e, rec field = Raise e ->
                  add_import_field rec field s = Raise e)
    /\ (startswith "proto" field = true ->
        forall m, rec field = Ok m ->
        exists s',
          add_import_field rec field s = Ok s'
          /\ dict_get opt_eqb (package m) (p_imported_packages s')
             = Some (match dict_get opt_eqb (package m) (p_imported_packages s) with
                     | None => m
                     | Some old => merge_proto_file old m
                     end)
          /\ (forall k, k <> package m ->
                        dict_get opt_eqb k (p_imported_packages s')
                        = dict_get opt_eqb k (p_imported_packages s))
          /\ p_structure s' = p_structure s
          /\ message_block s' = message_block s).
Proof.
  intros rec field s. unfold add_import_field.
  split; [|split].
  - intros H. now rewrite H.
  - intros H e He. now rewrite H, He.
  - intros H m Hm. rewrite H, Hm. cbn [negb bind].
    eexists. split; [reflexivity|]. cbn [p_imported_packages p_structure message_block].
    split; [|split; [|split; reflexivity]].
    + destruct (dict_get opt_eqb (package m) (p_imported_packages s));
        rewrite (dict_get_set _ _ opt_eqb opt_eqb_spec);
        now rewrite (eqb_same _ opt_eqb opt_eqb_spec).
    + intros k Hk.
      destruct (dict_get opt_eqb (package m) (p_imported_packages s));
        rewrite (dict_get_set _ _ opt_eqb opt_eqb_spec);
        now rewrite (eqb_other _ opt_eqb opt_eqb_spec k (package m) Hk).
Qed.

Lemma X23_witness :
  exists s',
    add_import_field (parse_file button_disk 1) "proto/core.proto" initial = Ok s'
    /\ dict_get opt_eqb (Some "core") (p_imported_packages s')
       = Some (mkProtoFile None (Some "core") []
                 [("Icon",
                   NDict [(FIELDS_KEY,
                           NDict [("url", NField (mkMessageField "string" false true));
                                  ("size", NField (mkMessageField "int64" false false))])])]).
Proof.
  destruct (proj2 (proj2 (X23_import_registration (parse_file button_disk 1)
                            "proto/core.proto" initial))
              eq_refl
              (mkProtoFile None (Some "core") []
                 [("Icon",
                   NDict [(FIELDS_KEY,
                           NDict [("url", NField (mkMessageField "string" false true));
                                  ("size", NField (mkMessageField "int64" false false))])])])
              eq_refl)
    as (s' & Hs & Hget & _).
  exists s'. split; [exact Hs | exact Hget].
Defined.

Lemma startswith_length l : forall s,
  startswith l s = true -> String.length l <= String.length s.
Proof.
  induction l as [|c l IH]; intros s H; simpl; [lia|].
  destruct s as [|x s]; simpl in H; [discriminate|].
  apply andb_prop in H. destruct H as [_ H]. apply IH in H. simpl. lia.
Qed.

Lemma str_length_drop i : forall s,
  String.length (str_drop i s) = String.length s - i.
Proof.
  induction i as [|i IH]; intros s; simpl; [lia|].
  destruct s as [|c s]; simpl; [reflexivity | apply IH].
Qed.

(** [import "<stem><c>proto";]: the group is the whole path *)
Lemma import_line_matches stem c :
  stem <> EmptyString ->
  all_in Any (stem ++ String c "proto") = true ->
  re_match import_re
           ("import " ++ dquote ++ (stem ++ String c "proto") ++ dquote ++ ";")
  = Some [("field", (stem ++ String c "proto")%string)].
Proof.
  intros Hne Hany. unfold re_match, import_re.
  set (path := (stem ++ String c "proto")%string).
  set (s := (path ++ dquote ++ ";")%string).
  change (go [Lit ("import " ++ dquote); Open "field"; Plus Any; One Any;
              Lit "proto"; Close "field"; Lit (dquote ++ ";")]
             ("import " ++ dquote ++ s) [] [])
    with (go [Plus Any; One Any; Lit "proto"; Close "field"; Lit (dquote ++ ";")]
             s [("field", s)] []).
  rewrite go_plus.
  assert (Hs : all_in Any s = true).
  { unfold s. rewrite all_in_app. fold path in Hany. now rewrite Hany. }
  rewrite (run_all Any s Hs).
  assert (Hlen : String.length s = String.length stem + 8).
  { unfold s, path. rewrite !str_length_app. simpl. lia. }
  rewrite Hlen. rewrite try_from_skip.
  - destruct stem as [|x stem]; [congruence|].
    cbn [String.length try_from].
    change (str_drop (S (String.length stem)) s)
      with (str_drop (String.length (String x stem)) s).
    assert (Hsplit : s = (String x stem ++ String c ("proto" ++ dquote ++ ";"))%string).
    { unfold s, path. now rewrite str_app_assoc. }
    rewrite Hsplit at 1. rewrite str_drop_app.
    assert (Hc : in_cls Any c = true).
    { unfold path in Hany. rewrite all_in_app in Hany.
      apply andb_prop in Hany. destruct Hany as [_ Hany].
      cbn [all_in] in Hany. apply andb_prop in Hany. tauto. }
    cbn [go]. rewrite Hc.
    change (startswith "proto" ("proto" ++ dquote ++ ";")) with true.
    change (str_drop (String.length "proto") ("proto" ++ dquote ++ ";"))
      with (dquote ++ ";")%string.
    cbn [dict_get]. change (String.eqb "field" "field") with true. cbv iota.
    change (startswith (dquote ++ ";") (dquote ++ ";")) with true. cbv iota.
    change (String.length (dquote ++ ";")) with 2.
    replace (String.length s - 2) with (String.length path)
      by (unfold s; rewrite str_length_app; simpl; lia).
    unfold s at 1. rewrite str_take_app. reflexivity.
  - intros i Hi.
    assert (Hshort : String.length (str_drop i s) < 8)
      by (rewrite str_length_drop; lia).
    cbn [go]. destruct (str_drop i s) as [|y r]; [reflexivity|].
    destruct (in_cls Any y); [|reflexivity].
    destruct (startswith "proto" r) eqn:P; [|reflexivity].
    apply startswith_length in P.
    change (String.length "proto") with 5 in *.
    destruct (dict_get String.eqb "field" [("field", s)]); [|reflexivity].
    destruct (startswith (dquote ++ ";")
                (str_drop 5 r)) eqn:Q; [|reflexivity].
    apply startswith_length in Q. rewrite str_length_drop in Q.
    simpl in Q, Hshort. lia.
Qed.

Lemma parse_lines_stops rec raw lines :
  In raw lines ->
  (forall s s', parse_line rec raw s <> Ok s') ->
  forall s s', parse_lines rec lines s <> Ok s'.
Proof.
  intros Hin Hbad. induction lines as [|l lines IH]; intros s s' H;
    [destruct Hin|].
  simpl in H. bind_inv H. destruct Hin as [-> | Hin].
  - exact (Hbad _ _ E).
  - exact (IH Hin _ _ H).
Qed.

(** X24.  Imports are followed without a guard against cycles.  A file
    that has a line [import "<its own path>";] -- the path starting with
    [proto] and ending in a character followed by [proto] -- is never
    parsed into a [ProtoFile], whatever the bound on import nesting: the
    parse either fails before reaching that line or recurses until the
    bound. *)
Theorem X24_self_import_never_parses :
  forall read_file filename stem c lines raw,
    filename = (stem ++ String c "proto")%string ->
    stem <> EmptyString ->
    all_in Any filename = true ->
    startswith "proto" filename = true ->
    read_file filename = Some lines ->
    In raw lines ->
    strip raw = ("import " ++ dquote ++ filename ++ dquote ++ ";")%string ->
    forall fuel pf, parse_file read_file fuel filename <> Ok pf.
Proof.
  intros read_file filename stem c lines raw Hname Hne Hany Hproto Hfile Hin Hline.
  induction fuel as [|fuel IH]; intros pf H; [discriminate|].
  simpl in H. rewrite Hfile in H. bind_inv H.
  apply (parse_lines_stops _ raw lines Hin) in E; [exact E|].
  intros s s' Hs. unfold parse_line in Hs. cbv zeta in Hs.
  rewrite Hline in Hs.
  change (startswith "option go_package "
            ("import " ++ dquote ++ filename ++ dquote ++ ";")) with false in Hs.
  change (startswith "package"
            ("import " ++ dquote ++ filename ++ dquote ++ ";")) with false in Hs.
  change (startswith "import "
            ("import " ++ dquote ++ filename ++ dquote ++ ";")) with true in Hs.
  cbv iota in Hs. unfold match_group in Hs. subst filename.
  rewrite (import_line_matches stem c Hne Hany) in Hs.
  unfold getitem, add_import_field in Hs. cbn [dict_get] in Hs.
  change (String.eqb "field" "field") with true in Hs. cbv iota in Hs.
  cbn [bind] in Hs.
  rewrite Hproto in Hs. cbn [negb] in Hs. bind_inv Hs.
  exact (IH _ E0).
Qed.

Lemma X24_witness :
  startswith "proto" "proto/a.proto" = true
  /\ forall fuel pf,
    parse_file
      (on_disk "proto/a.proto"
         ["package a;";
          ("import " ++ dquote ++ "proto/a.proto" ++ dquote ++ ";")%string])
      fuel "proto/a.proto"
    <> Ok pf.
Proof.
  split; [reflexivity|].
  apply (X24_self_import_never_parses
           (on_disk "proto/a.proto"
              ["package a;";
               ("import " ++ dquote ++ "proto/a.proto" ++ dquote ++ ";")%string])
           "proto/a.proto" "proto/a" "."%char
           ["package a;";
            ("import " ++ dquote ++ "proto/a.proto" ++ dquote ++ ";")%string]
           ("import " ++ dquote ++ "proto/a.proto" ++ dquote ++ ";")%string);
    try reflexivity.
  - discriminate.
  - simpl. auto.
Defined.

(** *** Maps of scalars *)

Lemma base_type_is_dotted_name t :
  is_base_type t = true -> t <> EmptyString /\ all_in WordDot t = true.
Proof.
  unfold is_base_type. intros H. type_cases H; split;
    solve [discriminate | reflexivity].
Qed.

Lemma dotted_not_space c : in_cls WordDot c = true -> Ascii.eqb " " c = false.
Proof.
  intros H. destruct (Ascii.eqb " " c) eqn:E; [|reflexivity].
  apply Ascii.eqb_eq in E. subst c. discriminate H.
Qed.

Lemma word_not_comma c : in_cls Word c = true -> Ascii.eqb "," c = false.
Proof.
  intros H. destruct (Ascii.eqb "," c) eqn:E; [|reflexivity].
  apply Ascii.eqb_eq in E. subst c. discriminate H.
Qed.

(** the value group of [map_re] on [map<K,V>] and [map<K, V>] *)
Lemma map_type_matches K V spaced :
  is_name K = true ->
  V <> EmptyString ->
  all_in WordDot V = true ->
  match_group map_re "value" (map_type K V spaced) = Ok V.
Proof.
  intros HK HV HVall. unfold match_group, re_match, map_re, map_type.
  assert (HKne : K <> EmptyString) by (destruct K; [discriminate | discriminate]).
  assert (HKall : all_in Word K = true) by (destruct K; [discriminate | exact HK]).
  set (sp := if spaced then " "%string else EmptyString).
  set (tl := [Open "value"; Plus WordDot; Close "value"; Lit ">"]).
  change (go (Lit "map<" :: Plus Word :: Lit "," :: OptLit " " :: tl)
             ("map<" ++ K ++ "," ++ sp ++ V ++ ">") [] [])
    with (go (Plus Word :: Lit "," :: OptLit " " :: tl)
             (K ++ String "," (sp ++ V ++ ">")) [] []).
  rewrite go_plus_exact; try assumption; try reflexivity.
  2:{ intros x t Hx. cbn [go startswith]. now rewrite (word_not_comma x Hx). }
  change (go (Lit "," :: OptLit " " :: tl) (String "," (sp ++ V ++ ">")) [] [])
    with (go (OptLit " " :: tl) (sp ++ V ++ ">") [] []).
  assert (Htl : go tl (V ++ ">") [] [] = Some [("value", V)]).
  { unfold tl.
    change (V ++ ">")%string with (V ++ String ">" EmptyString ++ EmptyString)%string.
    rewrite go_group; try assumption; reflexivity. }
  rewrite go_optlit. destruct spaced; unfold sp.
  - change (startswith " " (" " ++ V ++ ">")) with true.
    change (str_drop (String.length " ") (" " ++ V ++ ">")) with (V ++ ">")%string.
    cbv iota. rewrite Htl. unfold getitem. cbn [dict_get].
    now change (String.eqb "value" "value") with true.
  - change (EmptyString ++ V ++ ">")%string with (V ++ ">")%string.
    destruct V as [|c V]; [congruence|].
    cbn [all_in] in HVall. apply andb_prop in HVall. destruct HVall as [Hc HVall].
    change (startswith " " (String c V ++ ">"))
      with (Ascii.eqb " " c && true).
    rewrite (dotted_not_space c Hc). cbn [andb].
    rewrite Htl. unfold getitem. cbn [dict_get].
    now change (String.eqb "value" "value") with true.
Qed.

(** X25.  A map of scalars.  For a field of type [map<K,V>] or
    [map<K, V>] whose value type [V] is a scalar type, validating a
    [dict] never descends into the values: the document and the
    diagnostics collected so far are returned as they were, and the
    result lists one message per entry whose value is not of type [V],
    in the order of the entries.  The key type is never checked. *)
Theorem X25_map_of_scalars :
  forall rec proto_file K V spaced d test_path st,
    is_name K = true ->
    is_base_type V = true ->
    validate_map_type rec proto_file (map_type K V spaced) (PDict d)
                      test_path st
    = Ok (PDict d, map_errors V (map_type K V spaced) d, st).
Proof.
  intros rec pf K V spaced d path st HK HV.
  destruct (base_type_is_dotted_name V HV) as [HVne HVall].
  pose proof (map_type_matches K V spaced HK HVne HVall) as Hre.
  unfold validate_map_type.
  assert (Hloop : map_loop rec pf (map_type K V spaced) d path st
                  = Ok (d, map_errors V (map_type K V spaced) d, st)).
  { induction d as [|[k v] d IH]; [reflexivity|].
    cbn [map_loop]. rewrite Hre. cbn [bind]. rewrite HV. cbn [bind].
    rewrite IH. cbn [bind map_errors flat_map fst snd].
    now destruct (validate_base_type V v). }
  rewrite Hloop. reflexivity.
Qed.

Lemma X25_witness :
  validate_map_type (fun _ _ v _ _ st => Ok (v, st))
    (mkProtoFile None None [] [])
    "map<string, int32>"
    (PDict [("a", PInt 1); ("b", PStr "x"); ("c", PInt 3)])
    "Root > m" (mkState [] [])
  = Ok (PDict [("a", PInt 1); ("b", PStr "x"); ("c", PInt 3)],
        [Some (WrongMapValue "b" "int32" "map<string, int32>" "str" (PStr "x"))],
        mkState [] []).
Proof.
  exact (X25_map_of_scalars (fun _ _ v _ _ st => Ok (v, st))
           (mkProtoFile None None [] []) "string" "int32" true
           [("a", PInt 1); ("b", PStr "x"); ("c", PInt 3)]
           "Root > m" (mkState [] []) eq_refl eq_refl).
Defined.
